(** * NeuralNinjas: the "find Batman" click-search game

    A shallow embedding of the three front-end scripts of the game
    and of the score function, with the properties of the game
    session engine proved about them.

    - [Basic]    : [front-end/script.js], first script (fixed image,
                   fixed target, attempts counter).
    - [Timed]    : [front-end/script.js], second script (upload to
                   [/upload], timer, clicks counter, score).
    - [Assisted] : the server-assisted script (upload to
                   [/api/process], target delivered by the server,
                   give up / play again).
    - [Campaign] : the file handler of the campaign front end.
    - [Server]   : the handlers of the Express upload server.
    - [Runs]     : predicates on runs of the scripts used by the
                   properties of the second part.

    Modelling conventions.
    - A JavaScript number that holds a coordinate, a size or a radius is
      a real number ([R]), and every arithmetic operation of a handler on
      such numbers rounds its exact result to the nearest double
      ([Double.round]); NaN and the infinities are not modelled.
      Counters and [Date.now()] readings are integers ([Z]).
    - A pending [setTimeout] callback is recorded with what it will do:
      the constants it closes over are stored with it, the script
      variables it reads are read from the state when it runs.
    - The page is part of the state: every DOM property a script writes
      is a field of the [world] record of that script, next to the
      script's own variables.  The children of [gameContainer] created
      by the click handler are the list [markers]; a marker carries the
      identity of its DOM node ([mk_id]) because the [setTimeout]
      callback keeps a reference to that very node.
    - The browser's timer table is part of the state too: [timeouts] are
      the pending [setTimeout] callbacks with the time they are due,
      [intervals] the live [setInterval] handles.
    - A template literal assigned to [textContent] is a constructor of
      an inductive type carrying the interpolated values. *)

From Stdlib Require Import ZArith List Bool String Ascii Reals Lra Lia.
From Stdlib Require Import Classical ClassicalEpsilon.
From Stdlib Require Import DecimalString.
From Stdlib Require DecimalPos DecimalZ.
Import ListNotations.

Local Open Scope string_scope.
Local Open Scope list_scope.
Local Open Scope Z_scope.

(** ** The page: markers, CSS display values, files *)

Module Dom.

(** A [div.click-marker] appended to [gameContainer].  [mk_success]
    is the presence of the class [success-marker]. *)
Record marker : Type := Marker {
  mk_id : nat;
  mk_left : R;
  mk_top : R;
  mk_success : bool
}.

(** [node.remove()]: detaches that node, a no-op when it is not
    attached. *)
Definition remove_node (id : nat) (ms : list marker) : list marker :=
  filter (fun m => negb (Nat.eqb (mk_id m) id)) ms.

Definition attached (id : nat) (ms : list marker) : bool :=
  existsb (fun m => Nat.eqb (mk_id m) id) ms.

(** Values of [style.display] the scripts assign; [Display_unset] is
    whatever the style sheet gives before any assignment. *)
Inductive display : Type :=
| Display_unset
| Display_none
| Display_inline_block
| Display_flex.

(** A [File] as far as the handlers look at it. *)
Record file : Type := File {
  file_name : string;
  file_type : string
}.

(** [file && file.type.startsWith('image/')], with [files[0]]
    undefined when nothing was selected. *)
Definition is_image (f : option file) : bool :=
  match f with
  | Some f => String.prefix "image/" (file_type f)
  | None => false
  end.

(** A mouse click on [gameImage], together with what the handler reads
    from the page at that moment: the bounding rectangle and the
    rendered size of the image, and the clock. *)
Record click_event : Type := Click {
  clientX : R;
  clientY : R;
  rect_left : R;
  rect_top : R;
  image_width : R;
  image_height : R;
  click_time : Z
}.

(** The target: [batmanLocation]. *)
Record location : Type := Location {
  x : R;
  y : R;
  radius : R
}.

(** [n.toString()] of an integer. *)
Definition string_of_Z (n : Z) : string :=
  NilZero.string_of_int (Z.to_int n).

(** Several [remove()] calls in a row. *)
Definition remove_nodes (ids : list nat) (ms : list marker) : list marker :=
  fold_left (fun ms id => remove_node id ms) ids ms.

End Dom.

Import Dom.

(** ** Double-precision arithmetic

    A JavaScript number is an IEEE 754 binary64 value, and each
    arithmetic operation returns the double nearest to its exact
    result, ties going to the one with the even significand. *)

Module Double.

Local Open Scope R_scope.

(** The finite doubles: [m * 2^e] with a significand of at most 53 bits
    and an exponent in the range of the format, subnormals included. *)
Definition finite (v : R) : Prop :=
  exists m e : Z,
    (Z.abs m < 2 ^ 53)%Z /\ (-1074 <= e <= 971)%Z /\ v = IZR m * powerRZ 2 e.

(** Those whose significand is even when written with the smallest
    exponent the format allows. *)
Definition even (v : R) : Prop :=
  exists m e : Z,
    (Z.abs m < 2 ^ 53)%Z /\ (-1074 <= e <= 971)%Z /\ v = IZR m * powerRZ 2 e /\
    Z.even m = true /\ (2 ^ 52 <= Z.abs m \/ e = -1074)%Z.

(** [v] is the double that round-to-nearest, ties-to-even, returns for
    the exact result [x]. *)
Definition nearest_even (x v : R) : Prop :=
  finite v /\
  (forall u, finite u -> Rabs (v - x) <= Rabs (u - x)) /\
  (forall u, finite u -> Rabs (u - x) = Rabs (v - x) -> u = v \/ even v).

(** IEEE 754 arithmetic returns, for the exact result [x] of an
    operation, the one double [v] with [nearest_even x v]; [round x] is
    that double (there is one, and only one, for every real: lemmas
    [nearest_even_exists] and [nearest_even_unique]).  An exact result
    too large for the format, which JavaScript rounds to an infinity, is
    rounded to the largest double here. *)
Definition round (x : R) : R := epsilon (inhabits 0) (nearest_even x).

(** [a - b], [a + b], [a * b] *)
Definition sub (a b : R) : R := round (a - b).
Definition add (a b : R) : R := round (a + b).
Definition mul (a b : R) : R := round (a * b).

(** [Math.pow(a, 2)].  ECMAScript leaves the accuracy of [Math.pow] to
    the engine; it is taken to be the correctly rounded square. *)
Definition square (a : R) : R := round (a ^ 2).

(** [Math.sqrt(a)] *)
Definition sqrt (a : R) : R := round (R_sqrt.sqrt a).

End Double.

(** ** Geometry of the hit test, common to the three click handlers *)

Module Geometry.

Local Open Scope R_scope.

(** [e.clientX - rect.left] and [e.clientY - rect.top] *)
Definition clickX_of (e : click_event) : R := Double.sub (clientX e) (rect_left e).
Definition clickY_of (e : click_event) : R := Double.sub (clientY e) (rect_top e).

(** [batmanLocation.x * gameImage.width] *)
Definition batmanX_of (loc : location) (e : click_event) : R :=
  Double.mul (x loc) (image_width e).
Definition batmanY_of (loc : location) (e : click_event) : R :=
  Double.mul (y loc) (image_height e).

(** [Math.sqrt(Math.pow(cx - bx, 2) + Math.pow(cy - by, 2))] *)
Definition distance (cx cy bx by_ : R) : R :=
  Double.sqrt
    (Double.add (Double.square (Double.sub cx bx))
                (Double.square (Double.sub cy by_))).

Definition click_distance (loc : location) (e : click_event) : R :=
  distance (clickX_of e) (clickY_of e) (batmanX_of loc e) (batmanY_of loc e).

(** The marker the handler creates for a click; [success] is set on
    the hit branch only. *)
Definition new_marker (id : nat) (e : click_event) (success : bool) : marker :=
  {| mk_id := id; mk_left := clickX_of e; mk_top := clickY_of e;
     mk_success := success |}.


(** No operation of the hit test rounds: every exact intermediate
    result is a double. *)
Definition exact (loc : location) (e : click_event) : Prop :=
  let dx := clientX e - rect_left e - x loc * image_width e in
  let dy := clientY e - rect_top e - y loc * image_height e in
  Double.finite (clientX e - rect_left e) /\
  Double.finite (clientY e - rect_top e) /\
  Double.finite (x loc * image_width e) /\
  Double.finite (y loc * image_height e) /\
  Double.finite dx /\ Double.finite dy /\
  Double.finite (dx ^ 2) /\ Double.finite (dy ^ 2) /\
  Double.finite (dx ^ 2 + dy ^ 2) /\
  Double.finite (R_sqrt.sqrt (dx ^ 2 + dy ^ 2)).


(** The shape of the hit test as the specification words it: [hit] and
    [miss] are decided by comparing the distance [d] with the radius
    [r], the boundary included on the side of the hit. *)
Definition decided_by_distance (hit miss : Prop) (d r : R) : Prop :=
  (hit <-> d <= r) /\
  (miss <-> r < d) /\
  (d = r -> hit) /\
  (forall eps, 0 < eps -> d = r + eps -> miss).

End Geometry.

Import Geometry.

(** ** First script of [front-end/script.js]: fixed image, fixed target *)

Module Basic.

Definition GAME_IMAGE_PATH : string := "images/batman-game.jpg".

Definition batmanLocation : location :=
  {| x := 0.5; y := 0.5; radius := 50 |}%R.

Inductive message : Type :=
| Msg_empty
| Msg_found (attempts : Z) (plural : bool)
| Msg_not_quite.

(** A pending [setTimeout(() => marker.remove(), 1000)]. *)
Record timeout : Type := Pending {
  due : Z;
  node : nat
}.

(** The script's variables, the properties of the page it writes, and
    the browser's pending timeouts; [next_id] is the identity of the
    next node [createElement] returns. *)
Record world : Type := World {
  gameActive : bool;
  attempts : Z;
  gameImage_src : string;
  uploadStep_active : bool;
  gameStep_active : bool;
  attemptsDisplay : Z;
  message_text : message;
  message_class : string;
  playAgainBtn_display : display;
  fileInput_value : string;
  uploadArea_background : string;
  markers : list marker;
  timeouts : list timeout;
  next_id : nat
}.

Inductive step_name : Type := Step_upload | Step_game.

Definition showStep (st : step_name) (w : world) : world :=
  {| gameActive := gameActive w;
     attempts := attempts w;
     gameImage_src := gameImage_src w;
     uploadStep_active := match st with Step_upload => true | _ => false end;
     gameStep_active := match st with Step_game => true | _ => false end;
     attemptsDisplay := attemptsDisplay w;
     message_text := message_text w;
     message_class := message_class w;
     playAgainBtn_display := playAgainBtn_display w;
     fileInput_value := fileInput_value w;
     uploadArea_background := uploadArea_background w;
     markers := markers w;
     timeouts := timeouts w;
     next_id := next_id w |}.

Definition startGame (w : world) : world :=
  let w := showStep Step_game w in
  {| gameActive := true;
     attempts := 0;
     gameImage_src := GAME_IMAGE_PATH;
     uploadStep_active := uploadStep_active w;
     gameStep_active := gameStep_active w;
     attemptsDisplay := 0;
     message_text := message_text w;
     message_class := message_class w;
     playAgainBtn_display := playAgainBtn_display w;
     fileInput_value := fileInput_value w;
     uploadArea_background := uploadArea_background w;
     markers := markers w;
     timeouts := timeouts w;
     next_id := next_id w |}.

Definition set_background (bg : string) (w : world) : world :=
  {| gameActive := gameActive w;
     attempts := attempts w;
     gameImage_src := gameImage_src w;
     uploadStep_active := uploadStep_active w;
     gameStep_active := gameStep_active w;
     attemptsDisplay := attemptsDisplay w;
     message_text := message_text w;
     message_class := message_class w;
     playAgainBtn_display := playAgainBtn_display w;
     fileInput_value := fileInput_value w;
     uploadArea_background := bg;
     markers := markers w;
     timeouts := timeouts w;
     next_id := next_id w |}.

(** [fileInput] change handler *)
Definition on_change (f : option file) (w : world) : world :=
  if is_image f then startGame w else w.

Definition on_dragover (w : world) : world := set_background "#333" w.
Definition on_dragleave (w : world) : world := set_background "" w.

(** [uploadArea] drop handler *)
Definition on_drop (f : option file) (w : world) : world :=
  let w := set_background "" w in
  if is_image f then startGame w else w.

(** The click handler of [gameImage], in three parts.
    [attempts++; attemptsDisplay.textContent = attempts;] *)
Definition count_attempt (w : world) : world :=
  {| gameActive := gameActive w;
     attempts := attempts w + 1;
     gameImage_src := gameImage_src w;
     uploadStep_active := uploadStep_active w;
     gameStep_active := gameStep_active w;
     attemptsDisplay := attempts w + 1;
     message_text := message_text w;
     message_class := message_class w;
     playAgainBtn_display := playAgainBtn_display w;
     fileInput_value := fileInput_value w;
     uploadArea_background := uploadArea_background w;
     markers := markers w;
     timeouts := timeouts w;
     next_id := next_id w |}.

(** The branch [distance <= batmanLocation.radius] of the handler. *)
Definition found (e : click_event) (w : world) : world :=
  {| gameActive := false;
     attempts := attempts w;
     gameImage_src := gameImage_src w;
     uploadStep_active := uploadStep_active w;
     gameStep_active := gameStep_active w;
     attemptsDisplay := attemptsDisplay w;
     message_text := Msg_found (attempts w) (negb (Z.eqb (attempts w) 1));
     message_class := "message success";
     playAgainBtn_display := Display_inline_block;
     fileInput_value := fileInput_value w;
     uploadArea_background := uploadArea_background w;
     markers := markers w ++ [new_marker (next_id w) e true];
     timeouts := timeouts w;
     next_id := S (next_id w) |}.

(** The [else] branch: the marker is appended and its removal is
    scheduled one second later. *)
Definition missed (e : click_event) (w : world) : world :=
  {| gameActive := gameActive w;
     attempts := attempts w;
     gameImage_src := gameImage_src w;
     uploadStep_active := uploadStep_active w;
     gameStep_active := gameStep_active w;
     attemptsDisplay := attemptsDisplay w;
     message_text := Msg_not_quite;
     message_class := "message try-again";
     playAgainBtn_display := playAgainBtn_display w;
     fileInput_value := fileInput_value w;
     uploadArea_background := uploadArea_background w;
     markers := markers w ++ [new_marker (next_id w) e false];
     timeouts := timeouts w ++ [Pending (click_time e + 1000) (next_id w)];
     next_id := S (next_id w) |}.

(** [gameImage] click handler *)
Definition on_click (e : click_event) (w : world) : world :=
  if negb (gameActive w) then w else
  let w := count_attempt w in
  if Rle_dec (click_distance batmanLocation e) (radius batmanLocation)
  then found e w
  else missed e w.

Definition playAgain (w : world) : world :=
  {| gameActive := true;
     attempts := 0;
     gameImage_src := gameImage_src w;
     uploadStep_active := uploadStep_active w;
     gameStep_active := gameStep_active w;
     attemptsDisplay := 0;
     message_text := Msg_empty;
     message_class := message_class w;
     playAgainBtn_display := Display_none;
     fileInput_value := fileInput_value w;
     uploadArea_background := uploadArea_background w;
     markers := [];
     timeouts := timeouts w;
     next_id := next_id w |}.

Definition resetGame (w : world) : world :=
  showStep Step_upload
    {| gameActive := false;
       attempts := 0;
       gameImage_src := gameImage_src w;
       uploadStep_active := uploadStep_active w;
       gameStep_active := gameStep_active w;
       attemptsDisplay := attemptsDisplay w;
       message_text := Msg_empty;
       message_class := message_class w;
       playAgainBtn_display := Display_none;
       fileInput_value := "";
       uploadArea_background := uploadArea_background w;
       markers := [];
       timeouts := timeouts w;
       next_id := next_id w |}.

(** The callback of one timeout: [marker.remove()]. *)
Definition run_timeout (w : world) (t : timeout) : world :=
  {| gameActive := gameActive w;
     attempts := attempts w;
     gameImage_src := gameImage_src w;
     uploadStep_active := uploadStep_active w;
     gameStep_active := gameStep_active w;
     attemptsDisplay := attemptsDisplay w;
     message_text := message_text w;
     message_class := message_class w;
     playAgainBtn_display := playAgainBtn_display w;
     fileInput_value := fileInput_value w;
     uploadArea_background := uploadArea_background w;
     markers := remove_node (node t) (markers w);
     timeouts := timeouts w;
     next_id := next_id w |}.

Definition is_due (now : Z) (t : timeout) : bool := due t <=? now.

(** The event loop at time [now]: every timeout that is due runs, in
    the order it was scheduled, and leaves the table. *)
Definition fire_timeouts (now : Z) (w : world) : world :=
  fold_left run_timeout (filter (is_due now) (timeouts w))
    {| gameActive := gameActive w;
       attempts := attempts w;
       gameImage_src := gameImage_src w;
       uploadStep_active := uploadStep_active w;
       gameStep_active := gameStep_active w;
       attemptsDisplay := attemptsDisplay w;
       message_text := message_text w;
       message_class := message_class w;
       playAgainBtn_display := playAgainBtn_display w;
       fileInput_value := fileInput_value w;
       uploadArea_background := uploadArea_background w;
       markers := markers w;
       timeouts := filter (fun t => negb (is_due now t)) (timeouts w);
       next_id := next_id w |}.

Inductive event : Type :=
| Ev_change (f : option file)
| Ev_dragover
| Ev_dragleave
| Ev_drop (f : option file)
| Ev_click (e : click_event)
| Ev_playAgain
| Ev_resetGame
| Ev_timers (now : Z).

Definition handle (w : world) (ev : event) : world :=
  match ev with
  | Ev_change f => on_change f w
  | Ev_dragover => on_dragover w
  | Ev_dragleave => on_dragleave w
  | Ev_drop f => on_drop f w
  | Ev_click e => on_click e w
  | Ev_playAgain => playAgain w
  | Ev_resetGame => resetGame w
  | Ev_timers now => fire_timeouts now w
  end.

Definition run (w : world) (evs : list event) : world :=
  fold_left handle evs w.

(** The page as loaded: the script's variables at their initial
    values, no marker on the image, nothing scheduled.  The static
    content of the page is not constrained. *)
Definition loaded (w : world) : Prop :=
  gameActive w = false /\ attempts w = 0 /\
  markers w = [] /\ timeouts w = [] /\ next_id w = O.

Inductive reachable : world -> Prop :=
| reach_loaded : forall w, loaded w -> reachable w
| reach_handle : forall w ev, reachable w -> reachable (handle w ev).

(** An event that removes every marker. *)
Definition clears (ev : event) : bool :=
  match ev with
  | Ev_playAgain | Ev_resetGame => true
  | _ => false
  end.

(** What a click that is handled as a hit, or as a miss, leaves behind:
    the round is over and a success marker was appended, or the round
    goes on and a plain marker was appended. *)
Definition hit_outcome (w w' : world) : Prop :=
  gameActive w' = false /\
  exists m, markers w' = markers w ++ [m] /\ mk_success m = true.

Definition miss_outcome (w w' : world) : Prop :=
  gameActive w' = true /\
  exists m, markers w' = markers w ++ [m] /\ mk_success m = false.

(** Node identities are fresh: every marker and every node a pending
    timeout refers to was created before [next_id]. *)
Definition wf (w : world) : Prop :=
  Forall (fun m => (mk_id m < next_id w)%nat) (markers w) /\
  Forall (fun t => (node t < next_id w)%nat) (timeouts w).

(** An event sequence without [playAgain] and [resetGame]. *)
Definition no_clear (evs : list event) : bool :=
  forallb (fun ev => negb (clears ev)) evs.

(** The self-transition of a miss, from [w] to [w']: one more attempt,
    a plain marker appended at the click point, the game still active;
    and the marker is transient: its removal is scheduled one second
    after the click, so that a turn of the event loop before that time
    leaves it attached, and a turn at or after that time leaves it
    detached, whatever happened in between. *)
Definition miss_transition (e : click_event) (w w' : world) : Prop :=
  attempts w' = attempts w + 1 /\
  markers w' =
    markers w ++
      [{| mk_id := next_id w;
          mk_left := Double.sub (clientX e) (rect_left e);
          mk_top := Double.sub (clientY e) (rect_top e);
          mk_success := false |}] /\
  gameActive w' = true /\
  timeouts w' = timeouts w ++ [Pending (click_time e + 1000) (next_id w)] /\
  (forall now, now < click_time e + 1000 ->
     attached (next_id w) (markers (fire_timeouts now w')) = true) /\
  (forall evs now, click_time e + 1000 <= now ->
     attached (next_id w) (markers (fire_timeouts now (run w' evs))) = false).

(** The marker of a hit stays: it is appended, no timeout refers to
    it, and it is on the page after every sequence of events that has
    no [playAgain] or [resetGame], which both remove every marker. *)
Definition hit_marker_permanent (e : click_event) (w w' : world) : Prop :=
  let success :=
    {| mk_id := next_id w;
       mk_left := Double.sub (clientX e) (rect_left e);
       mk_top := Double.sub (clientY e) (rect_top e);
       mk_success := true |} in
  markers w' = markers w ++ [success] /\
  timeouts w' = timeouts w /\
  (forall evs, no_clear evs = true -> In success (markers (run w' evs))) /\
  (forall evs ev, clears ev = true -> markers (handle (run w' evs) ev) = []).

(** Invariants behind the two definitions above.  [scheduled id at_ w]:
    the node [id] exists and, while attached, its removal is pending at
    [at_].  [kept m w]: the marker [m] is attached and no pending
    timeout refers to it. *)
Definition scheduled (id : nat) (at_ : Z) (w : world) : Prop :=
  (id < next_id w)%nat /\
  (attached id (markers w) = true -> In (Pending at_ id) (timeouts w)).

Definition kept (m : marker) (w : world) : Prop :=
  In m (markers w) /\ (mk_id m < next_id w)%nat /\
  Forall (fun t => node t <> mk_id m) (timeouts w).

(** What the user is told changed between [w] and [w']: this page's
    only text for the user is [message]. *)
Definition notified (w w' : world) : Prop :=
  message_text w' <> message_text w.

End Basic.

(** ** Second script of [front-end/script.js]: upload, timer and score *)

Module Timed.

Definition batmanLocation : location :=
  {| x := 0.5; y := 0.5; radius := 50 |}%R.

Inductive message : Type :=
| Msg_empty
| Msg_not_quite.

Inductive status : Type :=
| Status_empty
| Status_uploading
| Status_processed
| Status_failed
| Status_error.

(** What a pending [setTimeout] callback will do.  The callback of a
    hit, [() => { showResults(clicks, timeElapsed, score); }], closes
    over the constants [timeElapsed] and [score] of the click handler;
    [clicks] is the script's variable, read when the callback runs. *)
Inductive task : Type :=
| Remove_marker (node : nat)
| Show_results (timeElapsed score : Z)
| Show_ready.

Record timeout : Type := Pending {
  due : Z;
  job : task
}.

(** The script's variables, the properties of the page it writes, and
    the browser's timers. *)
Record world : Type := World {
  gameActive : bool;
  clicks : Z;
  startTime : option Z;
  timerInterval : option positive;
  compositeImagePath : option string;
  gameImage_src : option string;
  uploadStep_active : bool;
  readyStep_active : bool;
  gameStep_active : bool;
  resultsStep_active : bool;
  message_text : message;
  message_class : string;
  clicksDisplay : Z;
  timerDisplay : string;
  uploadStatus : status;
  fileInput_value : string;
  uploadArea_background : string;
  finalTime : string;
  finalClicks : Z;
  finalScore : Z;
  markers : list marker;
  (* The browser's side: the handles of the intervals that are live,
     the arguments of the clearInterval calls made so far, the pending
     timeouts, the number of uploads under way, and the next node
     identity and timer handle to hand out. *)
  intervals : list positive;
  cleared : list (option positive);
  timeouts : list timeout;
  in_flight : nat;
  next_id : nat;
  next_handle : positive
}.

(** Calculate score: 1000 - (clicks x 50) - (seconds x 10) *)
Definition calculateScore (clicks seconds : Z) : Z :=
  let baseScore := 1000 in
  let clickPenalty := clicks * 50 in
  let timePenalty := seconds * 10 in
  let score := Z.max 0 (baseScore - clickPenalty - timePenalty) in
  score.

(** [Math.floor((Date.now() - startTime) / 1000)]; a [null]
    [startTime] converts to 0 in the subtraction. *)
Definition elapsed_seconds (now : Z) (start : option Z) : Z :=
  (now - match start with Some t => t | None => 0 end) / 1000.

(** [s.padStart(2, '0')] *)
Definition padStart2 (s : string) : string :=
  match String.length s with
  | O => "00"
  | S O => "0" ++ s
  | _ => s
  end%string.

(** [`${minutes}:${seconds.toString().padStart(2, '0')}`] with
    [minutes = Math.floor(t / 60)] and [seconds = t % 60]. *)
Definition timeString (t : Z) : string :=
  (string_of_Z (t / 60) ++ ":" ++ padStart2 (string_of_Z (Z.rem t 60)))%string.

Inductive step_name : Type :=
| Step_upload | Step_ready | Step_game | Step_results.

Definition showStep (st : step_name) (w : world) : world :=
  {| gameActive := gameActive w;
     clicks := clicks w;
     startTime := startTime w;
     timerInterval := timerInterval w;
     compositeImagePath := compositeImagePath w;
     gameImage_src := gameImage_src w;
     uploadStep_active := match st with Step_upload => true | _ => false end;
     readyStep_active := match st with Step_ready => true | _ => false end;
     gameStep_active := match st with Step_game => true | _ => false end;
     resultsStep_active := match st with Step_results => true | _ => false end;
     message_text := message_text w;
     message_class := message_class w;
     clicksDisplay := clicksDisplay w;
     timerDisplay := timerDisplay w;
     uploadStatus := uploadStatus w;
     fileInput_value := fileInput_value w;
     uploadArea_background := uploadArea_background w;
     finalTime := finalTime w;
     finalClicks := finalClicks w;
     finalScore := finalScore w;
     markers := markers w;
     intervals := intervals w;
     cleared := cleared w;
     timeouts := timeouts w;
     in_flight := in_flight w;
     next_id := next_id w;
     next_handle := next_handle w |}.

Definition set_background (bg : string) (w : world) : world :=
  {| gameActive := gameActive w;
     clicks := clicks w;
     startTime := startTime w;
     timerInterval := timerInterval w;
     compositeImagePath := compositeImagePath w;
     gameImage_src := gameImage_src w;
     uploadStep_active := uploadStep_active w;
     readyStep_active := readyStep_active w;
     gameStep_active := gameStep_active w;
     resultsStep_active := resultsStep_active w;
     message_text := message_text w;
     message_class := message_class w;
     clicksDisplay := clicksDisplay w;
     timerDisplay := timerDisplay w;
     uploadStatus := uploadStatus w;
     fileInput_value := fileInput_value w;
     uploadArea_background := bg;
     finalTime := finalTime w;
     finalClicks := finalClicks w;
     finalScore := finalScore w;
     markers := markers w;
     intervals := intervals w;
     cleared := cleared w;
     timeouts := timeouts w;
     in_flight := in_flight w;
     next_id := next_id w;
     next_handle := next_handle w |}.

(** [uploadAndProcess] up to its first [await]: the status line is
    set and the request leaves. *)
Definition uploadAndProcess (w : world) : world :=
  {| gameActive := gameActive w;
     clicks := clicks w;
     startTime := startTime w;
     timerInterval := timerInterval w;
     compositeImagePath := compositeImagePath w;
     gameImage_src := gameImage_src w;
     uploadStep_active := uploadStep_active w;
     readyStep_active := readyStep_active w;
     gameStep_active := gameStep_active w;
     resultsStep_active := resultsStep_active w;
     message_text := message_text w;
     message_class := message_class w;
     clicksDisplay := clicksDisplay w;
     timerDisplay := timerDisplay w;
     uploadStatus := Status_uploading;
     fileInput_value := fileInput_value w;
     uploadArea_background := uploadArea_background w;
     finalTime := finalTime w;
     finalClicks := finalClicks w;
     finalScore := finalScore w;
     markers := markers w;
     intervals := intervals w;
     cleared := cleared w;
     timeouts := timeouts w;
     in_flight := S (in_flight w);
     next_id := next_id w;
     next_handle := next_handle w |}.

(** How the [fetch('/upload')] of [uploadAndProcess] ends: it throws,
    or it delivers [{ success, path }]. *)
Inductive upload_outcome : Type :=
| Upload_threw
| Upload_result (success : bool) (path : string).

(** The rest of [uploadAndProcess], run when the request ends at time
    [now]; nothing runs when no request is under way. *)
Definition uploadAndProcess_resume (out : upload_outcome) (now : Z)
    (w : world) : world :=
  match in_flight w with
  | O => w
  | S n =>
    {| gameActive := gameActive w;
       clicks := clicks w;
       startTime := startTime w;
       timerInterval := timerInterval w;
       compositeImagePath :=
         match out with
         | Upload_result true path => Some path
         | _ => compositeImagePath w
         end;
       gameImage_src := gameImage_src w;
       uploadStep_active := uploadStep_active w;
       readyStep_active := readyStep_active w;
       gameStep_active := gameStep_active w;
       resultsStep_active := resultsStep_active w;
       message_text := message_text w;
       message_class := message_class w;
       clicksDisplay := clicksDisplay w;
       timerDisplay := timerDisplay w;
       uploadStatus :=
         match out with
         | Upload_result true _ => Status_processed
         | Upload_result false _ => Status_failed
         | Upload_threw => Status_error
         end;
       fileInput_value := fileInput_value w;
       uploadArea_background := uploadArea_background w;
       finalTime := finalTime w;
       finalClicks := finalClicks w;
       finalScore := finalScore w;
       markers := markers w;
       intervals := intervals w;
       cleared := cleared w;
       timeouts :=
         match out with
         | Upload_result true _ => timeouts w ++ [Pending (now + 1000) Show_ready]
         | _ => timeouts w
         end;
       in_flight := n;
       next_id := next_id w;
       next_handle := next_handle w |}
  end.

Definition on_change (f : option file) (w : world) : world :=
  if is_image f then uploadAndProcess w else w.

Definition on_dragover (w : world) : world := set_background "#333" w.
Definition on_dragleave (w : world) : world := set_background "" w.

Definition on_drop (f : option file) (w : world) : world :=
  let w := set_background "" w in
  if is_image f then uploadAndProcess w else w.

(** [startGame()] called at time [now]; [setInterval] hands out the
    fresh handle [next_handle w]. *)
Definition startGame (now : Z) (w : world) : world :=
  let w := showStep Step_game w in
  {| gameActive := true;
     clicks := 0;
     startTime := Some now;
     timerInterval := Some (next_handle w);
     compositeImagePath := compositeImagePath w;
     gameImage_src := compositeImagePath w;
     uploadStep_active := uploadStep_active w;
     readyStep_active := readyStep_active w;
     gameStep_active := gameStep_active w;
     resultsStep_active := resultsStep_active w;
     message_text := message_text w;
     message_class := message_class w;
     clicksDisplay := 0;
     timerDisplay := timerDisplay w;
     uploadStatus := uploadStatus w;
     fileInput_value := fileInput_value w;
     uploadArea_background := uploadArea_background w;
     finalTime := finalTime w;
     finalClicks := finalClicks w;
     finalScore := finalScore w;
     markers := markers w;
     intervals := intervals w ++ [next_handle w];
     cleared := cleared w;
     timeouts := timeouts w;
     in_flight := in_flight w;
     next_id := next_id w;
     next_handle := Pos.succ (next_handle w) |}.

(** [if (!startTime) return;]: [null] and [0] are both falsy. *)
Definition startTime_truthy (w : world) : option Z :=
  match startTime w with
  | Some t => if Z.eqb t 0 then None else Some t
  | None => None
  end.

Definition updateTimer (now : Z) (w : world) : world :=
  match startTime_truthy w with
  | None => w
  | Some t =>
    {| gameActive := gameActive w;
       clicks := clicks w;
       startTime := startTime w;
       timerInterval := timerInterval w;
       compositeImagePath := compositeImagePath w;
       gameImage_src := gameImage_src w;
       uploadStep_active := uploadStep_active w;
       readyStep_active := readyStep_active w;
       gameStep_active := gameStep_active w;
       resultsStep_active := resultsStep_active w;
       message_text := message_text w;
       message_class := message_class w;
       clicksDisplay := clicksDisplay w;
       timerDisplay := timeString ((now - t) / 1000);
       uploadStatus := uploadStatus w;
       fileInput_value := fileInput_value w;
       uploadArea_background := uploadArea_background w;
       finalTime := finalTime w;
       finalClicks := finalClicks w;
       finalScore := finalScore w;
       markers := markers w;
       intervals := intervals w;
       cleared := cleared w;
       timeouts := timeouts w;
       in_flight := in_flight w;
       next_id := next_id w;
       next_handle := next_handle w |}
  end.

Definition live (h : positive) (w : world) : bool :=
  existsb (Pos.eqb h) (intervals w).

(** One tick of the interval with handle [h]: a cleared interval
    never ticks. *)
Definition on_tick (h : positive) (now : Z) (w : world) : world :=
  if live h w then updateTimer now w else w.

(** What [clearInterval(h)] leaves of the live handles. *)
Definition without (h : option positive) (hs : list positive) : list positive :=
  match h with
  | Some h => filter (fun k => negb (Pos.eqb k h)) hs
  | None => hs
  end.

(** [clicks++; clicksDisplay.textContent = clicks;] *)
Definition count_click (w : world) : world :=
  {| gameActive := gameActive w;
     clicks := clicks w + 1;
     startTime := startTime w;
     timerInterval := timerInterval w;
     compositeImagePath := compositeImagePath w;
     gameImage_src := gameImage_src w;
     uploadStep_active := uploadStep_active w;
     readyStep_active := readyStep_active w;
     gameStep_active := gameStep_active w;
     resultsStep_active := resultsStep_active w;
     message_text := message_text w;
     message_class := message_class w;
     clicksDisplay := clicks w + 1;
     timerDisplay := timerDisplay w;
     uploadStatus := uploadStatus w;
     fileInput_value := fileInput_value w;
     uploadArea_background := uploadArea_background w;
     finalTime := finalTime w;
     finalClicks := finalClicks w;
     finalScore := finalScore w;
     markers := markers w;
     intervals := intervals w;
     cleared := cleared w;
     timeouts := timeouts w;
     in_flight := in_flight w;
     next_id := next_id w;
     next_handle := next_handle w |}.

(** The branch [distance <= batmanLocation.radius] of the handler:
    the timer is cleared, the round ends, the success marker is
    appended, the score is computed and the results are scheduled. *)
Definition found (e : click_event) (w : world) : world :=
  let timeElapsed := elapsed_seconds (click_time e) (startTime w) in
  let score := calculateScore (clicks w) timeElapsed in
  {| gameActive := false;
     clicks := clicks w;
     startTime := startTime w;
     timerInterval := timerInterval w;
     compositeImagePath := compositeImagePath w;
     gameImage_src := gameImage_src w;
     uploadStep_active := uploadStep_active w;
     readyStep_active := readyStep_active w;
     gameStep_active := gameStep_active w;
     resultsStep_active := resultsStep_active w;
     message_text := message_text w;
     message_class := message_class w;
     clicksDisplay := clicksDisplay w;
     timerDisplay := timerDisplay w;
     uploadStatus := uploadStatus w;
     fileInput_value := fileInput_value w;
     uploadArea_background := uploadArea_background w;
     finalTime := finalTime w;
     finalClicks := finalClicks w;
     finalScore := finalScore w;
     markers := markers w ++ [new_marker (next_id w) e true];
     intervals := without (timerInterval w) (intervals w);
     cleared := cleared w ++ [timerInterval w];
     timeouts := timeouts w ++
       [Pending (click_time e + 1000) (Show_results timeElapsed score)];
     in_flight := in_flight w;
     next_id := S (next_id w);
     next_handle := next_handle w |}.

(** The [else] branch. *)
Definition missed (e : click_event) (w : world) : world :=
  {| gameActive := gameActive w;
     clicks := clicks w;
     startTime := startTime w;
     timerInterval := timerInterval w;
     compositeImagePath := compositeImagePath w;
     gameImage_src := gameImage_src w;
     uploadStep_active := uploadStep_active w;
     readyStep_active := readyStep_active w;
     gameStep_active := gameStep_active w;
     resultsStep_active := resultsStep_active w;
     message_text := Msg_not_quite;
     message_class := "message try-again";
     clicksDisplay := clicksDisplay w;
     timerDisplay := timerDisplay w;
     uploadStatus := uploadStatus w;
     fileInput_value := fileInput_value w;
     uploadArea_background := uploadArea_background w;
     finalTime := finalTime w;
     finalClicks := finalClicks w;
     finalScore := finalScore w;
     markers := markers w ++ [new_marker (next_id w) e false];
     intervals := intervals w;
     cleared := cleared w;
     timeouts := timeouts w ++
       [Pending (click_time e + 1000) (Remove_marker (next_id w))];
     in_flight := in_flight w;
     next_id := S (next_id w);
     next_handle := next_handle w |}.

(** [gameImage] click handler *)
Definition on_click (e : click_event) (w : world) : world :=
  if negb (gameActive w) then w else
  let w := count_click w in
  if Rle_dec (click_distance batmanLocation e) (radius batmanLocation)
  then found e w
  else missed e w.

Definition showResults (clicks_ timeElapsed score : Z) (w : world) : world :=
  showStep Step_results
    {| gameActive := gameActive w;
       clicks := clicks w;
       startTime := startTime w;
       timerInterval := timerInterval w;
       compositeImagePath := compositeImagePath w;
       gameImage_src := gameImage_src w;
       uploadStep_active := uploadStep_active w;
       readyStep_active := readyStep_active w;
       gameStep_active := gameStep_active w;
       resultsStep_active := resultsStep_active w;
       message_text := message_text w;
       message_class := message_class w;
       clicksDisplay := clicksDisplay w;
       timerDisplay := timerDisplay w;
       uploadStatus := uploadStatus w;
       fileInput_value := fileInput_value w;
       uploadArea_background := uploadArea_background w;
       finalTime := timeString timeElapsed;
       finalClicks := clicks_;
       finalScore := score;
       markers := markers w;
       intervals := intervals w;
       cleared := cleared w;
       timeouts := timeouts w;
       in_flight := in_flight w;
       next_id := next_id w;
       next_handle := next_handle w |}.

Definition resetGame (w : world) : world :=
  showStep Step_upload
    {| gameActive := false;
       clicks := 0;
       startTime := None;
       timerInterval := None;
       compositeImagePath := None;
       gameImage_src := gameImage_src w;
       uploadStep_active := uploadStep_active w;
       readyStep_active := readyStep_active w;
       gameStep_active := gameStep_active w;
       resultsStep_active := resultsStep_active w;
       message_text := Msg_empty;
       message_class := message_class w;
       clicksDisplay := clicksDisplay w;
       timerDisplay := timerDisplay w;
       uploadStatus := Status_empty;
       fileInput_value := "";
       uploadArea_background := uploadArea_background w;
       finalTime := finalTime w;
       finalClicks := finalClicks w;
       finalScore := finalScore w;
       markers := [];
       intervals := without (timerInterval w) (intervals w);
       cleared :=
         match timerInterval w with
         | Some h => cleared w ++ [Some h]
         | None => cleared w
         end;
       timeouts := timeouts w;
       in_flight := in_flight w;
       next_id := next_id w;
       next_handle := next_handle w |}.

Definition set_markers (ms : list marker) (w : world) : world :=
  {| gameActive := gameActive w;
     clicks := clicks w;
     startTime := startTime w;
     timerInterval := timerInterval w;
     compositeImagePath := compositeImagePath w;
     gameImage_src := gameImage_src w;
     uploadStep_active := uploadStep_active w;
     readyStep_active := readyStep_active w;
     gameStep_active := gameStep_active w;
     resultsStep_active := resultsStep_active w;
     message_text := message_text w;
     message_class := message_class w;
     clicksDisplay := clicksDisplay w;
     timerDisplay := timerDisplay w;
     uploadStatus := uploadStatus w;
     fileInput_value := fileInput_value w;
     uploadArea_background := uploadArea_background w;
     finalTime := finalTime w;
     finalClicks := finalClicks w;
     finalScore := finalScore w;
     markers := ms;
     intervals := intervals w;
     cleared := cleared w;
     timeouts := timeouts w;
     in_flight := in_flight w;
     next_id := next_id w;
     next_handle := next_handle w |}.

Definition set_timeouts (ts : list timeout) (w : world) : world :=
  {| gameActive := gameActive w;
     clicks := clicks w;
     startTime := startTime w;
     timerInterval := timerInterval w;
     compositeImagePath := compositeImagePath w;
     gameImage_src := gameImage_src w;
     uploadStep_active := uploadStep_active w;
     readyStep_active := readyStep_active w;
     gameStep_active := gameStep_active w;
     resultsStep_active := resultsStep_active w;
     message_text := message_text w;
     message_class := message_class w;
     clicksDisplay := clicksDisplay w;
     timerDisplay := timerDisplay w;
     uploadStatus := uploadStatus w;
     fileInput_value := fileInput_value w;
     uploadArea_background := uploadArea_background w;
     finalTime := finalTime w;
     finalClicks := finalClicks w;
     finalScore := finalScore w;
     markers := markers w;
     intervals := intervals w;
     cleared := cleared w;
     timeouts := ts;
     in_flight := in_flight w;
     next_id := next_id w;
     next_handle := next_handle w |}.

(** The callback of one timeout. *)
Definition run_timeout (w : world) (t : timeout) : world :=
  match job t with
  | Remove_marker id => set_markers (remove_node id (markers w)) w
  | Show_results timeElapsed score => showResults (clicks w) timeElapsed score w
  | Show_ready => showStep Step_ready w
  end.

Definition is_due (now : Z) (t : timeout) : bool := due t <=? now.

Definition fire_timeouts (now : Z) (w : world) : world :=
  fold_left run_timeout (filter (is_due now) (timeouts w))
    (set_timeouts (filter (fun t => negb (is_due now t)) (timeouts w)) w).

Inductive event : Type :=
| Ev_change (f : option file)
| Ev_dragover
| Ev_dragleave
| Ev_drop (f : option file)
| Ev_uploaded (out : upload_outcome) (now : Z)
| Ev_startGame (now : Z)
| Ev_tick (h : positive) (now : Z)
| Ev_click (e : click_event)
| Ev_resetGame
| Ev_timers (now : Z).

Definition handle (w : world) (ev : event) : world :=
  match ev with
  | Ev_change f => on_change f w
  | Ev_dragover => on_dragover w
  | Ev_dragleave => on_dragleave w
  | Ev_drop f => on_drop f w
  | Ev_uploaded out now => uploadAndProcess_resume out now w
  | Ev_startGame now => startGame now w
  | Ev_tick h now => on_tick h now w
  | Ev_click e => on_click e w
  | Ev_resetGame => resetGame w
  | Ev_timers now => fire_timeouts now w
  end.

Definition run (w : world) (evs : list event) : world :=
  fold_left handle evs w.

Definition hit_outcome (w w' : world) : Prop :=
  gameActive w' = false /\
  exists m, markers w' = markers w ++ [m] /\ mk_success m = true.

Definition miss_outcome (w w' : world) : Prop :=
  gameActive w' = true /\
  exists m, markers w' = markers w ++ [m] /\ mk_success m = false.

(** The page as loaded. *)
Definition loaded (w : world) : Prop :=
  gameActive w = false /\ clicks w = 0 /\ startTime w = None /\
  timerInterval w = None /\ compositeImagePath w = None /\
  markers w = [] /\ intervals w = [] /\ cleared w = [] /\
  timeouts w = [] /\ in_flight w = O /\ next_id w = O.

Inductive reachable : world -> Prop :=
| reach_loaded : forall w, loaded w -> reachable w
| reach_handle : forall w ev, reachable w -> reachable (handle w ev).

(** The node a timeout will remove, if any. *)
Definition removes (t : timeout) : option nat :=
  match job t with
  | Remove_marker id => Some id
  | _ => None
  end.

Definition wf (w : world) : Prop :=
  Forall (fun m => (mk_id m < next_id w)%nat) (markers w) /\
  Forall (fun t => match removes t with
                   | Some id => (id < next_id w)%nat
                   | None => True
                   end) (timeouts w).

(** Every interval that is still live is the one [timerInterval]
    holds: [startGame] was not called over a running timer. *)
Definition timer_ok (w : world) : Prop :=
  forall h, In h (intervals w) -> timerInterval w = Some h.

(** Events after which a round that is over stays as it is: clicks,
    ticks of any interval, and the pending timeouts running. *)
Definition passive (ev : event) : bool :=
  match ev with
  | Ev_click _ | Ev_tick _ _ | Ev_timers _ => true
  | _ => false
  end.

Definition click_or_tick (ev : event) : bool :=
  match ev with
  | Ev_click _ | Ev_tick _ _ => true
  | _ => false
  end.

(** Events that neither start nor reset a game: the two handlers that
    write [clicks] outside the click handler are left out. *)
Definition same_game (ev : event) : bool :=
  match ev with
  | Ev_startGame _ | Ev_resetGame => false
  | _ => true
  end.

(** The nodes a list of timeouts removes when it runs. *)
Definition removed_nodes (ts : list timeout) : list nat :=
  flat_map (fun t => match removes t with Some id => [id] | None => [] end) ts.

(** What the callbacks of the timeouts never touch. *)
Definition same_round (w w' : world) : Prop :=
  gameActive w' = gameActive w /\ clicks w' = clicks w /\
  startTime w' = startTime w /\ timerInterval w' = timerInterval w /\
  intervals w' = intervals w /\ cleared w' = cleared w /\
  timerDisplay w' = timerDisplay w /\ next_id w' = next_id w /\
  timeouts w' = timeouts w.

(** While the game is active the timer started by [startGame] is live. *)
Definition running (w : world) : Prop :=
  gameActive w = true ->
  exists h, timerInterval w = Some h /\ In h (intervals w).

Definition inv (w : world) : Prop :=
  wf w /\ running w /\ 0 <= clicks w.

Definition kept (m : marker) (w : world) : Prop :=
  In m (markers w) /\ (mk_id m < next_id w)%nat /\
  Forall (fun t => removes t <> Some (mk_id m)) (timeouts w).

(** The round that ended in [w0] is still over in [w], with the same
    count, no live timer, no further [clearInterval] and the same time
    on display. *)
Definition stopped (w0 w : world) : Prop :=
  gameActive w = false /\ clicks w = clicks w0 /\ intervals w = [] /\
  cleared w = cleared w0 /\ timerDisplay w = timerDisplay w0.

Definition no_reset (evs : list event) : bool :=
  forallb (fun ev => match ev with Ev_resetGame => false | _ => true end) evs.

(** A hit ends the round, from [w] to [w']. *)
Definition round_over (e : click_event) (w w' : world) : Prop :=
  let timeElapsed := elapsed_seconds (click_time e) (startTime w) in
  let success := new_marker (next_id w) e true in
  (* the running timer is stopped, by one call of clearInterval *)
  (exists h, timerInterval w = Some h /\ live h w = true /\ live h w' = false /\
             cleared w' = cleared w ++ [Some h]) /\
  intervals w' = [] /\
  gameActive w' = false /\
  (* the score is computed and its display scheduled *)
  timeouts w' = timeouts w ++
    [Pending (click_time e + 1000)
       (Show_results timeElapsed
          (Z.max 0 (1000 - (clicks w + 1) * 50 - timeElapsed * 10)))] /\
  (* the success marker is appended, and stays until resetGame *)
  markers w' = markers w ++ [success] /\
  (forall evs, no_reset evs = true -> In success (markers (run w' evs))) /\
  (* clicks and ticks change nothing any more *)
  (forall evs, forallb click_or_tick evs = true -> run w' evs = w') /\
  (* also when the pending timeouts run in between *)
  (forall evs, forallb passive evs = true ->
     stopped w' (run w' evs) /\
     (forall e', on_click e' (run w' evs) = run w' evs) /\
     (forall h now, on_tick h now (run w' evs) = run w' evs)).

(** What the user is told changed between [w] and [w']: the texts of
    [message] and [uploadStatus]. *)
Definition notified (w w' : world) : Prop :=
  message_text w' <> message_text w \/ uploadStatus w' <> uploadStatus w.

End Timed.

(** ** The server-assisted script: target delivered by [/api/process] *)

Module Assisted.

(** [batmanLocation] before the first response. *)
Definition initial_location : location :=
  {| x := 0.5; y := 0.5; radius := 50 |}%R.

Inductive message : Type :=
| Msg_empty
| Msg_processing
| Msg_detected (objects_detected : Z) (bestObj : string)
    (percentages : option (R * R))
| Msg_error (text : string)
| Msg_error_thrown_by_engine
| Msg_found (attempts : Z) (plural : bool)
| Msg_not_quite
| Msg_revealed.

Record timeout : Type := Pending {
  due : Z;
  node : nat
}.

(** [loadingOverlay] and the paragraph inside it. *)
Record overlay : Type := Overlay {
  overlay_display : display;
  overlay_text : string
}.

(** The script's variables ([batmanLocation] is mutable here), the
    properties of the page it writes, and the browser's pending
    timeouts. *)
Record world : Type := World {
  gameActive : bool;
  attempts : Z;
  processing : bool;
  batmanLocation : location;
  gameImage_src : string;
  uploadStep_active : bool;
  gameStep_active : bool;
  attemptsDisplay : Z;
  message_text : message;
  message_class : string;
  playAgainBtn_display : display;
  giveUpBtn_display : display;
  fileInput_value : string;
  uploadArea_background : string;
  loadingOverlay : option overlay;
  buttons_disabled : bool;
  markers : list marker;
  timeouts : list timeout;
  next_id : nat
}.

(** [data.batman] of a response. [batman_radius] is [None] when the
    property is absent. *)
Record batman : Type := Batman {
  x_norm : R;
  y_norm : R;
  batman_radius : option R
}.

(** The JSON body of a response of [/api/process], as far as the
    script reads it.  [visible_ratio] and [low_saliency_score] are
    [data.reason?.sprite?.visible_ratio] and
    [data.reason?.sprite?.low_saliency_score], [None] when undefined. *)
Record response : Type := Response {
  data_error : option string;
  data_batman : option batman;
  output_image_url : string;
  visible_ratio : option R;
  low_saliency_score : option R;
  best_object : option string;
  objects_detected : Z
}.

(** How the request ends: [fetch] or [res.json()] throws, or a body
    arrives with [res.ok]. *)
Inductive process_outcome : Type :=
| Process_threw (text : string)
| Process_result (ok : bool) (data : response).

(** [s || fallback] on an optional string: absent and empty are falsy. *)
Definition or_string (s : option string) (fallback : string) : string :=
  match s with
  | Some s => if String.eqb s "" then fallback else s
  | None => fallback
  end.

(** [data.batman.radius || 42]: absent and 0 are falsy. *)
Definition radius_or_42 (r : option R) : R :=
  match r with
  | Some r => if Req_dec_T r 0%R then 42%R else r
  | None => 42%R
  end.

Inductive step_name : Type := Step_upload | Step_game.

Definition showStep (st : step_name) (w : world) : world :=
  {| gameActive := gameActive w;
     attempts := attempts w;
     processing := processing w;
     batmanLocation := batmanLocation w;
     gameImage_src := gameImage_src w;
     uploadStep_active := match st with Step_upload => true | _ => false end;
     gameStep_active := match st with Step_game => true | _ => false end;
     attemptsDisplay := attemptsDisplay w;
     message_text := message_text w;
     message_class := message_class w;
     playAgainBtn_display := playAgainBtn_display w;
     giveUpBtn_display := giveUpBtn_display w;
     fileInput_value := fileInput_value w;
     uploadArea_background := uploadArea_background w;
     loadingOverlay := loadingOverlay w;
     buttons_disabled := buttons_disabled w;
     markers := markers w;
     timeouts := timeouts w;
     next_id := next_id w |}.

Definition set_background (bg : string) (w : world) : world :=
  {| gameActive := gameActive w;
     attempts := attempts w;
     processing := processing w;
     batmanLocation := batmanLocation w;
     gameImage_src := gameImage_src w;
     uploadStep_active := uploadStep_active w;
     gameStep_active := gameStep_active w;
     attemptsDisplay := attemptsDisplay w;
     message_text := message_text w;
     message_class := message_class w;
     playAgainBtn_display := playAgainBtn_display w;
     giveUpBtn_display := giveUpBtn_display w;
     fileInput_value := fileInput_value w;
     uploadArea_background := bg;
     loadingOverlay := loadingOverlay w;
     buttons_disabled := buttons_disabled w;
     markers := markers w;
     timeouts := timeouts w;
     next_id := next_id w |}.

Definition set_message (m : message) (cls : string) (w : world) : world :=
  {| gameActive := gameActive w;
     attempts := attempts w;
     processing := processing w;
     batmanLocation := batmanLocation w;
     gameImage_src := gameImage_src w;
     uploadStep_active := uploadStep_active w;
     gameStep_active := gameStep_active w;
     attemptsDisplay := attemptsDisplay w;
     message_text := m;
     message_class := cls;
     playAgainBtn_display := playAgainBtn_display w;
     giveUpBtn_display := giveUpBtn_display w;
     fileInput_value := fileInput_value w;
     uploadArea_background := uploadArea_background w;
     loadingOverlay := loadingOverlay w;
     buttons_disabled := buttons_disabled w;
     markers := markers w;
     timeouts := timeouts w;
     next_id := next_id w |}.

Definition set_processing (b : bool) (w : world) : world :=
  {| gameActive := gameActive w;
     attempts := attempts w;
     processing := b;
     batmanLocation := batmanLocation w;
     gameImage_src := gameImage_src w;
     uploadStep_active := uploadStep_active w;
     gameStep_active := gameStep_active w;
     attemptsDisplay := attemptsDisplay w;
     message_text := message_text w;
     message_class := message_class w;
     playAgainBtn_display := playAgainBtn_display w;
     giveUpBtn_display := giveUpBtn_display w;
     fileInput_value := fileInput_value w;
     uploadArea_background := uploadArea_background w;
     loadingOverlay := loadingOverlay w;
     buttons_disabled := buttons_disabled w;
     markers := markers w;
     timeouts := timeouts w;
     next_id := next_id w |}.

Definition set_location (loc : location) (w : world) : world :=
  {| gameActive := gameActive w;
     attempts := attempts w;
     processing := processing w;
     batmanLocation := loc;
     gameImage_src := gameImage_src w;
     uploadStep_active := uploadStep_active w;
     gameStep_active := gameStep_active w;
     attemptsDisplay := attemptsDisplay w;
     message_text := message_text w;
     message_class := message_class w;
     playAgainBtn_display := playAgainBtn_display w;
     giveUpBtn_display := giveUpBtn_display w;
     fileInput_value := fileInput_value w;
     uploadArea_background := uploadArea_background w;
     loadingOverlay := loadingOverlay w;
     buttons_disabled := buttons_disabled w;
     markers := markers w;
     timeouts := timeouts w;
     next_id := next_id w |}.

(** [showLoading(state, text)]: nothing happens, the buttons
    included, when the page has no overlay. *)
Definition showLoading (state : bool) (text : string) (w : world) : world :=
  match loadingOverlay w with
  | None => w
  | Some ov =>
    {| gameActive := gameActive w;
       attempts := attempts w;
       processing := processing w;
       batmanLocation := batmanLocation w;
       gameImage_src := gameImage_src w;
       uploadStep_active := uploadStep_active w;
       gameStep_active := gameStep_active w;
       attemptsDisplay := attemptsDisplay w;
       message_text := message_text w;
       message_class := message_class w;
       playAgainBtn_display := playAgainBtn_display w;
       giveUpBtn_display := giveUpBtn_display w;
       fileInput_value := fileInput_value w;
       uploadArea_background := uploadArea_background w;
       loadingOverlay :=
         Some {| overlay_display := if state then Display_flex else Display_none;
                 overlay_text := if state then text else overlay_text ov |};
       buttons_disabled := state;
       markers := markers w;
       timeouts := timeouts w;
       next_id := next_id w |}
  end.

Definition startGame (imagePath : string) (w : world) : world :=
  let w := showStep Step_game w in
  {| gameActive := true;
     attempts := 0;
     processing := processing w;
     batmanLocation := batmanLocation w;
     gameImage_src := imagePath;
     uploadStep_active := uploadStep_active w;
     gameStep_active := gameStep_active w;
     attemptsDisplay := 0;
     message_text := Msg_empty;
     message_class := "message";
     playAgainBtn_display := playAgainBtn_display w;
     giveUpBtn_display := Display_inline_block;
     fileInput_value := fileInput_value w;
     uploadArea_background := uploadArea_background w;
     loadingOverlay := loadingOverlay w;
     buttons_disabled := buttons_disabled w;
     markers := markers w;
     timeouts := timeouts w;
     next_id := next_id w |}.

(** [processUploadedImage] up to its [await fetch]. *)
Definition processUploadedImage (w : world) : world :=
  if processing w then w else
  let w := set_processing true w in
  let w := set_message Msg_processing "message" w in
  showLoading true "Processing image with YOLO + depth…" w.

(** The [finally] block. *)
Definition finally (w : world) : world :=
  set_processing false (showLoading false "Processing…" w).

(** The [catch] block. *)
Definition catch (m : message) (w : world) : world :=
  set_message m "message try-again" w.

(** The location the three assignments after the [res.ok] test leave
    in [batmanLocation]. *)
Definition delivered_location (b : batman) : location :=
  {| x := x_norm b; y := y_norm b; radius := radius_or_42 (batman_radius b) |}.

(** The message after [startGame]. *)
Definition detected_message (data : response) : message :=
  let bestObj := or_string (best_object data) "none" in
  match visible_ratio data, low_saliency_score data with
  | Some vis, Some sal =>
      Msg_detected (objects_detected data) bestObj
        (Some (Double.mul vis 100, Double.mul sal 100))
  | _, _ => Msg_detected (objects_detected data) bestObj None
  end.

(** The rest of [processUploadedImage], run when the request ends at
    time [now].  No request is under way unless [processing] holds. *)
Definition processUploadedImage_resume (out : process_outcome) (now : Z)
    (w : world) : world :=
  if negb (processing w) then w else
  match out with
  | Process_threw text => finally (catch (Msg_error text) w)
  | Process_result false data =>
      finally (catch (Msg_error (or_string (data_error data)
                                   "Failed to process image")) w)
  | Process_result true data =>
      match data_batman data with
      | None => finally (catch Msg_error_thrown_by_engine w)
      | Some b =>
          let w := set_location (delivered_location b) w in
          let w := startGame (output_image_url data ++ "?t=" ++ string_of_Z now)%string w in
          let w := set_message (detected_message data) "message" w in
          finally w
      end
  end.

Definition on_change (f : option file) (w : world) : world :=
  if is_image f then processUploadedImage w else w.

Definition on_dragover (w : world) : world := set_background "#333" w.
Definition on_dragleave (w : world) : world := set_background "" w.

Definition on_drop (f : option file) (w : world) : world :=
  let w := set_background "" w in
  if is_image f then processUploadedImage w else w.

(** [attempts++; attemptsDisplay.textContent = attempts;] *)
Definition count_attempt (w : world) : world :=
  {| gameActive := gameActive w;
     attempts := attempts w + 1;
     processing := processing w;
     batmanLocation := batmanLocation w;
     gameImage_src := gameImage_src w;
     uploadStep_active := uploadStep_active w;
     gameStep_active := gameStep_active w;
     attemptsDisplay := attempts w + 1;
     message_text := message_text w;
     message_class := message_class w;
     playAgainBtn_display := playAgainBtn_display w;
     giveUpBtn_display := giveUpBtn_display w;
     fileInput_value := fileInput_value w;
     uploadArea_background := uploadArea_background w;
     loadingOverlay := loadingOverlay w;
     buttons_disabled := buttons_disabled w;
     markers := markers w;
     timeouts := timeouts w;
     next_id := next_id w |}.

(** The branch [distance <= batmanLocation.radius] of the handler. *)
Definition found (e : click_event) (w : world) : world :=
  {| gameActive := false;
     attempts := attempts w;
     processing := processing w;
     batmanLocation := batmanLocation w;
     gameImage_src := gameImage_src w;
     uploadStep_active := uploadStep_active w;
     gameStep_active := gameStep_active w;
     attemptsDisplay := attemptsDisplay w;
     message_text := Msg_found (attempts w) (negb (Z.eqb (attempts w) 1));
     message_class := "message success";
     playAgainBtn_display := Display_inline_block;
     giveUpBtn_display := Display_none;
     fileInput_value := fileInput_value w;
     uploadArea_background := uploadArea_background w;
     loadingOverlay := loadingOverlay w;
     buttons_disabled := buttons_disabled w;
     markers := markers w ++ [new_marker (next_id w) e true];
     timeouts := timeouts w;
     next_id := S (next_id w) |}.

(** The [else] branch. *)
Definition missed (e : click_event) (w : world) : world :=
  {| gameActive := gameActive w;
     attempts := attempts w;
     processing := processing w;
     batmanLocation := batmanLocation w;
     gameImage_src := gameImage_src w;
     uploadStep_active := uploadStep_active w;
     gameStep_active := gameStep_active w;
     attemptsDisplay := attemptsDisplay w;
     message_text := Msg_not_quite;
     message_class := "message try-again";
     playAgainBtn_display := playAgainBtn_display w;
     giveUpBtn_display := giveUpBtn_display w;
     fileInput_value := fileInput_value w;
     uploadArea_background := uploadArea_background w;
     loadingOverlay := loadingOverlay w;
     buttons_disabled := buttons_disabled w;
     markers := markers w ++ [new_marker (next_id w) e false];
     timeouts := timeouts w ++ [Pending (click_time e + 1000) (next_id w)];
     next_id := S (next_id w) |}.

(** [gameImage] click handler *)
Definition on_click (e : click_event) (w : world) : world :=
  if negb (gameActive w) then w else
  let w := count_attempt w in
  if Rle_dec (click_distance (batmanLocation w) e) (radius (batmanLocation w))
  then found e w
  else missed e w.

(** [revealBatmanMarker()], given the rendered size of the image. *)
Definition revealBatmanMarker (width height : R) (w : world) : world :=
  {| gameActive := gameActive w;
     attempts := attempts w;
     processing := processing w;
     batmanLocation := batmanLocation w;
     gameImage_src := gameImage_src w;
     uploadStep_active := uploadStep_active w;
     gameStep_active := gameStep_active w;
     attemptsDisplay := attemptsDisplay w;
     message_text := message_text w;
     message_class := message_class w;
     playAgainBtn_display := playAgainBtn_display w;
     giveUpBtn_display := giveUpBtn_display w;
     fileInput_value := fileInput_value w;
     uploadArea_background := uploadArea_background w;
     loadingOverlay := loadingOverlay w;
     buttons_disabled := buttons_disabled w;
     markers := markers w ++
       [{| mk_id := next_id w;
           mk_left := Double.mul (x (batmanLocation w)) width;
           mk_top := Double.mul (y (batmanLocation w)) height;
           mk_success := true |}];
     timeouts := timeouts w;
     next_id := S (next_id w) |}.

Definition giveUp (width height : R) (w : world) : world :=
  if negb (gameActive w) then w else
  let w := revealBatmanMarker width height w in
  {| gameActive := false;
     attempts := attempts w;
     processing := processing w;
     batmanLocation := batmanLocation w;
     gameImage_src := gameImage_src w;
     uploadStep_active := uploadStep_active w;
     gameStep_active := gameStep_active w;
     attemptsDisplay := attemptsDisplay w;
     message_text := Msg_revealed;
     message_class := "message try-again";
     playAgainBtn_display := Display_inline_block;
     giveUpBtn_display := Display_none;
     fileInput_value := fileInput_value w;
     uploadArea_background := uploadArea_background w;
     loadingOverlay := loadingOverlay w;
     buttons_disabled := buttons_disabled w;
     markers := markers w;
     timeouts := timeouts w;
     next_id := next_id w |}.

Definition playAgain (w : world) : world :=
  {| gameActive := true;
     attempts := 0;
     processing := processing w;
     batmanLocation := batmanLocation w;
     gameImage_src := gameImage_src w;
     uploadStep_active := uploadStep_active w;
     gameStep_active := gameStep_active w;
     attemptsDisplay := 0;
     message_text := Msg_empty;
     message_class := "message";
     playAgainBtn_display := Display_none;
     giveUpBtn_display := Display_inline_block;
     fileInput_value := fileInput_value w;
     uploadArea_background := uploadArea_background w;
     loadingOverlay := loadingOverlay w;
     buttons_disabled := buttons_disabled w;
     markers := [];
     timeouts := timeouts w;
     next_id := next_id w |}.

Definition resetGame (w : world) : world :=
  showStep Step_upload
    {| gameActive := false;
       attempts := 0;
       processing := processing w;
       batmanLocation := batmanLocation w;
       gameImage_src := gameImage_src w;
       uploadStep_active := uploadStep_active w;
       gameStep_active := gameStep_active w;
       attemptsDisplay := attemptsDisplay w;
       message_text := Msg_empty;
       message_class := "message";
       playAgainBtn_display := Display_none;
       giveUpBtn_display := Display_none;
       fileInput_value := "";
       uploadArea_background := uploadArea_background w;
       loadingOverlay := loadingOverlay w;
       buttons_disabled := buttons_disabled w;
       markers := [];
       timeouts := timeouts w;
       next_id := next_id w |}.

Definition run_timeout (w : world) (t : timeout) : world :=
  {| gameActive := gameActive w;
     attempts := attempts w;
     processing := processing w;
     batmanLocation := batmanLocation w;
     gameImage_src := gameImage_src w;
     uploadStep_active := uploadStep_active w;
     gameStep_active := gameStep_active w;
     attemptsDisplay := attemptsDisplay w;
     message_text := message_text w;
     message_class := message_class w;
     playAgainBtn_display := playAgainBtn_display w;
     giveUpBtn_display := giveUpBtn_display w;
     fileInput_value := fileInput_value w;
     uploadArea_background := uploadArea_background w;
     loadingOverlay := loadingOverlay w;
     buttons_disabled := buttons_disabled w;
     markers := remove_node (node t) (markers w);
     timeouts := timeouts w;
     next_id := next_id w |}.

Definition is_due (now : Z) (t : timeout) : bool := due t <=? now.

Definition fire_timeouts (now : Z) (w : world) : world :=
  fold_left run_timeout (filter (is_due now) (timeouts w))
    {| gameActive := gameActive w;
       attempts := attempts w;
       processing := processing w;
       batmanLocation := batmanLocation w;
       gameImage_src := gameImage_src w;
       uploadStep_active := uploadStep_active w;
       gameStep_active := gameStep_active w;
       attemptsDisplay := attemptsDisplay w;
       message_text := message_text w;
       message_class := message_class w;
       playAgainBtn_display := playAgainBtn_display w;
       giveUpBtn_display := giveUpBtn_display w;
       fileInput_value := fileInput_value w;
       uploadArea_background := uploadArea_background w;
       loadingOverlay := loadingOverlay w;
       buttons_disabled := buttons_disabled w;
       markers := markers w;
       timeouts := filter (fun t => negb (is_due now t)) (timeouts w);
       next_id := next_id w |}.

Inductive event : Type :=
| Ev_change (f : option file)
| Ev_dragover
| Ev_dragleave
| Ev_drop (f : option file)
| Ev_processed (out : process_outcome) (now : Z)
| Ev_click (e : click_event)
| Ev_giveUp (width height : R)
| Ev_playAgain
| Ev_resetGame
| Ev_timers (now : Z).

Definition handle (w : world) (ev : event) : world :=
  match ev with
  | Ev_change f => on_change f w
  | Ev_dragover => on_dragover w
  | Ev_dragleave => on_dragleave w
  | Ev_drop f => on_drop f w
  | Ev_processed out now => processUploadedImage_resume out now w
  | Ev_click e => on_click e w
  | Ev_giveUp width height => giveUp width height w
  | Ev_playAgain => playAgain w
  | Ev_resetGame => resetGame w
  | Ev_timers now => fire_timeouts now w
  end.

Definition run (w : world) (evs : list event) : world :=
  fold_left handle evs w.

Definition loaded (w : world) : Prop :=
  gameActive w = false /\ attempts w = 0 /\ processing w = false /\
  batmanLocation w = initial_location /\
  markers w = [] /\ timeouts w = [] /\ next_id w = O.

Inductive reachable : world -> Prop :=
| reach_loaded : forall w, loaded w -> reachable w
| reach_handle : forall w ev, reachable w -> reachable (handle w ev).

Definition clears (ev : event) : bool :=
  match ev with
  | Ev_playAgain | Ev_resetGame => true
  | _ => false
  end.

(** What a click that is handled as a hit, or as a miss, leaves behind:
    the round is over and a success marker was appended, or the round
    goes on and a plain marker was appended. *)
Definition hit_outcome (w w' : world) : Prop :=
  gameActive w' = false /\
  exists m, markers w' = markers w ++ [m] /\ mk_success m = true.

Definition miss_outcome (w w' : world) : Prop :=
  gameActive w' = true /\
  exists m, markers w' = markers w ++ [m] /\ mk_success m = false.

(** Node identities are fresh: every marker and every node a pending
    timeout refers to was created before [next_id]. *)
Definition wf (w : world) : Prop :=
  Forall (fun m => (mk_id m < next_id w)%nat) (markers w) /\
  Forall (fun t => (node t < next_id w)%nat) (timeouts w).

(** An event sequence without [playAgain] and [resetGame]. *)
Definition no_clear (evs : list event) : bool :=
  forallb (fun ev => negb (clears ev)) evs.

(** The self-transition of a miss, from [w] to [w']: one more attempt,
    a plain marker appended at the click point, the game still active;
    and the marker is transient: its removal is scheduled one second
    after the click, so that a turn of the event loop before that time
    leaves it attached, and a turn at or after that time leaves it
    detached, whatever happened in between. *)
Definition miss_transition (e : click_event) (w w' : world) : Prop :=
  attempts w' = attempts w + 1 /\
  markers w' =
    markers w ++
      [{| mk_id := next_id w;
          mk_left := Double.sub (clientX e) (rect_left e);
          mk_top := Double.sub (clientY e) (rect_top e);
          mk_success := false |}] /\
  gameActive w' = true /\
  timeouts w' = timeouts w ++ [Pending (click_time e + 1000) (next_id w)] /\
  (forall now, now < click_time e + 1000 ->
     attached (next_id w) (markers (fire_timeouts now w')) = true) /\
  (forall evs now, click_time e + 1000 <= now ->
     attached (next_id w) (markers (fire_timeouts now (run w' evs))) = false).

(** The marker of a hit stays: it is appended, no timeout refers to
    it, and it is on the page after every sequence of events that has
    no [playAgain] or [resetGame], which both remove every marker. *)
Definition hit_marker_permanent (e : click_event) (w w' : world) : Prop :=
  let success :=
    {| mk_id := next_id w;
       mk_left := Double.sub (clientX e) (rect_left e);
       mk_top := Double.sub (clientY e) (rect_top e);
       mk_success := true |} in
  markers w' = markers w ++ [success] /\
  timeouts w' = timeouts w /\
  (forall evs, no_clear evs = true -> In success (markers (run w' evs))) /\
  (forall evs ev, clears ev = true -> markers (handle (run w' evs) ev) = []).

(** Invariants behind the two definitions above.  [scheduled id at_ w]:
    the node [id] exists and, while attached, its removal is pending at
    [at_].  [kept m w]: the marker [m] is attached and no pending
    timeout refers to it. *)
Definition scheduled (id : nat) (at_ : Z) (w : world) : Prop :=
  (id < next_id w)%nat /\
  (attached id (markers w) = true -> In (Pending at_ id) (timeouts w)).

Definition kept (m : marker) (w : world) : Prop :=
  In m (markers w) /\ (mk_id m < next_id w)%nat /\
  Forall (fun t => node t <> mk_id m) (timeouts w).

(** Handlers that leave the markers and the timer table alone. *)
Definition same_nodes (w w' : world) : Prop :=
  markers w' = markers w /\ timeouts w' = timeouts w /\ next_id w' = next_id w.

(** What the user is told changed between [w] and [w']: this page's
    only text for the user is [message]. *)
Definition notified (w w' : world) : Prop :=
  message_text w' <> message_text w.

(** A response that delivers a target. *)
Definition delivers (ev : event) : bool :=
  match ev with
  | Ev_processed (Process_result true data) _ =>
      match data_batman data with Some _ => true | None => false end
  | _ => false
  end.

Definition no_delivery (evs : list event) : bool :=
  forallb (fun ev => negb (delivers ev)) evs.


(** The radius of the hit test is the delivered one, as the
    specification words it. *)
Definition radius_is_delivered (b : batman) (w' : world) : Prop :=
  Some (radius (batmanLocation w')) = batman_radius b.

End Assisted.

(** ** The file handler of the campaign front end

    The other front end of the repository takes an image the same way
    (file input and drop area); its handler is the one that tells the
    user about a file of the wrong type. *)

Module Campaign.

Record world : Type := World {
  selectedFile : option file;
  upload_text : string;
  uploadBtn_disabled : bool;
  alerts : list string
}.

Definition handleFileSelect (f : option file) (w : world) : world :=
  match f with
  | None => w
  | Some file =>
    if negb (String.prefix "image/" (file_type file)) then
      {| selectedFile := selectedFile w;
         upload_text := upload_text w;
         uploadBtn_disabled := uploadBtn_disabled w;
         alerts := alerts w ++ ["Please select an image file"] |}
    else
      {| selectedFile := Some file;
         upload_text := ("Selected: " ++ file_name file)%string;
         uploadBtn_disabled := false;
         alerts := alerts w |}
  end.

End Campaign.

(** ** Sample pages and events used to run the handlers *)

Module Samples.

Definition png : file := {| file_name := "room.png"; file_type := "image/png" |}.
Definition pdf : file := {| file_name := "notes.pdf"; file_type := "application/pdf" |}.

(** A click on an image rendered at 800x600 whose top-left corner is
    the origin of the viewport. *)
Definition click_at (cx cy : R) (now : Z) : click_event :=
  {| clientX := cx; clientY := cy; rect_left := 0; rect_top := 0;
     image_width := 800; image_height := 600; click_time := now |}.

Definition basic_page : Basic.world :=
  {| Basic.gameActive := false;
     Basic.attempts := 0;
     Basic.gameImage_src := "";
     Basic.uploadStep_active := true;
     Basic.gameStep_active := false;
     Basic.attemptsDisplay := 0;
     Basic.message_text := Basic.Msg_empty;
     Basic.message_class := "message";
     Basic.playAgainBtn_display := Display_unset;
     Basic.fileInput_value := "";
     Basic.uploadArea_background := "";
     Basic.markers := [];
     Basic.timeouts := [];
     Basic.next_id := O |}.

Definition timed_page : Timed.world :=
  {| Timed.gameActive := false;
     Timed.clicks := 0;
     Timed.startTime := None;
     Timed.timerInterval := None;
     Timed.compositeImagePath := None;
     Timed.gameImage_src := None;
     Timed.uploadStep_active := true;
     Timed.readyStep_active := false;
     Timed.gameStep_active := false;
     Timed.resultsStep_active := false;
     Timed.message_text := Timed.Msg_empty;
     Timed.message_class := "message";
     Timed.clicksDisplay := 0;
     Timed.timerDisplay := "0:00";
     Timed.uploadStatus := Timed.Status_empty;
     Timed.fileInput_value := "";
     Timed.uploadArea_background := "";
     Timed.finalTime := "";
     Timed.finalClicks := 0;
     Timed.finalScore := 0;
     Timed.markers := [];
     Timed.intervals := [];
     Timed.cleared := [];
     Timed.timeouts := [];
     Timed.in_flight := O;
     Timed.next_id := O;
     Timed.next_handle := 1%positive |}.

Definition assisted_page : Assisted.world :=
  {| Assisted.gameActive := false;
     Assisted.attempts := 0;
     Assisted.processing := false;
     Assisted.batmanLocation := Assisted.initial_location;
     Assisted.gameImage_src := "";
     Assisted.uploadStep_active := true;
     Assisted.gameStep_active := false;
     Assisted.attemptsDisplay := 0;
     Assisted.message_text := Assisted.Msg_empty;
     Assisted.message_class := "message";
     Assisted.playAgainBtn_display := Display_unset;
     Assisted.giveUpBtn_display := Display_unset;
     Assisted.fileInput_value := "";
     Assisted.uploadArea_background := "";
     Assisted.loadingOverlay :=
       Some {| Assisted.overlay_display := Display_none;
               Assisted.overlay_text := "" |};
     Assisted.buttons_disabled := false;
     Assisted.markers := [];
     Assisted.timeouts := [];
     Assisted.next_id := O |}.

(** A response of [/api/process] placing the target left of and below
    the centre, with the given radius. *)
Definition placed (r : option R) : Assisted.response :=
  {| Assisted.data_error := None;
     Assisted.data_batman :=
       Some {| Assisted.x_norm := 0.25; Assisted.y_norm := 0.75;
               Assisted.batman_radius := r |}%R;
     Assisted.output_image_url := "/outputs/result.png";
     Assisted.visible_ratio := None;
     Assisted.low_saliency_score := None;
     Assisted.best_object := Some "chair";
     Assisted.objects_detected := 3 |}.

(** The three games started from the loaded page. *)
Definition basic_playing : Basic.world :=
  Basic.run basic_page [Basic.Ev_change (Some png)].

Definition timed_playing : Timed.world :=
  Timed.run timed_page
    [Timed.Ev_change (Some png);
     Timed.Ev_uploaded (Timed.Upload_result true "/uploaded-images/upload-1.png") 0;
     Timed.Ev_timers 1000;
     Timed.Ev_startGame 2000].

(** Two files are selected one after the other on the upload step.
    The first answer brings up the ready step and the game is started;
    the second answer arrives during that game, and one second later
    the ready step comes up again, over the running game. *)
Definition timed_ready_again : Timed.world :=
  Timed.run timed_page
    [Timed.Ev_change (Some png);
     Timed.Ev_change (Some png);
     Timed.Ev_uploaded (Timed.Upload_result true "/uploaded-images/upload-1.png") 0;
     Timed.Ev_timers 1000;
     Timed.Ev_startGame 2000;
     Timed.Ev_uploaded (Timed.Upload_result true "/uploaded-images/upload-2.png") 3000;
     Timed.Ev_timers 4000].

(** [startGame] called from that ready step. *)
Definition timed_restarted : Timed.world :=
  Timed.run timed_ready_again [Timed.Ev_startGame 5000].

Definition assisted_playing (r : option R) : Assisted.world :=
  Assisted.run assisted_page
    [Assisted.Ev_change (Some png);
     Assisted.Ev_processed (Assisted.Process_result true (placed r)) 5].

End Samples.

(** ** Runs of the scripts: counting, locking, timers, screens *)

Module Runs.

(** The clicks the handler counts in a sequence of clicks on an active
    game with target [loc]: every click up to and including the first
    one that hits. *)
Fixpoint handled (loc : location) (es : list click_event) : nat :=
  match es with
  | [] => O
  | e :: es =>
      if Rle_dec (click_distance loc e) (radius loc)
      then 1%nat
      else S (handled loc es)
  end.

(** One of the clicks hits. *)
Definition wins (loc : location) (es : list click_event) : Prop :=
  exists e, In e es /\ (click_distance loc e <= radius loc)%R.

(** The assisted page has its overlay, its buttons are disabled exactly
    while a request is under way, and the overlay is shown then. *)
Definition ui_lock (w : Assisted.world) : Prop :=
  match Assisted.loadingOverlay w with
  | Some ov =>
      Assisted.buttons_disabled w = Assisted.processing w /\
      (Assisted.processing w = true -> Assisted.overlay_display ov = Display_flex)
  | None => False
  end.

(** A run of the timed script in which [startGame] is only called while
    no game is active. *)
Fixpoint guarded (w : Timed.world) (evs : list Timed.event) : Prop :=
  match evs with
  | [] => True
  | ev :: evs =>
      match ev with
      | Timed.Ev_startGame _ => Timed.gameActive w = false
      | _ => True
      end /\ guarded (Timed.handle w ev) evs
  end.

(** No interval leaks: an active game has exactly one live interval, the
    one in [timerInterval]; an inactive one has none. *)
Definition no_leak (w : Timed.world) : Prop :=
  if Timed.gameActive w
  then exists h, Timed.timerInterval w = Some h /\ Timed.intervals w = [h]
  else Timed.intervals w = [].

(** Exactly one of the step sections carries the class [active]. *)
Definition one_step (w : Timed.world) : Prop :=
  (Nat.b2n (Timed.uploadStep_active w) + Nat.b2n (Timed.readyStep_active w) +
   Nat.b2n (Timed.gameStep_active w) + Nat.b2n (Timed.resultsStep_active w) = 1)%nat.

(** The integer a string of decimal digits denotes. *)
Definition decimal_value (s : string) : option Z :=
  option_map Z.of_int (NilZero.int_of_string s).

(** The seconds field of the time for [n] seconds has two characters
    that read back as [n]. *)
Definition seconds_field_ok (n : nat) : bool :=
  (Nat.eqb (String.length (Timed.padStart2 (string_of_Z (Z.of_nat n)))) 2 &&
   match decimal_value (Timed.padStart2 (string_of_Z (Z.of_nat n))) with
   | Some v => Z.eqb v (Z.of_nat n)
   | None => false
   end)%bool.

End Runs.

(** ** The upload server

    The handlers the Express server registers: the [fileFilter] of the
    multer configuration and the two routes.  What multer and [fs] hand
    to a handler is its argument: the stored file of the request
    ([req.file], absent when there is none), and the outcome of
    [fs.readdir]. *)

Module Server.

Inductive verdict : Type :=
| Accept
| Reject (message : string).

(** [fileFilter]: [cb(null, true)] or [cb(new Error(...))]. *)
Definition fileFilter (mimetype : string) : verdict :=
  if String.prefix "image/" mimetype
  then Accept
  else Reject "Only image files are allowed!".

(** The JSON bodies the routes send. *)
Inductive body : Type :=
| Error_body (error : string)
| Upload_body (success : bool) (filename path : string)
| Files_body (files : list (string * string)).

Record reply : Type := Reply {
  status : Z;
  content : body
}.

(** [app.post('/upload', ...)], given [req.file.filename]. *)
Definition post_upload (req_file : option string) : reply :=
  match req_file with
  | None => {| status := 400; content := Error_body "No file uploaded" |}
  | Some filename =>
      {| status := 200;
         content := Upload_body true filename ("/uploaded-images/" ++ filename) |}
  end.

(** Case folding of the [i] flag on the letters of the pattern. *)
Definition lower (c : ascii) : ascii :=
  let n := nat_of_ascii c in
  if ((65 <=? n) && (n <=? 90))%nat then ascii_of_nat (n + 32) else c.

Definition has_suffix (suffix l : list ascii) : bool :=
  ((List.length suffix <=? List.length l)%nat &&
   if list_eq_dec ascii_dec (skipn (List.length l - List.length suffix) l) suffix
   then true else false)%bool.

Definition extensions : list string := ["jpg"; "jpeg"; "png"; "gif"; "webp"].

(** [/\.(jpg|jpeg|png|gif|webp)$/i.test(file)] *)
Definition is_image_name (file : string) : bool :=
  existsb
    (fun ext =>
       has_suffix (list_ascii_of_string ("." ++ ext))
         (map lower (list_ascii_of_string file)))
    extensions.

(** [app.get('/uploads-list', ...)], given what [fs.readdir] calls back
    with: [None] for an error, the names otherwise. *)
Definition get_uploads_list (readdir : option (list string)) : reply :=
  match readdir with
  | None => {| status := 500; content := Error_body "Failed to read uploads" |}
  | Some files =>
      {| status := 200;
         content :=
           Files_body
             (map (fun file => (file, "/uploaded-images/" ++ file)%string)
                (filter is_image_name files)) |}
  end.

(** What [uploadAndProcess] of the timed script reads in a body:
    [result.success] (undefined, hence falsy, when the body has no such
    property) and [result.path]. *)
Definition read_by_client (r : reply) : Timed.upload_outcome :=
  match content r with
  | Upload_body success _ path => Timed.Upload_result success path
  | _ => Timed.Upload_result false ""
  end.

(** The same letters, ignoring case. *)
Definition same_ignoring_case (a b : string) : Prop :=
  map lower (list_ascii_of_string a) = map lower (list_ascii_of_string b).

End Server.

(** * Properties *)

(** ** Rounding *)

Section Doubles.

Local Open Scope R_scope.


Lemma powerRZ_2_IZR (j : Z) : (0 <= j)%Z -> powerRZ 2 j = IZR (2 ^ j).
Proof.
  intros Hj. destruct j as [|p|p]; [reflexivity | | lia].
  symmetry. apply Zpower_pos_powerRZ.
Qed.

Lemma powerRZ_2_split (e g : Z) :
  (g <= e)%Z -> powerRZ 2 e = IZR (2 ^ (e - g)) * powerRZ 2 g.
Proof.
  intros H. replace e with ((e - g) + g)%Z at 1 by lia.
  rewrite powerRZ_add by lra. rewrite powerRZ_2_IZR by lia. reflexivity.
Qed.

Lemma powerRZ_2_pos (e : Z) : 0 < powerRZ 2 e.
Proof. apply powerRZ_lt. lra. Qed.

Lemma powerRZ_2_le (e g : Z) : (e <= g)%Z -> powerRZ 2 e <= powerRZ 2 g.
Proof.
  intros H. rewrite (powerRZ_2_split g e H).
  assert (H1 : 1 <= IZR (2 ^ (g - e))).
  { apply IZR_le. pose proof (Z.pow_pos_nonneg 2 (g - e)). lia. }
  pose proof (powerRZ_2_pos e) as H2. nra.
Qed.

(** The set of doubles is symmetric. *)
Lemma finite_opp (v : R) : Double.finite v -> Double.finite (- v).
Proof.
  intros (m & e & Hm & He & ->). exists (- m)%Z, e.
  split; [lia|]. split; [exact He|]. rewrite opp_IZR. ring.
Qed.

Lemma even_opp (v : R) : Double.even v -> Double.even (- v).
Proof.
  intros (m & e & Hm & He & -> & Hev & Hn). exists (- m)%Z, e.
  split; [lia|]. split; [exact He|]. split; [rewrite opp_IZR; ring|].
  split; [now rewrite Z.even_opp | lia].
Qed.

(** Every double has a normal form: the significand has 53 bits, or the
    exponent is the smallest one. *)
Lemma finite_normal (v : R) :
  Double.finite v ->
  exists m e : Z,
    (Z.abs m < 2 ^ 53)%Z /\ (-1074 <= e <= 971)%Z /\ v = IZR m * powerRZ 2 e /\
    (2 ^ 52 <= Z.abs m \/ e = -1074)%Z.
Proof.
  intros (m & e & Hm & He & ->).
  remember (Z.to_nat (e + 1074)) as n eqn:En.
  revert m e Hm He En. induction n as [|n IH]; intros m e Hm He En.
  - exists m, e. repeat split; lia.
  - destruct (Z_le_gt_dec (2 ^ 52) (Z.abs m)) as [Hbig | Hsmall].
    + exists m, e. repeat split; lia.
    + destruct (IH (2 * m)%Z (e - 1)%Z) as (m' & e' & H1 & H2 & H3 & H4);
        [lia | lia | lia |].
      exists m', e'. repeat split; try lia.
      rewrite <- H3. rewrite (powerRZ_2_split e (e - 1)) by lia.
      replace (e - (e - 1))%Z with 1%Z by lia.
      rewrite mult_IZR. change (IZR (2 ^ 1)) with 2. ring.
Qed.

(** No double is larger than [(2^53 - 1) * 2^971]. *)
Lemma finite_le_max (v : R) :
  Double.finite v -> v <= IZR (2 ^ 53 - 1) * powerRZ 2 971.
Proof.
  intros (m & e & Hm & He & ->).
  pose proof (powerRZ_2_pos e) as Hp.
  pose proof (powerRZ_2_le e 971 ltac:(lia)) as Hle.
  assert (Hm' : IZR m <= IZR (2 ^ 53 - 1)) by (apply IZR_le; lia).
  assert (H0 : 0 <= IZR (2 ^ 53 - 1)) by (apply IZR_le; lia).
  destruct (Rle_or_lt 0 (IZR m)) as [Hpos | Hneg]; nra.
Qed.


(** The double after a non-negative one, written [M * 2^E] in normal
    form, is [(M + 1) * 2^E]. *)
Lemma double_above (M E : Z) (w : R) :
  (0 <= M < 2 ^ 53)%Z -> (-1074 <= E <= 971)%Z ->
  (2 ^ 52 <= M \/ E = -1074)%Z ->
  Double.finite w -> IZR M * powerRZ 2 E < w ->
  IZR (M + 1) * powerRZ 2 E <= w /\
  Double.finite (IZR (M + 1) * powerRZ 2 E).
Proof.
  intros HM HE Hn Hw Hlt.
  pose proof (powerRZ_2_pos E) as HpE.
  split.
  - destruct Hw as (N & F & HN & HF & ->).
    pose proof (powerRZ_2_pos F) as HpF.
    destruct (Z_le_gt_dec E F) as [Hge | Hgt].
    + rewrite (powerRZ_2_split F E Hge) in *.
      rewrite <- Rmult_assoc, <- mult_IZR in *.
      set (k := (N * 2 ^ (F - E))%Z) in *.
      assert (Hk : (M < k)%Z).
      { apply lt_IZR. nra. }
      assert (Hk' : IZR (M + 1) <= IZR k) by (apply IZR_le; lia).
      nra.
    + exfalso.
      assert (HM' : (2 ^ 52 <= M)%Z) by lia.
      pose proof (powerRZ_2_le F (E - 1) ltac:(lia)) as HFE.
      assert (E2 : powerRZ 2 E = 2 * powerRZ 2 (E - 1)).
      { rewrite (powerRZ_2_split E (E - 1)) by lia.
        replace (E - (E - 1))%Z with 1%Z by lia. reflexivity. }
      assert (HN' : IZR N <= IZR (2 ^ 53)) by (apply IZR_le; lia).
      assert (HM'' : IZR (2 ^ 52) <= IZR M) by (apply IZR_le; lia).
      assert (E53 : IZR (2 ^ 53) = 2 * IZR (2 ^ 52)).
      { rewrite <- mult_IZR. reflexivity. }
      assert (H52 : 0 < IZR (2 ^ 52)) by (apply IZR_lt; lia).
      pose proof (powerRZ_2_pos (E - 1)) as HpE1.
      assert (Hw : IZR N * powerRZ 2 F <= IZR (2 ^ 53) * powerRZ 2 (E - 1)).
      { destruct (Rle_or_lt 0 (IZR N)) as [Hpos | Hneg]; nra. }
      nra.
  - destruct (Z_lt_ge_dec (M + 1) (2 ^ 53)) as [Hsmall | Hbig].
    + exists (M + 1)%Z, E. repeat split; lia.
    + assert (EM : M = (2 ^ 53 - 1)%Z) by lia.
      destruct (Z_lt_ge_dec E 971) as [HE' | HE'].
      * exists (2 ^ 52)%Z, (E + 1)%Z. repeat split; try lia.
        rewrite (powerRZ_2_split (E + 1) E) by lia.
        replace (E + 1 - E)%Z with 1%Z by lia.
        rewrite <- Rmult_assoc, <- mult_IZR. f_equal. f_equal. lia.
      * exfalso. assert (E = 971%Z) by lia. subst E M.
        pose proof (finite_le_max w Hw). lra.
Qed.

(** Of two doubles next to each other, one is even. *)
Lemma adjacent_even_nonneg (u v : R) :
  0 <= u -> Double.finite u -> Double.finite v -> u < v ->
  (forall w, Double.finite w -> ~ (u < w < v)) ->
  Double.even u \/ Double.even v.
Proof.
  intros Hu Fu Fv Huv Hnone.
  destruct (finite_normal u Fu) as (M & E & HM & HE & -> & Hn).
  pose proof (powerRZ_2_pos E) as HpE.
  assert (HM0 : (0 <= M)%Z).
  { apply le_IZR. nra. }
  destruct (double_above M E v ltac:(lia) HE ltac:(lia) Fv Huv) as [Hle Fnext].
  assert (Ev : v = IZR (M + 1) * powerRZ 2 E).
  { destruct (Rle_lt_or_eq_dec _ _ Hle) as [Hlt | E']; [|now symmetry].
    exfalso. apply (Hnone _ Fnext). split; [|exact Hlt].
    rewrite plus_IZR. nra. }
  destruct (Z.even M) eqn:HevM.
  - left. exists M, E. repeat split; try lia. exact HevM.
  - right. subst v.
    destruct (Z_lt_ge_dec (M + 1) (2 ^ 53)) as [Hsmall | Hbig].
    + exists (M + 1)%Z, E. repeat split; try lia.
      rewrite Z.even_add, HevM. reflexivity.
    + assert (EM : M = (2 ^ 53 - 1)%Z) by lia.
      assert (HE' : (E < 971)%Z).
      { destruct (Z_lt_ge_dec E 971) as [H | H]; [exact H|]. exfalso.
        assert (E = 971%Z) by lia. subst E M.
        pose proof (finite_le_max _ Fv). lra. }
      exists (2 ^ 52)%Z, (E + 1)%Z. repeat split; try lia.
      rewrite (powerRZ_2_split (E + 1) E) by lia.
      replace (E + 1 - E)%Z with 1%Z by lia.
      rewrite <- Rmult_assoc, <- mult_IZR. f_equal. f_equal. lia.
Qed.

Lemma finite_0 : Double.finite 0.
Proof. exists 0%Z, 0%Z. repeat split; try lia. simpl. ring. Qed.

Lemma adjacent_even (u v : R) :
  Double.finite u -> Double.finite v -> u < v ->
  (forall w, Double.finite w -> ~ (u < w < v)) ->
  Double.even u \/ Double.even v.
Proof.
  intros Fu Fv Huv Hnone.
  destruct (Rle_or_lt 0 u) as [Hu | Hu].
  - now apply adjacent_even_nonneg.
  - assert (Hv : v <= 0).
    { destruct (Rle_or_lt v 0) as [H | H]; [exact H|].
      exfalso. apply (Hnone 0 finite_0). lra. }
    destruct (adjacent_even_nonneg (- v) (- u)) as [H | H];
      try (now apply finite_opp); try lra.
    + intros w Fw Hw. apply (Hnone (- w)); [now apply finite_opp | lra].
    + right. apply even_opp in H. now rewrite Ropp_involutive in H.
    + left. apply even_opp in H. now rewrite Ropp_involutive in H.
Qed.


(** There are finitely many doubles. *)
Lemma Z_interval_listed (lo hi : Z) :
  exists l : list Z, forall z, In z l <-> (lo <= z <= hi)%Z.
Proof.
  exists (map (fun i => (lo + Z.of_nat i)%Z) (seq 0 (Z.to_nat (hi - lo + 1)))).
  intros z. rewrite in_map_iff. split.
  - intros (i & <- & Hi). apply in_seq in Hi. lia.
  - intros Hz. exists (Z.to_nat (z - lo)). split; [lia|].
    apply in_seq. lia.
Qed.

Lemma finite_listed :
  exists l : list R, forall v, Double.finite v <-> In v l.
Proof.
  destruct (Z_interval_listed (- (2 ^ 53 - 1)) (2 ^ 53 - 1)) as (ms & Hms).
  destruct (Z_interval_listed (-1074) 971) as (es & Hes).
  exists (flat_map (fun e => map (fun m => IZR m * powerRZ 2 e) ms) es).
  intros v. rewrite in_flat_map. split.
  - intros (m & e & Hm & He & ->). exists e. split; [apply Hes; lia|].
    apply in_map_iff. exists m. split; [reflexivity|]. apply Hms. lia.
  - intros (e & He & Hv). apply in_map_iff in Hv. destruct Hv as (m & <- & Hm).
    apply Hes in He. apply Hms in Hm. exists m, e. repeat split; lia.
Qed.

Lemma list_nearest (x : R) (l : list R) (v0 : R) :
  In v0 l ->
  exists v, In v l /\ forall u, In u l -> Rabs (v - x) <= Rabs (u - x).
Proof.
  revert v0. induction l as [|a l IH]; intros v0 Hin; [contradiction|].
  destruct l as [|b l].
  - exists a. split; [now left|]. intros u [<- | []]. lra.
  - destruct (IH b (or_introl eq_refl)) as (v & Hv & Hmin).
    destruct (Rle_or_lt (Rabs (a - x)) (Rabs (v - x))) as [Ha | Ha].
    + exists a. split; [now left|]. intros u [<- | Hu]; [lra|].
      specialize (Hmin u Hu). lra.
    + exists v. split; [now right|]. intros u [<- | Hu]; [lra|].
      now apply Hmin.
Qed.

Lemma nearest_exists (x : R) :
  exists v, Double.finite v /\
            forall u, Double.finite u -> Rabs (v - x) <= Rabs (u - x).
Proof.
  destruct finite_listed as (l & Hl).
  destruct (list_nearest x l 0) as (v & Hv & Hmin).
  { apply Hl. apply finite_0. }
  exists v. split; [now apply Hl|].
  intros u Hu. apply Hmin. now apply Hl.
Qed.

(** Round-to-nearest, ties-to-even, is defined for every real. *)
Lemma nearest_even_exists (x : R) : exists v, Double.nearest_even x v.
Proof.
  destruct (nearest_exists x) as (v & Fv & Hmin).
  destruct (classic (exists u, Double.finite u /\ u <> v /\
                               Rabs (u - x) = Rabs (v - x))) as [Htie | Hnone].
  - destruct Htie as (u & Fu & Hne & Hd).
    assert (Hadj : forall a b, Double.finite a -> Double.finite b -> a < b ->
                     Rabs (a - x) = Rabs (b - x) ->
                     (forall w, Double.finite w -> Rabs (b - x) <= Rabs (w - x)) ->
                     Double.even a \/ Double.even b).
    { intros a b Fa Fb Hab Hab' Hminb. apply adjacent_even; trivial.
      intros w Fw [Haw Hwb]. specialize (Hminb w Fw).
      unfold Rabs in *. repeat destruct (Rcase_abs _); lra. }
    assert (Heven : Double.even u \/ Double.even v).
    { destruct (Rtotal_order u v) as [Huv | [Huv | Huv]].
      - now apply Hadj.
      - contradiction.
      - assert (H : Double.even v \/ Double.even u); [|tauto].
        apply Hadj; trivial; [now symmetry|].
        intros w Fw. rewrite Hd. now apply Hmin. }
    destruct Heven as [He | He].
    + exists u. split; [exact Fu|]. split.
      * intros w Fw. rewrite Hd. now apply Hmin.
      * intros w Fw _. now right.
    + exists v. split; [exact Fv|]. split; [exact Hmin|].
      intros w Fw _. now right.
  - exists v. split; [exact Fv|]. split; [exact Hmin|].
    intros u Fu Hd. left.
    destruct (Req_dec u v) as [E | Hne]; [exact E|].
    exfalso. apply Hnone. now exists u.
Qed.

Lemma round_spec (x : R) : Double.nearest_even x (Double.round x).
Proof. unfold Double.round. apply epsilon_spec. apply nearest_even_exists. Qed.

Lemma round_finite_value (x : R) : Double.finite (Double.round x).
Proof. apply round_spec. Qed.





(** The normal form of a double is unique. *)
Lemma normal_unique_le (m e m' e' : Z) :
  (e <= e')%Z ->
  (Z.abs m < 2 ^ 53)%Z -> (-1074 <= e)%Z ->
  (2 ^ 52 <= Z.abs m' \/ e' = -1074)%Z ->
  IZR m * powerRZ 2 e = IZR m' * powerRZ 2 e' ->
  m = m' /\ e = e'.
Proof.
  intros Hle Hm He Hn' Heq.
  rewrite (powerRZ_2_split e' e Hle), <- Rmult_assoc, <- mult_IZR in Heq.
  pose proof (powerRZ_2_pos e) as Hp.
  assert (E : m = (m' * 2 ^ (e' - e))%Z).
  { apply eq_IZR. nra. }
  destruct (Z.eq_dec e e') as [-> | Hne].
  - split; [|reflexivity]. rewrite E, Z.sub_diag. lia.
  - exfalso.
    assert (H2 : (2 ^ 1 <= 2 ^ (e' - e))%Z) by (apply Z.pow_le_mono_r; lia).
    assert (Hm' : (2 ^ 52 <= Z.abs m')%Z) by lia.
    rewrite E, Z.abs_mul in Hm.
    assert (Hpos : (0 < 2 ^ (e' - e))%Z) by lia.
    rewrite (Z.abs_eq (2 ^ (e' - e))) in Hm by lia.
    change (2 ^ 1)%Z with 2%Z in H2. nia.
Qed.

Lemma normal_unique (m e m' e' : Z) :
  (Z.abs m < 2 ^ 53)%Z -> (-1074 <= e)%Z ->
  (2 ^ 52 <= Z.abs m \/ e = -1074)%Z ->
  (Z.abs m' < 2 ^ 53)%Z -> (-1074 <= e')%Z ->
  (2 ^ 52 <= Z.abs m' \/ e' = -1074)%Z ->
  IZR m * powerRZ 2 e = IZR m' * powerRZ 2 e' ->
  m = m' /\ e = e'.
Proof.
  intros Hm He Hn Hm' He' Hn' Heq.
  destruct (Z_le_gt_dec e e') as [Hle | Hgt].
  - now apply normal_unique_le.
  - destruct (normal_unique_le m' e' m e ltac:(lia) Hm' He' Hn (eq_sym Heq))
      as [-> ->].
    now split.
Qed.

(** Of two doubles next to each other, only one is even. *)
Lemma adjacent_not_both_even_nonneg (u v : R) :
  0 <= u -> Double.finite u -> Double.finite v -> u < v ->
  (forall w, Double.finite w -> ~ (u < w < v)) ->
  Double.even u -> Double.even v -> False.
Proof.
  intros Hu Fu Fv Huv Hnone Eu Ev.
  destruct Eu as (M & E & HM & HE & -> & HevM & Hn).
  pose proof (powerRZ_2_pos E) as HpE.
  assert (HM0 : (0 <= M)%Z).
  { apply le_IZR. nra. }
  destruct (double_above M E v ltac:(lia) HE ltac:(lia) Fv Huv) as [Hle Fnext].
  assert (Hv : v = IZR (M + 1) * powerRZ 2 E).
  { destruct (Rle_lt_or_eq_dec _ _ Hle) as [Hlt | E']; [|now symmetry].
    exfalso. apply (Hnone _ Fnext). split; [|exact Hlt].
    rewrite plus_IZR. nra. }
  destruct Ev as (m & e & Hm & He & Ev & Hevm & Hnm).
  rewrite Ev in Hv.
  destruct (Z_lt_ge_dec (M + 1) (2 ^ 53)) as [Hsmall | Hbig].
  - destruct (normal_unique m e (M + 1) E) as [-> _]; try lia; [exact Hv|].
    rewrite Z.even_add, HevM in Hevm. discriminate Hevm.
  - assert (EM : M = (2 ^ 53 - 1)%Z) by lia. subst M. discriminate HevM.
Qed.

Lemma adjacent_not_both_even (u v : R) :
  Double.finite u -> Double.finite v -> u < v ->
  (forall w, Double.finite w -> ~ (u < w < v)) ->
  Double.even u -> Double.even v -> False.
Proof.
  intros Fu Fv Huv Hnone Eu Ev.
  destruct (Rle_or_lt 0 u) as [Hu | Hu].
  - now apply (adjacent_not_both_even_nonneg u v).
  - assert (Hv : v <= 0).
    { destruct (Rle_or_lt v 0) as [H | H]; [exact H|].
      exfalso. apply (Hnone 0 finite_0). lra. }
    apply (adjacent_not_both_even_nonneg (- v) (- u));
      try (now apply finite_opp); try (now apply even_opp); try lra.
    intros w Fw Hw. apply (Hnone (- w)); [now apply finite_opp | lra].
Qed.

(** Round-to-nearest, ties-to-even, returns one double only. *)
Lemma nearest_even_unique (x u v : R) :
  Double.nearest_even x u -> Double.nearest_even x v -> u = v.
Proof.
  intros (Fu & Hminu & Htieu) (Fv & Hminv & Htiev).
  assert (Hd : Rabs (u - x) = Rabs (v - x)).
  { apply Rle_antisym; [now apply Hminu | now apply Hminv]. }
  destruct (Req_dec u v) as [E | Hne]; [exact E|]. exfalso.
  assert (Eu : Double.even u).
  { destruct (Htieu v Fv (eq_sym Hd)) as [E | E]; [now elim Hne | exact E]. }
  assert (Ev : Double.even v).
  { destruct (Htiev u Fu Hd) as [E | E]; [now elim Hne | exact E]. }
  assert (Hbetween : forall a b, a < b -> Rabs (a - x) = Rabs (b - x) ->
            (forall w, Double.finite w -> Rabs (b - x) <= Rabs (w - x)) ->
            forall w, Double.finite w -> ~ (a < w < b)).
  { intros a b Hab Hab' Hminb w Fw [Haw Hwb]. specialize (Hminb w Fw).
    unfold Rabs in *. repeat destruct (Rcase_abs _); lra. }
  destruct (Rtotal_order u v) as [Huv | [Huv | Huv]]; [|contradiction|].
  - apply (adjacent_not_both_even u v); trivial.
    now apply (Hbetween u v).
  - apply (adjacent_not_both_even v u); trivial.
    now apply (Hbetween v u).
Qed.

(** [round x] is the double [v] once [nearest_even x v] is shown. *)
Lemma round_is (x v : R) : Double.nearest_even x v -> Double.round x = v.
Proof. intros H. apply (nearest_even_unique x); [apply round_spec | exact H]. Qed.


Lemma finite_IZR (n : Z) : (Z.abs n < 2 ^ 53)%Z -> Double.finite (IZR n).
Proof.
  intros H. exists n, 0%Z. split; [exact H|]. split; [lia|].
  simpl. ring.
Qed.




(** An exact result that is a double is not rounded. *)
Lemma round_finite (v : R) : Double.finite v -> Double.round v = v.
Proof.
  intros Hf. apply round_is.
  split; [exact Hf|]. split.
  - intros u _. replace (v - v) with 0 by ring. rewrite Rabs_R0. apply Rabs_pos.
  - intros u _ Hu. left.
    replace (v - v) with 0 in Hu by ring. rewrite Rabs_R0 in Hu.
    destruct (Req_dec (u - v) 0) as [E | E]; [lra|].
    apply Rabs_no_R0 in E. contradiction.
Qed.

Lemma round_IZR (n : Z) : (Z.abs n < 2 ^ 53)%Z -> Double.round (IZR n) = IZR n.
Proof. intros H. apply round_finite. now apply finite_IZR. Qed.








End Doubles.

(** ** The hit test *)

Section HitTest.

Local Open Scope R_scope.

Lemma distance_same cx cy : distance cx cy cx cy = 0.
Proof.
  unfold distance, Double.sub.
  replace (cx - cx) with 0 by ring. replace (cy - cy) with 0 by ring.
  rewrite (round_finite 0 finite_0).
  unfold Double.square. replace (0 ^ 2) with 0 by ring.
  rewrite (round_finite 0 finite_0).
  unfold Double.add. replace (0 + 0) with 0 by ring.
  rewrite (round_finite 0 finite_0).
  unfold Double.sqrt. rewrite sqrt_0. apply (round_finite 0 finite_0).
Qed.

(** A click straight to the left or to the right of the target, at a
    whole number of pixels. *)
Lemma distance_horizontal (cx bx : Z) (cy : R) :
  (Z.abs (cx - bx) < 2 ^ 26)%Z ->
  distance (IZR cx) cy (IZR bx) cy = IZR (Z.abs (cx - bx)).
Proof.
  intros H. unfold distance.
  unfold Double.sub at 2. replace (cy - cy) with 0 by ring.
  rewrite (round_finite 0 finite_0).
  unfold Double.square at 2. replace (0 ^ 2) with 0 by ring.
  rewrite (round_finite 0 finite_0).
  unfold Double.sub. rewrite <- minus_IZR, round_IZR by lia.
  unfold Double.square.
  replace (IZR (cx - bx) ^ 2) with (IZR ((cx - bx) * (cx - bx)))
    by (rewrite mult_IZR; ring).
  rewrite round_IZR by nia.
  unfold Double.add.
  replace (IZR ((cx - bx) * (cx - bx)) + 0)
    with (IZR ((cx - bx) * (cx - bx))) by ring.
  rewrite round_IZR by nia.
  unfold Double.sqrt.
  replace (IZR ((cx - bx) * (cx - bx))) with (IZR (Z.abs (cx - bx)) ^ 2).
  - rewrite sqrt_pow2 by (apply IZR_le; lia). apply round_IZR. lia.
  - rewrite abs_IZR, mult_IZR, pow2_abs. ring.
Qed.

Lemma decided_by_distance_intro (hit miss : Prop) (d r : R) :
  (hit <-> d <= r) -> (miss <-> r < d) -> decided_by_distance hit miss d r.
Proof.
  intros Hh Hm. repeat split; try apply Hh; try apply Hm.
  - intros ->. apply Hh. lra.
  - intros eps Heps ->. apply Hm. lra.
Qed.




End HitTest.

(** ** What one click does, script by script *)

Section ClickOutcome.

Local Open Scope R_scope.

(** Basic *)

Lemma basic_click_hit e w :
  Basic.gameActive w = true ->
  click_distance Basic.batmanLocation e <= radius Basic.batmanLocation ->
  Basic.hit_outcome w (Basic.on_click e w).
Proof.
  intros Ha Hd. unfold Basic.on_click. rewrite Ha. simpl negb. cbv iota.
  destruct (Rle_dec _ _) as [_|n]; [|contradiction].
  split; [reflexivity|]. eexists. split; reflexivity.
Qed.

Lemma basic_click_miss e w :
  Basic.gameActive w = true ->
  radius Basic.batmanLocation < click_distance Basic.batmanLocation e ->
  Basic.miss_outcome w (Basic.on_click e w).
Proof.
  intros Ha Hd. unfold Basic.on_click. rewrite Ha. simpl negb. cbv iota.
  destruct (Rle_dec _ _) as [l|_]; [lra|].
  split; [exact Ha|]. eexists. split; reflexivity.
Qed.

Lemma basic_outcomes_exclusive w w' :
  Basic.hit_outcome w w' -> Basic.miss_outcome w w' -> False.
Proof. intros [H _] [H' _]. congruence. Qed.

Lemma basic_click_decided e w :
  Basic.gameActive w = true ->
  decided_by_distance
    (Basic.hit_outcome w (Basic.on_click e w))
    (Basic.miss_outcome w (Basic.on_click e w))
    (click_distance Basic.batmanLocation e) (radius Basic.batmanLocation).
Proof.
  intros Ha. apply decided_by_distance_intro; split.
  - intros Hh.
    destruct (Rle_or_lt (click_distance Basic.batmanLocation e)
                (radius Basic.batmanLocation)) as [H|H]; [exact H|].
    exfalso. eapply basic_outcomes_exclusive; [exact Hh|].
    now apply basic_click_miss.
  - now apply basic_click_hit.
  - intros Hm.
    destruct (Rle_or_lt (click_distance Basic.batmanLocation e)
                (radius Basic.batmanLocation)) as [H|H]; [|exact H].
    exfalso. eapply basic_outcomes_exclusive; [|exact Hm].
    now apply basic_click_hit.
  - now apply basic_click_miss.
Qed.

(** Timed *)





(** Assisted: the target is the one in the state. *)

Lemma assisted_click_hit e w :
  Assisted.gameActive w = true ->
  click_distance (Assisted.batmanLocation w) e <= radius (Assisted.batmanLocation w) ->
  Assisted.hit_outcome w (Assisted.on_click e w).
Proof.
  intros Ha Hd. unfold Assisted.on_click. rewrite Ha. simpl negb. cbv iota zeta.
  change (Assisted.batmanLocation (Assisted.count_attempt w))
    with (Assisted.batmanLocation w).
  destruct (Rle_dec _ _) as [_|n]; [|contradiction].
  split; [reflexivity|]. eexists. split; reflexivity.
Qed.

Lemma assisted_click_miss e w :
  Assisted.gameActive w = true ->
  radius (Assisted.batmanLocation w) < click_distance (Assisted.batmanLocation w) e ->
  Assisted.miss_outcome w (Assisted.on_click e w).
Proof.
  intros Ha Hd. unfold Assisted.on_click. rewrite Ha. simpl negb. cbv iota zeta.
  change (Assisted.batmanLocation (Assisted.count_attempt w))
    with (Assisted.batmanLocation w).
  destruct (Rle_dec _ _) as [l|_]; [lra|].
  split; [exact Ha|]. eexists. split; reflexivity.
Qed.

Lemma assisted_outcomes_exclusive w w' :
  Assisted.hit_outcome w w' -> Assisted.miss_outcome w w' -> False.
Proof. intros [H _] [H' _]. congruence. Qed.

Lemma assisted_click_decided e w :
  Assisted.gameActive w = true ->
  decided_by_distance
    (Assisted.hit_outcome w (Assisted.on_click e w))
    (Assisted.miss_outcome w (Assisted.on_click e w))
    (click_distance (Assisted.batmanLocation w) e)
    (radius (Assisted.batmanLocation w)).
Proof.
  intros Ha. apply decided_by_distance_intro; split.
  - intros Hh.
    destruct (Rle_or_lt (click_distance (Assisted.batmanLocation w) e)
                (radius (Assisted.batmanLocation w))) as [H|H]; [exact H|].
    exfalso. eapply assisted_outcomes_exclusive; [exact Hh|].
    now apply assisted_click_miss.
  - now apply assisted_click_hit.
  - intros Hm.
    destruct (Rle_or_lt (click_distance (Assisted.batmanLocation w) e)
                (radius (Assisted.batmanLocation w))) as [H|H]; [|exact H].
    exfalso. eapply assisted_outcomes_exclusive; [|exact Hm].
    now apply assisted_click_hit.
  - now apply assisted_click_miss.
Qed.

(** The clicks of the scenario: target at the centre of an 800x600
    image, radius 50. *)
Lemma sample_click_distance (cx : Z) (now : Z) :
  (Z.abs (cx - 400) < 2 ^ 26)%Z -> (Z.abs cx < 2 ^ 53)%Z ->
  click_distance Basic.batmanLocation (Samples.click_at (IZR cx) 300 now) =
    IZR (Z.abs (cx - 400)).
Proof.
  intros H H'.
  unfold click_distance, clickX_of, clickY_of, batmanX_of, batmanY_of. simpl.
  unfold Double.sub at 1 2, Double.mul.
  replace (IZR cx - 0) with (IZR cx) by ring.
  replace (300 - 0) with 300 by ring.
  replace (0.5 * 800) with 400 by lra.
  replace (0.5 * 600) with 300 by lra.
  rewrite (round_IZR cx H'), (round_IZR 300), (round_IZR 400) by reflexivity.
  now apply distance_horizontal.
Qed.

Lemma centre_click_distance now :
  click_distance Basic.batmanLocation (Samples.click_at 400 300 now) = 0.
Proof. now rewrite (sample_click_distance 400 now). Qed.

Lemma far_click_distance now :
  click_distance Basic.batmanLocation (Samples.click_at 300 300 now) = 100.
Proof. now rewrite (sample_click_distance 300 now). Qed.





End ClickOutcome.




(** ** The branch a click takes, as equations *)

Section ClickEquations.

Local Open Scope R_scope.

Ltac take_branch Ha :=
  rewrite Ha; simpl negb; cbv iota zeta;
  destruct (Rle_dec _ _); [try reflexivity | try reflexivity];
  try contradiction; try lra.

Lemma basic_on_click_inactive e w :
  Basic.gameActive w = false -> Basic.on_click e w = w.
Proof. intros Ha. unfold Basic.on_click. now rewrite Ha. Qed.

Lemma basic_on_click_hit_eq e w :
  Basic.gameActive w = true ->
  click_distance Basic.batmanLocation e <= radius Basic.batmanLocation ->
  Basic.on_click e w = Basic.found e (Basic.count_attempt w).
Proof. intros Ha Hd. unfold Basic.on_click. take_branch Ha. Qed.

Lemma basic_on_click_miss_eq e w :
  Basic.gameActive w = true ->
  radius Basic.batmanLocation < click_distance Basic.batmanLocation e ->
  Basic.on_click e w = Basic.missed e (Basic.count_attempt w).
Proof. intros Ha Hd. unfold Basic.on_click. take_branch Ha. Qed.

Lemma timed_on_click_inactive e w :
  Timed.gameActive w = false -> Timed.on_click e w = w.
Proof. intros Ha. unfold Timed.on_click. now rewrite Ha. Qed.

Lemma timed_on_click_hit_eq e w :
  Timed.gameActive w = true ->
  click_distance Timed.batmanLocation e <= radius Timed.batmanLocation ->
  Timed.on_click e w = Timed.found e (Timed.count_click w).
Proof. intros Ha Hd. unfold Timed.on_click. take_branch Ha. Qed.

Lemma timed_on_click_miss_eq e w :
  Timed.gameActive w = true ->
  radius Timed.batmanLocation < click_distance Timed.batmanLocation e ->
  Timed.on_click e w = Timed.missed e (Timed.count_click w).
Proof. intros Ha Hd. unfold Timed.on_click. take_branch Ha. Qed.

Lemma assisted_on_click_inactive e w :
  Assisted.gameActive w = false -> Assisted.on_click e w = w.
Proof. intros Ha. unfold Assisted.on_click. now rewrite Ha. Qed.

Lemma assisted_on_click_hit_eq e w :
  Assisted.gameActive w = true ->
  click_distance (Assisted.batmanLocation w) e <= radius (Assisted.batmanLocation w) ->
  Assisted.on_click e w = Assisted.found e (Assisted.count_attempt w).
Proof.
  intros Ha Hd. unfold Assisted.on_click.
  change (Assisted.batmanLocation (Assisted.count_attempt w))
    with (Assisted.batmanLocation w).
  take_branch Ha.
Qed.

Lemma assisted_on_click_miss_eq e w :
  Assisted.gameActive w = true ->
  radius (Assisted.batmanLocation w) < click_distance (Assisted.batmanLocation w) e ->
  Assisted.on_click e w = Assisted.missed e (Assisted.count_attempt w).
Proof.
  intros Ha Hd. unfold Assisted.on_click.
  change (Assisted.batmanLocation (Assisted.count_attempt w))
    with (Assisted.batmanLocation w).
  take_branch Ha.
Qed.

(** Whatever the branch, one click on an active game adds one to the
    counter. *)
Lemma basic_click_counts e w :
  Basic.gameActive w = true ->
  Basic.attempts (Basic.on_click e w) = (Basic.attempts w + 1)%Z.
Proof.
  intros Ha. unfold Basic.on_click. rewrite Ha. simpl negb. cbv iota zeta.
  now destruct (Rle_dec _ _).
Qed.

Lemma timed_click_counts e w :
  Timed.gameActive w = true ->
  Timed.clicks (Timed.on_click e w) = (Timed.clicks w + 1)%Z.
Proof.
  intros Ha. unfold Timed.on_click. rewrite Ha. simpl negb. cbv iota zeta.
  now destruct (Rle_dec _ _).
Qed.

Lemma assisted_click_counts e w :
  Assisted.gameActive w = true ->
  Assisted.attempts (Assisted.on_click e w) = (Assisted.attempts w + 1)%Z.
Proof.
  intros Ha. unfold Assisted.on_click. rewrite Ha. simpl negb. cbv iota zeta.
  now destruct (Rle_dec _ _).
Qed.

End ClickEquations.

(** ** The score *)

Section Score.

Lemma calculateScore_formula (c s : Z) :
  Timed.calculateScore c s = Z.max 0 (1000 - c * 50 - s * 10).
Proof. reflexivity. Qed.

Lemma calculateScore_nonneg (c s : Z) : 0 <= Timed.calculateScore c s.
Proof. unfold Timed.calculateScore. cbv zeta. lia. Qed.

Lemma calculateScore_antitone (c c' s s' : Z) :
  c <= c' -> s <= s' ->
  Timed.calculateScore c' s' <= Timed.calculateScore c s.
Proof. intros Hc Hs. unfold Timed.calculateScore. cbv zeta. lia. Qed.

(** No callback of a timeout writes the counter. *)
Lemma timed_run_timeout_clicks (w : Timed.world) (t : Timed.timeout) :
  Timed.clicks (Timed.run_timeout w t) = Timed.clicks w.
Proof. destruct t as [d [id|s sc|]]; reflexivity. Qed.

Lemma timed_fold_clicks (ts : list Timed.timeout) (w : Timed.world) :
  Timed.clicks (fold_left Timed.run_timeout ts w) = Timed.clicks w.
Proof.
  revert w. induction ts as [|t ts IH]; intros w; simpl; [reflexivity|].
  now rewrite IH, timed_run_timeout_clicks.
Qed.

(** Running the due timeouts when the last one scheduled is the
    results of the round: the score and the time are those the
    callback closed over, the count is the counter as it is then. *)
Lemma timed_results_shown (now : Z) (w : Timed.world) (ts : list Timed.timeout)
    (at_ s sc : Z) :
  Timed.timeouts w = ts ++ [Timed.Pending at_ (Timed.Show_results s sc)] ->
  at_ <= now ->
  Timed.finalScore (Timed.fire_timeouts now w) = sc /\
  Timed.finalClicks (Timed.fire_timeouts now w) = Timed.clicks w /\
  Timed.finalTime (Timed.fire_timeouts now w) = Timed.timeString s /\
  Timed.resultsStep_active (Timed.fire_timeouts now w) = true.
Proof.
  intros Hts Hdue.
  assert (Hd : Timed.is_due now (Timed.Pending at_ (Timed.Show_results s sc)) = true).
  { unfold Timed.is_due. simpl. now apply Z.leb_le. }
  unfold Timed.fire_timeouts. rewrite Hts, !filter_app. simpl filter.
  rewrite Hd. simpl negb. cbv iota.
  rewrite fold_left_app. simpl fold_left.
  match goal with
  | |- context [Timed.run_timeout ?w1 _] =>
      assert (Hc : Timed.clicks w1 = Timed.clicks w)
        by (now rewrite timed_fold_clicks);
      revert Hc; generalize w1
  end.
  intros w1 Hc. repeat split. exact Hc.
Qed.

End Score.

(** C2. The score computed when a click wins the round is
    max(0, 1000 - attempts*50 - elapsed_seconds*10), for every
    non-negative number of attempts (the counter once the winning click
    is counted) and of elapsed seconds; it is what the results scheduled
    by the handler carry and what the page shows when they run; and
    attempts = 3 with elapsed_seconds = 20 give 650. *)
Theorem score_at_won
    (attempts elapsed : Z) (w : Timed.world) (e : click_event)
    (Hattempts : 0 <= attempts) (Helapsed : 0 <= elapsed)
    (Hactive : Timed.gameActive w = true)
    (Hhit : (click_distance Timed.batmanLocation e <= radius Timed.batmanLocation)%R)
    (Hcount : Timed.clicks (Timed.on_click e w) = attempts)
    (Htime : Timed.elapsed_seconds (click_time e) (Timed.startTime w) = elapsed) :
  let score := Z.max 0 (1000 - attempts * 50 - elapsed * 10) in
  let won := Timed.on_click e w in
  Timed.calculateScore attempts elapsed = score /\
  Timed.timeouts won =
    Timed.timeouts w ++
      [Timed.Pending (click_time e + 1000)
         (Timed.Show_results elapsed score)] /\
  (forall now, click_time e + 1000 <= now ->
     Timed.finalScore (Timed.fire_timeouts now won) = score /\
     Timed.finalClicks (Timed.fire_timeouts now won) = attempts) /\
  Timed.calculateScore 3 20 = 650.
Proof.
  intros score won.
  assert (Hts : Timed.timeouts won =
    Timed.timeouts w ++
      [Timed.Pending (click_time e + 1000)
         (Timed.Show_results elapsed score)]).
  { subst won score. rewrite <- Hcount, <- Htime.
    rewrite (timed_on_click_hit_eq e w Hactive Hhit). reflexivity. }
  split; [reflexivity|]. split; [exact Hts|]. split; [|reflexivity].
  intros now Hnow.
  destruct (timed_results_shown now won _ _ _ _ Hts Hnow) as (H1 & H2 & _).
  split; [exact H1|]. rewrite H2. exact Hcount.
Qed.

Section ScoreScenario.

Lemma timed_far_click_misses now :
  (radius Timed.batmanLocation <
   click_distance Timed.batmanLocation (Samples.click_at 300 300 now))%R.
Proof.
  change Timed.batmanLocation with Basic.batmanLocation.
  rewrite far_click_distance. simpl. lra.
Qed.

Lemma timed_centre_click_hits now :
  (click_distance Timed.batmanLocation (Samples.click_at 400 300 now) <=
   radius Timed.batmanLocation)%R.
Proof.
  change Timed.batmanLocation with Basic.batmanLocation.
  rewrite centre_click_distance. simpl. lra.
Qed.

(** Two misses after the start of the timed game. *)
Lemma timed_two_misses :
  Timed.run Samples.timed_playing
    [Timed.Ev_click (Samples.click_at 300 300 5000);
     Timed.Ev_click (Samples.click_at 300 300 5000)] =
  Timed.missed (Samples.click_at 300 300 5000) (Timed.count_click
    (Timed.missed (Samples.click_at 300 300 5000)
       (Timed.count_click Samples.timed_playing))).
Proof.
  unfold Timed.run. simpl fold_left.
  rewrite (timed_on_click_miss_eq _ Samples.timed_playing eq_refl
             (timed_far_click_misses _)).
  rewrite timed_on_click_miss_eq;
    [reflexivity | reflexivity | apply timed_far_click_misses].
Qed.

End ScoreScenario.

Lemma score_at_won_witness :
  let w := Timed.run Samples.timed_playing
             [Timed.Ev_click (Samples.click_at 300 300 5000);
              Timed.Ev_click (Samples.click_at 300 300 5000)] in
  let won := Timed.on_click (Samples.click_at 400 300 22500) w in
  Timed.finalScore (Timed.fire_timeouts 23500 won) = 650 /\
  Timed.finalClicks (Timed.fire_timeouts 23500 won) = 3.
Proof.
  intros w won.
  assert (Hactive : Timed.gameActive w = true).
  { subst w. rewrite timed_two_misses. reflexivity. }
  assert (Hcount : Timed.clicks won = 3).
  { subst won. rewrite (timed_click_counts _ _ Hactive).
    subst w. rewrite timed_two_misses. reflexivity. }
  assert (Htime : Timed.elapsed_seconds
                    (click_time (Samples.click_at 400 300 22500))
                    (Timed.startTime w) = 20).
  { subst w. rewrite timed_two_misses. reflexivity. }
  destruct (score_at_won 3 20 w (Samples.click_at 400 300 22500)
              ltac:(lia) ltac:(lia) Hactive (timed_centre_click_hits _)
              Hcount Htime) as (_ & _ & Hshown & _).
  apply (Hshown 23500). simpl. lia.
Defined.

(** C3. The score never increases when the elapsed seconds increase
    with the attempts fixed, never increases when the attempts increase
    with the elapsed seconds fixed, and is never negative. *)
Theorem score_monotone_nonnegative
    (attempts attempts' seconds seconds' : Z)
    (Hattempts : attempts <= attempts')
    (Hseconds : seconds <= seconds') :
  Timed.calculateScore attempts seconds' <= Timed.calculateScore attempts seconds /\
  Timed.calculateScore attempts' seconds <= Timed.calculateScore attempts seconds /\
  0 <= Timed.calculateScore attempts seconds.
Proof.
  split; [|split].
  - apply calculateScore_antitone; lia.
  - apply calculateScore_antitone; lia.
  - apply calculateScore_nonneg.
Qed.

Lemma score_monotone_nonnegative_witness :
  Timed.calculateScore 3 30 <= Timed.calculateScore 3 20 /\
  Timed.calculateScore 5 20 <= Timed.calculateScore 3 20 /\
  0 <= Timed.calculateScore 3 20.
Proof.
  apply (score_monotone_nonnegative 3 5 20 30); lia.
Defined.

(** ** Markers and their removal *)

Section Markers.

Lemma attached_app id ms ms' :
  attached id (ms ++ ms') = attached id ms || attached id ms'.
Proof. apply existsb_app. Qed.

Lemma attached_remove_node id id' ms :
  attached id (remove_node id' ms) = attached id ms && negb (Nat.eqb id id').
Proof.
  unfold attached, remove_node.
  induction ms as [|m ms IH]; [reflexivity|].
  simpl. destruct (Nat.eqb (mk_id m) id') eqn:E'; simpl.
  - rewrite IH. apply Nat.eqb_eq in E'.
    destruct (Nat.eqb (mk_id m) id) eqn:E; simpl; [|reflexivity].
    apply Nat.eqb_eq in E. subst id'. rewrite <- E, Nat.eqb_refl. simpl.
    now rewrite andb_false_r.
  - rewrite IH. destruct (Nat.eqb (mk_id m) id) eqn:E; simpl; [|reflexivity].
    apply Nat.eqb_eq in E. rewrite <- E, E'. reflexivity.
Qed.

Lemma attached_remove_nodes id ids ms :
  attached id (remove_nodes ids ms) =
  attached id ms && negb (existsb (Nat.eqb id) ids).
Proof.
  unfold remove_nodes. revert ms.
  induction ids as [|i ids IH]; intros ms; simpl.
  - now rewrite andb_true_r.
  - rewrite IH, attached_remove_node, negb_orb. now rewrite andb_assoc.
Qed.

Lemma In_remove_node m id ms :
  In m (remove_node id ms) <-> In m ms /\ mk_id m <> id.
Proof.
  unfold remove_node. rewrite filter_In.
  rewrite negb_true_iff, Nat.eqb_neq. reflexivity.
Qed.

Lemma In_remove_nodes m ids ms :
  In m (remove_nodes ids ms) <-> In m ms /\ ~ In (mk_id m) ids.
Proof.
  unfold remove_nodes. revert ms.
  induction ids as [|i ids IH]; intros ms; simpl.
  - tauto.
  - rewrite IH, In_remove_node. intuition congruence.
Qed.

Lemma Forall_remove_nodes (P : marker -> Prop) ids ms :
  Forall P ms -> Forall P (remove_nodes ids ms).
Proof.
  rewrite !Forall_forall. intros H m Hm.
  apply In_remove_nodes in Hm. now apply H.
Qed.

Lemma attached_In id ms :
  attached id ms = true <-> exists m, In m ms /\ mk_id m = id.
Proof.
  unfold attached. rewrite existsb_exists.
  split; intros (m & Hm & E); exists m; split; trivial;
    now apply Nat.eqb_eq.
Qed.

Lemma attached_fresh id ms :
  Forall (fun m => (mk_id m < id)%nat) ms -> attached id ms = false.
Proof.
  intros H. destruct (attached id ms) eqn:E; [|reflexivity].
  apply attached_In in E. destruct E as (m & Hm & E).
  rewrite Forall_forall in H. specialize (H m Hm). lia.
Qed.

Lemma Forall_lt_S (A : Type) (f : A -> nat) (n : nat) (l : list A) :
  Forall (fun a => (f a < n)%nat) l -> Forall (fun a => (f a < S n)%nat) l.
Proof. apply Forall_impl. intros; lia. Qed.

Lemma existsb_eqb_false_of_lt (ids : list nat) (id : nat) :
  Forall (fun i => (i < id)%nat) ids -> existsb (Nat.eqb id) ids = false.
Proof.
  intros H. destruct (existsb (Nat.eqb id) ids) eqn:E; [|reflexivity].
  apply existsb_exists in E. destruct E as (i & Hi & E).
  apply Nat.eqb_eq in E. rewrite Forall_forall in H. specialize (H i Hi). lia.
Qed.

End Markers.

(** ** Basic: the timer table and the invariants *)

Section BasicTimers.

Import Basic.

Lemma basic_fold_run_timeout ts w :
  markers (fold_left run_timeout ts w) = remove_nodes (map node ts) (markers w) /\
  timeouts (fold_left run_timeout ts w) = timeouts w /\
  next_id (fold_left run_timeout ts w) = next_id w /\
  gameActive (fold_left run_timeout ts w) = gameActive w /\
  attempts (fold_left run_timeout ts w) = attempts w.
Proof.
  revert w. induction ts as [|t ts IH]; intros w; simpl.
  - repeat split.
  - destruct (IH (run_timeout w t)) as (H1 & H2 & H3 & H4 & H5).
    rewrite H1, H2, H3, H4, H5. repeat split.
Qed.

Lemma basic_fire_markers now w :
  markers (fire_timeouts now w) =
  remove_nodes (map node (filter (is_due now) (timeouts w))) (markers w).
Proof. unfold fire_timeouts. now rewrite (proj1 (basic_fold_run_timeout _ _)). Qed.

Lemma basic_fire_timeouts_left now w :
  timeouts (fire_timeouts now w) =
  filter (fun t => negb (is_due now t)) (timeouts w).
Proof.
  unfold fire_timeouts.
  now rewrite (proj1 (proj2 (basic_fold_run_timeout _ _))).
Qed.

Lemma basic_fire_next_id now w : next_id (fire_timeouts now w) = next_id w.
Proof.
  unfold fire_timeouts.
  now rewrite (proj1 (proj2 (proj2 (basic_fold_run_timeout _ _)))).
Qed.

Lemma basic_fire_gameActive now w : gameActive (fire_timeouts now w) = gameActive w.
Proof.
  unfold fire_timeouts.
  now rewrite (proj1 (proj2 (proj2 (proj2 (basic_fold_run_timeout _ _))))).
Qed.

Lemma basic_fire_attempts now w : attempts (fire_timeouts now w) = attempts w.
Proof.
  unfold fire_timeouts.
  now rewrite (proj2 (proj2 (proj2 (proj2 (basic_fold_run_timeout _ _))))).
Qed.

(** The nodes removed by a turn of the event loop. *)
Lemma basic_due_node now id ts :
  existsb (Nat.eqb id) (map node (filter (is_due now) ts)) = true <->
  exists t, In t ts /\ is_due now t = true /\ node t = id.
Proof.
  rewrite existsb_exists. split.
  - intros (i & Hi & E). apply in_map_iff in Hi. destruct Hi as (t & <- & Ht).
    apply filter_In in Ht. apply Nat.eqb_eq in E. exists t. intuition.
  - intros (t & Ht & Hd & <-). exists (node t). split.
    + apply in_map. apply filter_In. now split.
    + apply Nat.eqb_refl.
Qed.

(** A click on an active game, by cases. *)
Lemma basic_on_click_cases e w :
  on_click e w = w \/
  on_click e w = found e (count_attempt w) \/
  on_click e w = missed e (count_attempt w).
Proof.
  unfold on_click. destruct (gameActive w); simpl negb; cbv iota zeta.
  - destruct (Rle_dec _ _); auto.
  - auto.
Qed.

Lemma basic_wf_handle w ev : wf w -> wf (handle w ev).
Proof.
  intros [Hm Ht]. destruct ev as [f| | |f|e| | |now]; simpl.
  - unfold on_change. destruct (is_image f); now split.
  - now split.
  - now split.
  - unfold on_drop. destruct (is_image f); now split.
  - destruct (basic_on_click_cases e w) as [-> | [-> | ->]].
    + now split.
    + split; simpl.
      * apply Forall_app. split; [now apply Forall_lt_S|].
        constructor; [simpl; lia | constructor].
      * now apply Forall_lt_S.
    + split; simpl.
      * apply Forall_app. split; [now apply Forall_lt_S|].
        constructor; [simpl; lia | constructor].
      * apply Forall_app. split; [now apply Forall_lt_S|].
        constructor; [simpl; lia | constructor].
  - split; simpl; [constructor | exact Ht].
  - split; simpl; [constructor | exact Ht].
  - split.
    + rewrite basic_fire_markers, basic_fire_next_id.
      now apply Forall_remove_nodes.
    + rewrite basic_fire_timeouts_left, basic_fire_next_id.
      rewrite Forall_forall in *. intros t Hin.
      apply filter_In in Hin. now apply Ht.
Qed.

Lemma basic_reachable_wf w : reachable w -> wf w.
Proof.
  induction 1 as [w (_ & _ & Hm & Ht & _) | w ev _ IH].
  - split; [rewrite Hm | rewrite Ht]; constructor.
  - now apply basic_wf_handle.
Qed.

Lemma basic_run_app w evs evs' : run w (evs ++ evs') = run (run w evs) evs'.
Proof. apply fold_left_app. Qed.

Lemma basic_run_snoc w evs ev : run w (evs ++ [ev]) = handle (run w evs) ev.
Proof. now rewrite basic_run_app. Qed.

End BasicTimers.

Section BasicMarkers.

Import Basic.

Lemma basic_kept_handle m w ev :
  clears ev = false -> kept m w -> kept m (handle w ev).
Proof.
  intros Hc (Hin & Hlt & Hts).
  destruct ev as [f| | |f|e| | |now]; simpl; try discriminate Hc.
  - unfold on_change. destruct (is_image f); now repeat split.
  - now repeat split.
  - now repeat split.
  - unfold on_drop. destruct (is_image f); now repeat split.
  - destruct (basic_on_click_cases e w) as [-> | [-> | ->]].
    + now repeat split.
    + repeat split; simpl; [apply in_or_app; now left | lia | exact Hts].
    + repeat split; simpl; [apply in_or_app; now left | lia |].
      apply Forall_app. split; [exact Hts|].
      constructor; [simpl; lia | constructor].
  - repeat split.
    + rewrite basic_fire_markers. apply In_remove_nodes. split; [exact Hin|].
      intros Hn. apply in_map_iff in Hn. destruct Hn as (t & E & Ht).
      apply filter_In in Ht. rewrite Forall_forall in Hts.
      now apply (Hts t (proj1 Ht)).
    + now rewrite basic_fire_next_id.
    + rewrite basic_fire_timeouts_left. rewrite Forall_forall in *.
      intros t Ht. apply filter_In in Ht. now apply Hts.
Qed.

Lemma basic_kept_run m evs :
  forall w, no_clear evs = true -> kept m w -> kept m (run w evs).
Proof.
  induction evs as [|ev evs IH]; intros w Hn Hk; [exact Hk|].
  simpl in Hn. apply andb_true_iff in Hn. destruct Hn as [Hev Hn].
  simpl. apply IH; [exact Hn|].
  apply basic_kept_handle; [now apply negb_true_iff | exact Hk].
Qed.

Lemma basic_scheduled_handle id at_ w ev :
  scheduled id at_ w -> scheduled id at_ (handle w ev).
Proof.
  intros (Hlt & Hat).
  assert (Hnew : forall e b ms,
            attached id (ms ++ [new_marker (next_id w) e b]) = attached id ms).
  { intros e b ms. rewrite attached_app. simpl.
    replace (Nat.eqb (next_id w) id) with false; [now rewrite !orb_false_r|].
    symmetry. apply Nat.eqb_neq. lia. }
  destruct ev as [f| | |f|e| | |now]; simpl.
  - unfold on_change. destruct (is_image f); now split.
  - now split.
  - now split.
  - unfold on_drop. destruct (is_image f); now split.
  - destruct (basic_on_click_cases e w) as [-> | [-> | ->]].
    + now split.
    + split; simpl; [lia|]. now rewrite Hnew.
    + split; simpl; [lia|]. rewrite Hnew. intros H.
      apply in_or_app. left. now apply Hat.
  - split; simpl; [exact Hlt | discriminate].
  - split; simpl; [exact Hlt | discriminate].
  - split; [now rewrite basic_fire_next_id|].
    rewrite basic_fire_markers, basic_fire_timeouts_left, attached_remove_nodes.
    intros H. apply andb_true_iff in H. destruct H as [Ha Hd].
    apply filter_In. split; [now apply Hat|].
    destruct (is_due now (Pending at_ id)) eqn:E; [|reflexivity].
    apply negb_true_iff in Hd.
    assert (Hx : existsb (Nat.eqb id)
                   (map node (filter (is_due now) (timeouts w))) = true).
    { apply basic_due_node. exists (Pending at_ id). auto. }
    congruence.
Qed.

Lemma basic_scheduled_run id at_ evs :
  forall w, scheduled id at_ w -> scheduled id at_ (run w evs).
Proof.
  induction evs as [|ev evs IH]; intros w H; [exact H|].
  simpl. apply IH. now apply basic_scheduled_handle.
Qed.

Lemma basic_scheduled_removed id at_ w now :
  scheduled id at_ w -> at_ <= now ->
  attached id (markers (fire_timeouts now w)) = false.
Proof.
  intros (_ & Hat) Hnow.
  rewrite basic_fire_markers, attached_remove_nodes.
  destruct (attached id (markers w)) eqn:E; [|reflexivity].
  simpl. apply negb_false_iff. apply basic_due_node.
  exists (Pending at_ id). repeat split; [now apply Hat|].
  unfold is_due. simpl. now apply Z.leb_le.
Qed.

Lemma basic_miss_transition e w :
  reachable w -> gameActive w = true ->
  (radius batmanLocation < click_distance batmanLocation e)%R ->
  miss_transition e w (on_click e w).
Proof.
  intros Hr Ha Hd. apply basic_reachable_wf in Hr. destruct Hr as [Hm Ht].
  rewrite (basic_on_click_miss_eq e w Ha Hd).
  split; [reflexivity|]. split; [reflexivity|]. split; [exact Ha|].
  split; [reflexivity|]. split.
  - intros now Hnow.
    rewrite basic_fire_markers, attached_remove_nodes. simpl markers.
    rewrite attached_app. simpl. rewrite Nat.eqb_refl, !orb_true_r. simpl.
    apply negb_true_iff.
    destruct (existsb _ _) eqn:E; [|reflexivity]. exfalso.
    apply basic_due_node in E. destruct E as (t & Hin & Hdue & Hnode).
    simpl in Hin. apply in_app_or in Hin. destruct Hin as [Hin | [<- | []]].
    + rewrite Forall_forall in Ht. specialize (Ht t Hin). simpl in Ht. lia.
    + unfold is_due in Hdue. simpl in Hdue. apply Z.leb_le in Hdue. lia.
  - intros evs now Hnow.
    apply basic_scheduled_removed with (at_ := click_time e + 1000); [|exact Hnow].
    apply basic_scheduled_run. split; simpl; [lia|].
    intros _. apply in_or_app. right. now left.
Qed.

Lemma basic_hit_permanent e w :
  reachable w -> gameActive w = true ->
  (click_distance batmanLocation e <= radius batmanLocation)%R ->
  hit_marker_permanent e w (on_click e w).
Proof.
  intros Hr Ha Hd. apply basic_reachable_wf in Hr. destruct Hr as [Hm Ht].
  rewrite (basic_on_click_hit_eq e w Ha Hd).
  split; [reflexivity|]. split; [reflexivity|]. split.
  - intros evs Hn.
    apply (basic_kept_run (new_marker (next_id w) e true) evs); [exact Hn|].
    repeat split; simpl.
    + apply in_or_app. right. now left.
    + lia.
    + revert Ht. apply Forall_impl. intros t Hlt. simpl in Hlt. lia.
  - intros evs ev Hc. destruct ev; try discriminate Hc; reflexivity.
Qed.

End BasicMarkers.

(** ** Assisted: the timer table and the invariants *)

Section AssistedTimers.

Import Assisted.

Lemma assisted_fold_run_timeout ts w :
  markers (fold_left run_timeout ts w) = remove_nodes (map node ts) (markers w) /\
  timeouts (fold_left run_timeout ts w) = timeouts w /\
  next_id (fold_left run_timeout ts w) = next_id w /\
  gameActive (fold_left run_timeout ts w) = gameActive w /\
  attempts (fold_left run_timeout ts w) = attempts w /\
  batmanLocation (fold_left run_timeout ts w) = batmanLocation w.
Proof.
  revert w. induction ts as [|t ts IH]; intros w; simpl.
  - repeat split.
  - destruct (IH (run_timeout w t)) as (H1 & H2 & H3 & H4 & H5 & H6).
    rewrite H1, H2, H3, H4, H5, H6. repeat split.
Qed.

Lemma assisted_fire_markers now w :
  markers (fire_timeouts now w) =
  remove_nodes (map node (filter (is_due now) (timeouts w))) (markers w).
Proof. unfold fire_timeouts. now rewrite (proj1 (assisted_fold_run_timeout _ _)). Qed.

Lemma assisted_fire_timeouts_left now w :
  timeouts (fire_timeouts now w) =
  filter (fun t => negb (is_due now t)) (timeouts w).
Proof.
  unfold fire_timeouts.
  now rewrite (proj1 (proj2 (assisted_fold_run_timeout _ _))).
Qed.

Lemma assisted_fire_next_id now w : next_id (fire_timeouts now w) = next_id w.
Proof.
  unfold fire_timeouts.
  now rewrite (proj1 (proj2 (proj2 (assisted_fold_run_timeout _ _)))).
Qed.

Lemma assisted_fire_location now w :
  batmanLocation (fire_timeouts now w) = batmanLocation w.
Proof.
  unfold fire_timeouts.
  destruct (assisted_fold_run_timeout
              (filter (is_due now) (timeouts w))
              {| gameActive := gameActive w;
                 attempts := attempts w;
                 processing := processing w;
                 batmanLocation := batmanLocation w;
                 gameImage_src := gameImage_src w;
                 uploadStep_active := uploadStep_active w;
                 gameStep_active := gameStep_active w;
                 attemptsDisplay := attemptsDisplay w;
                 message_text := message_text w;
                 message_class := message_class w;
                 playAgainBtn_display := playAgainBtn_display w;
                 giveUpBtn_display := giveUpBtn_display w;
                 fileInput_value := fileInput_value w;
                 uploadArea_background := uploadArea_background w;
                 loadingOverlay := loadingOverlay w;
                 buttons_disabled := buttons_disabled w;
                 markers := markers w;
                 timeouts := filter (fun t => negb (is_due now t)) (timeouts w);
                 next_id := next_id w |})
    as (_ & _ & _ & _ & _ & H).
  exact H.
Qed.

Lemma assisted_due_node now id ts :
  existsb (Nat.eqb id) (map node (filter (is_due now) ts)) = true <->
  exists t, In t ts /\ is_due now t = true /\ node t = id.
Proof.
  rewrite existsb_exists. split.
  - intros (i & Hi & E). apply in_map_iff in Hi. destruct Hi as (t & <- & Ht).
    apply filter_In in Ht. apply Nat.eqb_eq in E. exists t. intuition.
  - intros (t & Ht & Hd & <-). exists (node t). split.
    + apply in_map. apply filter_In. now split.
    + apply Nat.eqb_refl.
Qed.

Lemma assisted_on_click_cases e w :
  on_click e w = w \/
  on_click e w = found e (count_attempt w) \/
  on_click e w = missed e (count_attempt w).
Proof.
  unfold on_click. destruct (gameActive w); simpl negb; cbv iota zeta.
  - destruct (Rle_dec _ _); auto.
  - auto.
Qed.

Lemma assisted_showLoading_nodes b text w : same_nodes w (showLoading b text w).
Proof. unfold showLoading. destruct (loadingOverlay w); now repeat split. Qed.

Lemma assisted_same_nodes_trans w1 w2 w3 :
  same_nodes w1 w2 -> same_nodes w2 w3 -> same_nodes w1 w3.
Proof.
  intros (A1 & A2 & A3) (B1 & B2 & B3). unfold same_nodes. now rewrite B1, B2, B3.
Qed.

Lemma assisted_finally_nodes w : same_nodes w (finally w).
Proof.
  unfold finally.
  destruct (assisted_showLoading_nodes false "Processing…" w) as (A & B & C).
  repeat split; simpl; assumption.
Qed.

Lemma assisted_process_nodes w : same_nodes w (processUploadedImage w).
Proof.
  unfold processUploadedImage. destruct (processing w); [now repeat split|].
  eapply assisted_same_nodes_trans; [|apply assisted_showLoading_nodes].
  now repeat split.
Qed.

Lemma assisted_resume_nodes out now w :
  same_nodes w (processUploadedImage_resume out now w).
Proof.
  unfold processUploadedImage_resume.
  destruct (processing w); simpl negb; cbv iota; [|now repeat split].
  destruct out as [text | [|] data].
  - eapply assisted_same_nodes_trans; [|apply assisted_finally_nodes].
    now repeat split.
  - destruct (data_batman data) as [b|].
    + eapply assisted_same_nodes_trans; [|apply assisted_finally_nodes].
      now repeat split.
    + eapply assisted_same_nodes_trans; [|apply assisted_finally_nodes].
      now repeat split.
  - eapply assisted_same_nodes_trans; [|apply assisted_finally_nodes].
    now repeat split.
Qed.

Lemma assisted_quiet_nodes w ev :
  match ev with
  | Ev_change _ | Ev_dragover | Ev_dragleave | Ev_drop _ | Ev_processed _ _ => True
  | _ => False
  end -> same_nodes w (handle w ev).
Proof.
  destruct ev as [f| | |f|out now|e|width height| | |now]; simpl; try tauto; intros _.
  - unfold on_change. destruct (is_image f);
      [apply assisted_process_nodes | now repeat split].
  - now repeat split.
  - now repeat split.
  - unfold on_drop. destruct (is_image f).
    + eapply assisted_same_nodes_trans; [|apply assisted_process_nodes].
      now repeat split.
    + now repeat split.
  - apply assisted_resume_nodes.
Qed.

Lemma assisted_giveUp_cases width height w :
  giveUp width height w = w \/
  (markers (giveUp width height w) =
     markers w ++ [{| mk_id := next_id w;
                      mk_left := Double.mul (x (batmanLocation w)) width;
                      mk_top := Double.mul (y (batmanLocation w)) height;
                      mk_success := true |}] /\
   timeouts (giveUp width height w) = timeouts w /\
   next_id (giveUp width height w) = S (next_id w)).
Proof.
  unfold giveUp. destruct (gameActive w); simpl negb; cbv iota zeta.
  - right. repeat split.
  - now left.
Qed.

Lemma assisted_wf_handle w ev : wf w -> wf (handle w ev).
Proof.
  intros [Hm Ht].
  destruct ev as [f| | |f|out now|e|width height| | |now];
    try (match goal with
         | |- wf (handle w ?ev) =>
             destruct (assisted_quiet_nodes w ev I) as (E1 & E2 & E3)
         end;
         unfold wf; rewrite E1, E2, E3; now split);
    simpl.
  - destruct (assisted_on_click_cases e w) as [-> | [-> | ->]].
    + now split.
    + split; simpl.
      * apply Forall_app. split; [now apply Forall_lt_S|].
        constructor; [simpl; lia | constructor].
      * now apply Forall_lt_S.
    + split; simpl.
      * apply Forall_app. split; [now apply Forall_lt_S|].
        constructor; [simpl; lia | constructor].
      * apply Forall_app. split; [now apply Forall_lt_S|].
        constructor; [simpl; lia | constructor].
  - destruct (assisted_giveUp_cases width height w) as [-> | (E1 & E2 & E3)].
    + now split.
    + unfold wf. rewrite E1, E2, E3. split.
      * apply Forall_app. split; [now apply Forall_lt_S|].
        constructor; [simpl; lia | constructor].
      * now apply Forall_lt_S.
  - split; simpl; [constructor | exact Ht].
  - split; simpl; [constructor | exact Ht].
  - split.
    + rewrite assisted_fire_markers, assisted_fire_next_id.
      now apply Forall_remove_nodes.
    + rewrite assisted_fire_timeouts_left, assisted_fire_next_id.
      rewrite Forall_forall in *. intros t Hin.
      apply filter_In in Hin. now apply Ht.
Qed.

Lemma assisted_reachable_wf w : reachable w -> wf w.
Proof.
  induction 1 as [w (_ & _ & _ & _ & Hm & Ht & _) | w ev _ IH].
  - split; [rewrite Hm | rewrite Ht]; constructor.
  - now apply assisted_wf_handle.
Qed.

End AssistedTimers.

Section AssistedMarkers.

Import Assisted.

Ltac quiet_event w :=
  match goal with
  | |- _ (handle w ?ev) =>
      destruct (assisted_quiet_nodes w ev I) as (E1 & E2 & E3)
  end.

Lemma assisted_kept_handle m w ev :
  clears ev = false -> kept m w -> kept m (handle w ev).
Proof.
  intros Hc (Hin & Hlt & Hts).
  destruct ev as [f| | |f|out now|e|width height| | |now];
    try discriminate Hc;
    try (quiet_event w; unfold kept; rewrite E1, E2, E3; now repeat split);
    simpl.
  - destruct (assisted_on_click_cases e w) as [-> | [-> | ->]].
    + now repeat split.
    + repeat split; simpl; [apply in_or_app; now left | lia | exact Hts].
    + repeat split; simpl; [apply in_or_app; now left | lia |].
      apply Forall_app. split; [exact Hts|].
      constructor; [simpl; lia | constructor].
  - destruct (assisted_giveUp_cases width height w) as [-> | (E1 & E2 & E3)].
    + now repeat split.
    + unfold kept. rewrite E1, E2, E3.
      repeat split; [apply in_or_app; now left | lia | exact Hts].
  - repeat split.
    + rewrite assisted_fire_markers. apply In_remove_nodes. split; [exact Hin|].
      intros Hn. apply in_map_iff in Hn. destruct Hn as (t & E & Ht).
      apply filter_In in Ht. rewrite Forall_forall in Hts.
      now apply (Hts t (proj1 Ht)).
    + now rewrite assisted_fire_next_id.
    + rewrite assisted_fire_timeouts_left. rewrite Forall_forall in *.
      intros t Ht. apply filter_In in Ht. now apply Hts.
Qed.

Lemma assisted_kept_run m evs :
  forall w, no_clear evs = true -> kept m w -> kept m (run w evs).
Proof.
  induction evs as [|ev evs IH]; intros w Hn Hk; [exact Hk|].
  simpl in Hn. apply andb_true_iff in Hn. destruct Hn as [Hev Hn].
  simpl. apply IH; [exact Hn|].
  apply assisted_kept_handle; [now apply negb_true_iff | exact Hk].
Qed.

Lemma assisted_scheduled_handle id at_ w ev :
  scheduled id at_ w -> scheduled id at_ (handle w ev).
Proof.
  intros (Hlt & Hat).
  assert (Hnew : forall m ms, mk_id m = next_id w ->
            attached id (ms ++ [m]) = attached id ms).
  { intros m ms Hid. rewrite attached_app. simpl. rewrite Hid.
    replace (Nat.eqb (next_id w) id) with false; [now rewrite !orb_false_r|].
    symmetry. apply Nat.eqb_neq. lia. }
  destruct ev as [f| | |f|out now|e|width height| | |now];
    try (quiet_event w; unfold scheduled; rewrite E1, E2, E3; now split);
    simpl.
  - destruct (assisted_on_click_cases e w) as [-> | [-> | ->]].
    + now split.
    + split; simpl; [lia|]. now rewrite Hnew.
    + split; simpl; [lia|]. rewrite Hnew by reflexivity. intros H.
      apply in_or_app. left. now apply Hat.
  - destruct (assisted_giveUp_cases width height w) as [-> | (E1 & E2 & E3)].
    + now split.
    + unfold scheduled. rewrite E1, E2, E3. split; [lia|].
      now rewrite Hnew.
  - split; simpl; [exact Hlt | discriminate].
  - split; simpl; [exact Hlt | discriminate].
  - split; [now rewrite assisted_fire_next_id|].
    rewrite assisted_fire_markers, assisted_fire_timeouts_left, attached_remove_nodes.
    intros H. apply andb_true_iff in H. destruct H as [Ha Hd].
    apply filter_In. split; [now apply Hat|].
    destruct (is_due now (Pending at_ id)) eqn:E; [|reflexivity].
    apply negb_true_iff in Hd.
    assert (Hx : existsb (Nat.eqb id)
                   (map node (filter (is_due now) (timeouts w))) = true).
    { apply assisted_due_node. exists (Pending at_ id). auto. }
    congruence.
Qed.

Lemma assisted_scheduled_run id at_ evs :
  forall w, scheduled id at_ w -> scheduled id at_ (run w evs).
Proof.
  induction evs as [|ev evs IH]; intros w H; [exact H|].
  simpl. apply IH. now apply assisted_scheduled_handle.
Qed.

Lemma assisted_scheduled_removed id at_ w now :
  scheduled id at_ w -> at_ <= now ->
  attached id (markers (fire_timeouts now w)) = false.
Proof.
  intros (_ & Hat) Hnow.
  rewrite assisted_fire_markers, attached_remove_nodes.
  destruct (attached id (markers w)) eqn:E; [|reflexivity].
  simpl. apply negb_false_iff. apply assisted_due_node.
  exists (Pending at_ id). repeat split; [now apply Hat|].
  unfold is_due. simpl. now apply Z.leb_le.
Qed.

Lemma assisted_miss_transition e w :
  reachable w -> gameActive w = true ->
  (radius (batmanLocation w) < click_distance (batmanLocation w) e)%R ->
  miss_transition e w (on_click e w).
Proof.
  intros Hr Ha Hd. apply assisted_reachable_wf in Hr. destruct Hr as [Hm Ht].
  rewrite (assisted_on_click_miss_eq e w Ha Hd).
  split; [reflexivity|]. split; [reflexivity|]. split; [exact Ha|].
  split; [reflexivity|]. split.
  - intros now Hnow.
    rewrite assisted_fire_markers, attached_remove_nodes. simpl markers.
    rewrite attached_app. simpl. rewrite Nat.eqb_refl, !orb_true_r. simpl.
    apply negb_true_iff.
    destruct (existsb _ _) eqn:E; [|reflexivity]. exfalso.
    apply assisted_due_node in E. destruct E as (t & Hin & Hdue & Hnode).
    simpl in Hin. apply in_app_or in Hin. destruct Hin as [Hin | [<- | []]].
    + rewrite Forall_forall in Ht. specialize (Ht t Hin). simpl in Ht. lia.
    + unfold is_due in Hdue. simpl in Hdue. apply Z.leb_le in Hdue. lia.
  - intros evs now Hnow.
    apply assisted_scheduled_removed with (at_ := click_time e + 1000);
      [|exact Hnow].
    apply assisted_scheduled_run. split; simpl; [lia|].
    intros _. apply in_or_app. right. now left.
Qed.

Lemma assisted_hit_permanent e w :
  reachable w -> gameActive w = true ->
  (click_distance (batmanLocation w) e <= radius (batmanLocation w))%R ->
  hit_marker_permanent e w (on_click e w).
Proof.
  intros Hr Ha Hd. apply assisted_reachable_wf in Hr. destruct Hr as [Hm Ht].
  rewrite (assisted_on_click_hit_eq e w Ha Hd).
  split; [reflexivity|]. split; [reflexivity|]. split.
  - intros evs Hn.
    apply (assisted_kept_run (new_marker (next_id w) e true) evs); [exact Hn|].
    repeat split; simpl.
    + apply in_or_app. right. now left.
    + lia.
    + revert Ht. apply Forall_impl. intros t Hlt. simpl in Hlt. lia.
  - intros evs ev Hc. destruct ev; try discriminate Hc; reflexivity.
Qed.

End AssistedMarkers.

(** C4. A miss-click on an active game is a self-transition: the
    attempts counter goes up by exactly one, a miss marker is appended
    at the click point, the game stays active; the miss marker is
    transient (its removal is scheduled 1000 ms after the click: it is
    still on the page before that time and off the page once the timers
    have run at or after it, whatever happened in between), while the
    marker of a hit is permanent: no timeout refers to it and it stays on
    the page until playAgain or resetGame clears the markers.  Proved
    for the first script and for the server-assisted script, from every
    state the page can reach. *)
Theorem miss_click_self_transition
    (e : click_event) (wb : Basic.world) (wa : Assisted.world)
    (Rb : Basic.reachable wb) (Ra : Assisted.reachable wa)
    (Hb : Basic.gameActive wb = true)
    (Ha : Assisted.gameActive wa = true) :
  ((radius Basic.batmanLocation < click_distance Basic.batmanLocation e)%R ->
     Basic.miss_transition e wb (Basic.on_click e wb)) /\
  ((click_distance Basic.batmanLocation e <= radius Basic.batmanLocation)%R ->
     Basic.hit_marker_permanent e wb (Basic.on_click e wb)) /\
  ((radius (Assisted.batmanLocation wa) <
    click_distance (Assisted.batmanLocation wa) e)%R ->
     Assisted.miss_transition e wa (Assisted.on_click e wa)) /\
  ((click_distance (Assisted.batmanLocation wa) e <=
    radius (Assisted.batmanLocation wa))%R ->
     Assisted.hit_marker_permanent e wa (Assisted.on_click e wa)).
Proof.
  split; [|split; [|split]]; intros H.
  - now apply basic_miss_transition.
  - now apply basic_hit_permanent.
  - now apply assisted_miss_transition.
  - now apply assisted_hit_permanent.
Qed.

(** The sample games are states the pages reach. *)
Lemma basic_playing_reachable : Basic.reachable Samples.basic_playing.
Proof.
  apply (Basic.reach_handle Samples.basic_page (Basic.Ev_change (Some Samples.png))).
  apply Basic.reach_loaded. repeat split.
Qed.

Lemma assisted_playing_reachable r : Assisted.reachable (Samples.assisted_playing r).
Proof.
  apply (Assisted.reach_handle
           (Assisted.handle Samples.assisted_page
              (Assisted.Ev_change (Some Samples.png)))
           (Assisted.Ev_processed
              (Assisted.Process_result true (Samples.placed r)) 5)).
  apply Assisted.reach_handle.
  apply Assisted.reach_loaded. repeat split.
Qed.

Lemma miss_click_self_transition_witness :
  Basic.miss_transition (Samples.click_at 300 300 7000) Samples.basic_playing
    (Basic.on_click (Samples.click_at 300 300 7000) Samples.basic_playing) /\
  Basic.hit_marker_permanent (Samples.click_at 400 300 7000) Samples.basic_playing
    (Basic.on_click (Samples.click_at 400 300 7000) Samples.basic_playing).
Proof.
  split.
  - apply (miss_click_self_transition (Samples.click_at 300 300 7000)
             Samples.basic_playing (Samples.assisted_playing (Some 50%R))
             basic_playing_reachable (assisted_playing_reachable _)
             eq_refl eq_refl).
    rewrite far_click_distance. simpl. lra.
  - apply (miss_click_self_transition (Samples.click_at 400 300 7000)
             Samples.basic_playing (Samples.assisted_playing (Some 50%R))
             basic_playing_reachable (assisted_playing_reachable _)
             eq_refl eq_refl).
    rewrite centre_click_distance. simpl. lra.
Defined.

(** ** Timed: the timer table and the invariants *)

Section TimedTimers.

Import Timed.

Lemma timed_same_round_refl w : same_round w w.
Proof. now repeat split. Qed.

Lemma timed_same_round_trans w1 w2 w3 :
  same_round w1 w2 -> same_round w2 w3 -> same_round w1 w3.
Proof.
  intros (A1 & A2 & A3 & A4 & A5 & A6 & A7 & A8 & A9)
         (B1 & B2 & B3 & B4 & B5 & B6 & B7 & B8 & B9).
  unfold same_round.
  now rewrite B1, B2, B3, B4, B5, B6, B7, B8, B9.
Qed.

Lemma timed_run_timeout_same w t :
  same_round w (run_timeout w t) /\
  markers (run_timeout w t) =
    remove_nodes (removed_nodes [t]) (markers w).
Proof.
  unfold run_timeout, removed_nodes, removes. simpl.
  destruct (job t); simpl; now repeat split.
Qed.

Lemma timed_removed_nodes_cons t ts :
  removed_nodes (t :: ts) = removed_nodes [t] ++ removed_nodes ts.
Proof. unfold removed_nodes. simpl. now rewrite app_nil_r. Qed.

Lemma remove_nodes_app ids ids' ms :
  remove_nodes (ids ++ ids') ms = remove_nodes ids' (remove_nodes ids ms).
Proof. apply fold_left_app. Qed.

Lemma timed_fold_run_timeout ts w :
  same_round w (fold_left run_timeout ts w) /\
  markers (fold_left run_timeout ts w) =
    remove_nodes (removed_nodes ts) (markers w).
Proof.
  revert w. induction ts as [|t ts IH]; intros w.
  - split; [apply timed_same_round_refl | reflexivity].
  - simpl fold_left.
    destruct (timed_run_timeout_same w t) as [S1 M1].
    destruct (IH (run_timeout w t)) as [S2 M2].
    split; [eapply timed_same_round_trans; eassumption|].
    now rewrite M2, M1, (timed_removed_nodes_cons t ts), remove_nodes_app.
Qed.

Lemma timed_fire_fields now w :
  gameActive (fire_timeouts now w) = gameActive w /\
  clicks (fire_timeouts now w) = clicks w /\
  startTime (fire_timeouts now w) = startTime w /\
  timerInterval (fire_timeouts now w) = timerInterval w /\
  intervals (fire_timeouts now w) = intervals w /\
  cleared (fire_timeouts now w) = cleared w /\
  timerDisplay (fire_timeouts now w) = timerDisplay w /\
  next_id (fire_timeouts now w) = next_id w /\
  timeouts (fire_timeouts now w) =
    filter (fun t => negb (is_due now t)) (timeouts w) /\
  markers (fire_timeouts now w) =
    remove_nodes (removed_nodes (filter (is_due now) (timeouts w))) (markers w).
Proof.
  unfold fire_timeouts.
  destruct (timed_fold_run_timeout (filter (is_due now) (timeouts w))
              (set_timeouts (filter (fun t => negb (is_due now t)) (timeouts w)) w))
    as [(A1 & A2 & A3 & A4 & A5 & A6 & A7 & A8 & A9) M].
  rewrite A1, A2, A3, A4, A5, A6, A7, A8, A9, M. now repeat split.
Qed.

Lemma timed_removed_node_in id ts :
  In id (removed_nodes ts) <-> exists t, In t ts /\ removes t = Some id.
Proof.
  unfold removed_nodes. rewrite in_flat_map. split.
  - intros (t & Ht & Hin). exists t. split; [exact Ht|].
    destruct (removes t); simpl in Hin; [|contradiction].
    destruct Hin as [-> | []]. reflexivity.
  - intros (t & Ht & E). exists t. split; [exact Ht|].
    rewrite E. now left.
Qed.

Lemma timed_on_click_cases e w :
  on_click e w = w \/
  (gameActive w = true /\ on_click e w = found e (count_click w)) \/
  (gameActive w = true /\ on_click e w = missed e (count_click w)).
Proof.
  unfold on_click. destruct (gameActive w); simpl negb; cbv iota zeta.
  - destruct (Rle_dec _ _); auto.
  - auto.
Qed.

Lemma timed_on_tick_cases h now w :
  on_tick h now w = w \/
  exists t, on_tick h now w = updateTimer now w /\ startTime_truthy w = Some t.
Proof.
  unfold on_tick. destruct (live h w); [|now left].
  destruct (startTime_truthy w) as [t|] eqn:E.
  - right. now exists t.
  - left. unfold updateTimer. now rewrite E.
Qed.

Lemma timed_updateTimer_same now w :
  gameActive (updateTimer now w) = gameActive w /\
  clicks (updateTimer now w) = clicks w /\
  timerInterval (updateTimer now w) = timerInterval w /\
  intervals (updateTimer now w) = intervals w /\
  cleared (updateTimer now w) = cleared w /\
  markers (updateTimer now w) = markers w /\
  timeouts (updateTimer now w) = timeouts w /\
  next_id (updateTimer now w) = next_id w.
Proof.
  unfold updateTimer. destruct (startTime_truthy w); now repeat split.
Qed.

Lemma timed_on_tick_same h now w :
  gameActive (on_tick h now w) = gameActive w /\
  clicks (on_tick h now w) = clicks w /\
  timerInterval (on_tick h now w) = timerInterval w /\
  intervals (on_tick h now w) = intervals w /\
  cleared (on_tick h now w) = cleared w /\
  markers (on_tick h now w) = markers w /\
  timeouts (on_tick h now w) = timeouts w /\
  next_id (on_tick h now w) = next_id w.
Proof.
  unfold on_tick. destruct (live h w);
    [apply timed_updateTimer_same | now repeat split].
Qed.

Lemma timed_resume_cases out now w :
  let w' := uploadAndProcess_resume out now w in
  gameActive w' = gameActive w /\
  clicks w' = clicks w /\
  timerInterval w' = timerInterval w /\
  intervals w' = intervals w /\
  cleared w' = cleared w /\
  markers w' = markers w /\
  next_id w' = next_id w /\
  (timeouts w' = timeouts w \/
   timeouts w' = timeouts w ++ [Pending (now + 1000) Show_ready]).
Proof.
  unfold uploadAndProcess_resume. destruct (in_flight w); simpl.
  - repeat split. now left.
  - repeat split. destruct out as [|[|] path]; auto.
Qed.

Lemma timed_wf_same w w' :
  markers w' = markers w -> timeouts w' = timeouts w -> next_id w' = next_id w ->
  wf w -> wf w'.
Proof. unfold wf. now intros -> -> ->. Qed.

Lemma timed_running_same w w' :
  gameActive w' = gameActive w -> timerInterval w' = timerInterval w ->
  intervals w' = intervals w -> running w -> running w'.
Proof. unfold running. now intros -> -> ->. Qed.

Lemma timed_wf_append (w w' : world) m t :
  markers w' = markers w ++ [m] -> mk_id m = next_id w ->
  timeouts w' = timeouts w ++ [t] ->
  match removes t with Some id => id = next_id w | None => True end ->
  next_id w' = S (next_id w) ->
  wf w -> wf w'.
Proof.
  unfold wf. intros -> Hid -> Ht -> [Hm Hts]. split.
  - apply Forall_app. split; [now apply Forall_lt_S|].
    constructor; [lia | constructor].
  - apply Forall_app. split.
    + revert Hts. apply Forall_impl. intros a. destruct (removes a); [lia | trivial].
    + constructor; [|constructor]. destruct (removes t); [lia | trivial].
Qed.

Lemma timed_inv_handle w ev : inv w -> inv (handle w ev).
Proof.
  intros Hinv. pose proof Hinv as (Hwf & Hrun & Hc).
  destruct ev as [f| | |f|out now|now|h now|e| |now]; simpl.
  - unfold on_change. destruct (is_image f); exact Hinv.
  - exact Hinv.
  - exact Hinv.
  - unfold on_drop. destruct (is_image f); exact Hinv.
  - destruct (timed_resume_cases out now w)
      as (A1 & A2 & A3 & A4 & A5 & A6 & A7 & A8).
    split; [|split].
    + destruct Hwf as [Hm Hts]. unfold wf. rewrite A6, A7. split; [exact Hm|].
      destruct A8 as [-> | ->]; [exact Hts|].
      apply Forall_app. split; [exact Hts|]. constructor; [exact I | constructor].
    + now apply (timed_running_same w).
    + now rewrite A2.
  - split; [exact Hwf|]. split; [|simpl; lia].
    intros _. exists (next_handle w). split; [reflexivity|].
    simpl. apply in_or_app. right. now left.
  - destruct (timed_on_tick_same h now w)
      as (A1 & A2 & A3 & A4 & A5 & A6 & A7 & A8).
    split; [|split].
    + now apply (timed_wf_same w).
    + now apply (timed_running_same w).
    + now rewrite A2.
  - destruct (timed_on_click_cases e w) as [-> | [[Ha ->] | [Ha ->]]].
    + exact Hinv.
    + split; [|split].
      * apply (timed_wf_append (count_click w) _
                 (new_marker (next_id w) e true)
                 (Pending (click_time e + 1000)
                    (Show_results
                       (elapsed_seconds (click_time e) (startTime w))
                       (calculateScore (clicks w + 1)
                          (elapsed_seconds (click_time e) (startTime w))))));
          try reflexivity; try exact I; exact Hwf.
      * intros H. discriminate H.
      * simpl. lia.
    + split; [|split].
      * apply (timed_wf_append (count_click w) _
                 (new_marker (next_id w) e false)
                 (Pending (click_time e + 1000) (Remove_marker (next_id w))));
          try reflexivity; exact Hwf.
      * exact Hrun.
      * simpl. lia.
  - split; [|split].
    + destruct Hwf as [Hm Hts]. split; simpl; [constructor | exact Hts].
    + intros H. discriminate H.
    + simpl. lia.
  - destruct (timed_fire_fields now w)
      as (A1 & A2 & A3 & A4 & A5 & A6 & A7 & A8 & A9 & A10).
    split; [|split].
    + destruct Hwf as [Hm Hts]. unfold wf. rewrite A8, A9, A10. split.
      * now apply Forall_remove_nodes.
      * rewrite Forall_forall in *. intros t Ht.
        apply filter_In in Ht. now apply Hts.
    + now apply (timed_running_same w).
    + now rewrite A2.
Qed.

Lemma timed_reachable_inv w : reachable w -> inv w.
Proof.
  induction 1 as [w (Ha & Hc & _ & _ & _ & Hm & _ & _ & Ht & _) | w ev _ IH].
  - split; [|split].
    + split; [rewrite Hm | rewrite Ht]; constructor.
    + intros H. congruence.
    + lia.
  - now apply timed_inv_handle.
Qed.

End TimedTimers.

Section TimedRound.

Import Timed.

Lemma timed_kept_same m w w' :
  markers w' = markers w -> timeouts w' = timeouts w -> next_id w' = next_id w ->
  kept m w -> kept m w'.
Proof. unfold kept. now intros -> -> ->. Qed.

Lemma timed_kept_handle m w ev :
  ev <> Ev_resetGame -> kept m w -> kept m (handle w ev).
Proof.
  intros Hev Hk. pose proof Hk as (Hin & Hlt & Hts).
  destruct ev as [f| | |f|out now|now|h now|e| |now]; simpl.
  - unfold on_change. destruct (is_image f); exact Hk.
  - exact Hk.
  - exact Hk.
  - unfold on_drop. destruct (is_image f); exact Hk.
  - destruct (timed_resume_cases out now w)
      as (_ & _ & _ & _ & _ & A6 & A7 & A8).
    unfold kept. rewrite A6, A7. repeat split; trivial.
    destruct A8 as [-> | ->]; [exact Hts|].
    apply Forall_app. split; [exact Hts|].
    constructor; [discriminate | constructor].
  - exact Hk.
  - destruct (timed_on_tick_same h now w)
      as (_ & _ & _ & _ & _ & A6 & A7 & A8).
    now apply (timed_kept_same m w).
  - destruct (timed_on_click_cases e w) as [-> | [[Ha ->] | [Ha ->]]].
    + exact Hk.
    + repeat split; simpl; [apply in_or_app; now left | lia |].
      apply Forall_app. split; [exact Hts|].
      constructor; [discriminate | constructor].
    + repeat split; simpl; [apply in_or_app; now left | lia |].
      apply Forall_app. split; [exact Hts|].
      constructor; [|constructor].
      unfold removes. simpl. intros E. injection E as E. lia.
  - congruence.
  - destruct (timed_fire_fields now w)
      as (_ & _ & _ & _ & _ & _ & _ & A8 & A9 & A10).
    unfold kept. rewrite A8, A9, A10. repeat split; trivial.
    + apply In_remove_nodes. split; [exact Hin|].
      intros Hn. apply timed_removed_node_in in Hn.
      destruct Hn as (t & Ht & E). apply filter_In in Ht.
      rewrite Forall_forall in Hts. now apply (Hts t (proj1 Ht)).
    + rewrite Forall_forall in *. intros t Ht.
      apply filter_In in Ht. now apply Hts.
Qed.

Lemma timed_kept_run m evs :
  forall w, no_reset evs = true -> kept m w -> kept m (run w evs).
Proof.
  induction evs as [|ev evs IH]; intros w Hn Hk; [exact Hk|].
  simpl in Hn. apply andb_true_iff in Hn. destruct Hn as [Hev Hn].
  simpl. apply IH; [exact Hn|].
  apply timed_kept_handle; [|exact Hk].
  intros ->. discriminate Hev.
Qed.

Lemma timed_no_timer_no_tick h now w :
  intervals w = [] -> on_tick h now w = w.
Proof. intros H. unfold on_tick, live. now rewrite H. Qed.

Lemma timed_stopped_handle w0 w ev :
  passive ev = true -> stopped w0 w ->
  stopped w0 (handle w ev).
Proof.
  intros Hp Hs. pose proof Hs as (Ha & Hc & Hi & Hcl & Hd).
  destruct ev as [f| | |f|out now|now|h now|e| |now];
    try discriminate Hp; simpl.
  - now rewrite timed_no_timer_no_tick.
  - now rewrite timed_on_click_inactive.
  - destruct (timed_fire_fields now w)
      as (A1 & A2 & _ & _ & A5 & A6 & A7 & _).
    unfold stopped. now rewrite A1, A2, A5, A6, A7.
Qed.

Lemma timed_stopped_run w0 evs :
  forall w, forallb passive evs = true -> stopped w0 w -> stopped w0 (run w evs).
Proof.
  induction evs as [|ev evs IH]; intros w Hp Hs; [exact Hs|].
  simpl in Hp. apply andb_true_iff in Hp. destruct Hp as [Hev Hp].
  simpl. apply IH; [exact Hp|]. now apply timed_stopped_handle.
Qed.

Lemma timed_idle_run evs :
  forall w, forallb click_or_tick evs = true ->
            gameActive w = false -> intervals w = [] -> run w evs = w.
Proof.
  induction evs as [|ev evs IH]; intros w Hp Ha Hi; [reflexivity|].
  simpl in Hp. apply andb_true_iff in Hp. destruct Hp as [Hev Hp].
  simpl.
  assert (E : handle w ev = w).
  { destruct ev; try discriminate Hev; simpl.
    - now apply timed_no_timer_no_tick.
    - now apply timed_on_click_inactive. }
  rewrite E. now apply IH.
Qed.

Lemma timed_without_only h hs :
  (forall k, In k hs -> k = h) -> without (Some h) hs = [].
Proof.
  intros H. unfold without. induction hs as [|k hs IH]; [reflexivity|].
  simpl. rewrite (H k (or_introl eq_refl)), Pos.eqb_refl. simpl.
  apply IH. intros k' Hk'. apply H. now right.
Qed.

(** [timer_ok] is what [startGame] establishes when no timer is
    running, and what every other handler keeps. *)
Lemma timed_timer_ok_startGame now w :
  intervals w = [] -> timer_ok (startGame now w).
Proof.
  intros H k Hk. simpl in Hk. rewrite H in Hk. simpl in Hk.
  destruct Hk as [<- | []]. reflexivity.
Qed.

Lemma timed_timer_ok_without h w hs :
  timer_ok w -> forall k, In k (without h hs) -> In k hs.
Proof.
  intros _ k. destruct h as [h|]; simpl; [|trivial].
  intros Hk. apply filter_In in Hk. tauto.
Qed.

Lemma timed_timer_ok_handle w ev :
  (forall now, ev <> Ev_startGame now) -> timer_ok w -> timer_ok (handle w ev).
Proof.
  intros Hev Hok.
  destruct ev as [f| | |f|out now|now|h now|e| |now]; simpl.
  - unfold on_change. destruct (is_image f); exact Hok.
  - exact Hok.
  - exact Hok.
  - unfold on_drop. destruct (is_image f); exact Hok.
  - destruct (timed_resume_cases out now w) as (_ & _ & A3 & A4 & _).
    unfold timer_ok. now rewrite A3, A4.
  - now elim (Hev now).
  - destruct (timed_on_tick_same h now w) as (_ & _ & A3 & A4 & _).
    unfold timer_ok. now rewrite A3, A4.
  - destruct (timed_on_click_cases e w) as [-> | [[Ha ->] | [Ha ->]]].
    + exact Hok.
    + intros k Hk. simpl in Hk. simpl.
      apply Hok. now apply (timed_timer_ok_without (timerInterval w) w).
    + exact Hok.
  - intros k Hk. simpl in Hk. exfalso.
    destruct (timerInterval w) as [h|] eqn:E; simpl in Hk.
    + apply filter_In in Hk. destruct Hk as [Hk Hne].
      pose proof (Hok k Hk) as Hk'. rewrite E in Hk'. injection Hk' as ->.
      now rewrite Pos.eqb_refl in Hne.
    + pose proof (Hok k Hk) as Hk'. rewrite E in Hk'. discriminate Hk'.
  - destruct (timed_fire_fields now w) as (_ & _ & _ & A4 & A5 & _).
    unfold timer_ok. now rewrite A4, A5.
Qed.

End TimedRound.

(** What a hit does when the only live interval is the one held in
    [timerInterval] ([timer_ok]: startGame began the round with no other
    timer running).  The running timer is stopped, by exactly one
    clearInterval (no later click, tick or timeout adds another); the
    score is computed and handed to the results; the success marker is
    appended and no timeout ever removes it; after the transition no
    click changes anything (the handler returns the state as it is), the
    game stays inactive with the same count, and the elapsed time stops:
    no interval is live, so no tick changes the timer display. *)
Theorem hit_click_is_terminal
    (e : click_event) (w : Timed.world)
    (Hreach : Timed.reachable w)
    (Htimer : Timed.timer_ok w)
    (Hactive : Timed.gameActive w = true)
    (Hhit : (click_distance Timed.batmanLocation e <=
             radius Timed.batmanLocation)%R) :
  Timed.round_over e w (Timed.on_click e w).
Proof.
  apply timed_reachable_inv in Hreach.
  destruct Hreach as ((Hm & Hts) & Hrun & Hc).
  destruct (Hrun Hactive) as (h & Hh & Hin).
  assert (Hnone : Timed.without (Timed.timerInterval w) (Timed.intervals w) = []).
  { rewrite Hh. apply timed_without_only. intros k Hk.
    specialize (Htimer k Hk). congruence. }
  rewrite (timed_on_click_hit_eq e w Hactive Hhit).
  unfold Timed.round_over. cbv zeta.
  split; [|split; [|split; [|split; [|split; [|split; [|split]]]]]].
  - (* the timer *)
    exists h. split; [exact Hh|]. split; [|split].
    + unfold Timed.live. apply existsb_exists. exists h. split; [exact Hin|].
      apply Pos.eqb_refl.
    + unfold Timed.live. simpl. now rewrite Hnone.
    + simpl. now rewrite Hh.
  - exact Hnone.
  - reflexivity.
  - (* the score *)
    reflexivity.
  - (* the success marker *)
    reflexivity.
  - intros evs Hn.
    apply (timed_kept_run (new_marker (Timed.next_id w) e true) evs);
      [exact Hn|].
    repeat split; simpl.
    + apply in_or_app. right. now left.
    + lia.
    + apply Forall_app. split.
      * revert Hts. apply Forall_impl. intros t.
        destruct (Timed.removes t); [|discriminate].
        intros Hlt E. injection E as E. lia.
      * constructor; [discriminate | constructor].
  - (* later clicks and ticks *)
    intros evs Hp.
    apply timed_idle_run; [exact Hp | reflexivity | exact Hnone].
  - intros evs Hp.
    assert (Hs : Timed.stopped (Timed.found e (Timed.count_click w))
                   (Timed.run (Timed.found e (Timed.count_click w)) evs)).
    { apply timed_stopped_run; [exact Hp|]. now repeat split. }
    split; [exact Hs|]. destruct Hs as (Hs1 & _ & Hs3 & _). split.
    + intros e'. now apply timed_on_click_inactive.
    + intros h' now. now apply timed_no_timer_no_tick.
Qed.

Lemma timed_playing_reachable : Timed.reachable Samples.timed_playing.
Proof.
  change Samples.timed_playing with
    (Timed.handle (Timed.handle (Timed.handle (Timed.handle Samples.timed_page
       (Timed.Ev_change (Some Samples.png)))
       (Timed.Ev_uploaded
          (Timed.Upload_result true "/uploaded-images/upload-1.png") 0))
       (Timed.Ev_timers 1000))
       (Timed.Ev_startGame 2000)).
  repeat apply Timed.reach_handle.
  apply Timed.reach_loaded. repeat split.
Qed.

Lemma timed_playing_timer_ok : Timed.timer_ok Samples.timed_playing.
Proof.
  intros h Hin. vm_compute in Hin. destruct Hin as [<- | []]. reflexivity.
Qed.

Lemma hit_click_is_terminal_witness :
  Timed.round_over (Samples.click_at 400 300 22500) Samples.timed_playing
    (Timed.on_click (Samples.click_at 400 300 22500) Samples.timed_playing).
Proof.
  apply (hit_click_is_terminal (Samples.click_at 400 300 22500)
           Samples.timed_playing
           timed_playing_reachable timed_playing_timer_ok eq_refl
           (timed_centre_click_hits 22500)).
Defined.

Lemma timed_run_reachable (evs : list Timed.event) :
  forall w, Timed.reachable w -> Timed.reachable (Timed.run w evs).
Proof.
  induction evs as [|ev evs IH]; intros w Hr; [exact Hr|].
  simpl. apply IH. now apply Timed.reach_handle.
Qed.

(** C5, where the code departs from it.  startGame does not clear a
    timer that is running.  Two files are selected on the upload step;
    the first answer brings up the ready step and the game is started;
    the second answer brings the ready step up again during that game,
    and startGame is called a second time: two intervals are live and
    timerInterval holds the newer one.  The hit that wins this round
    ends it and calls clearInterval once, on the newer handle; the older
    interval stays live, and its next tick moves the timer display on,
    from 0:00 to 1:05 a minute later: the elapsed time goes on
    accumulating after the round is won. *)
Theorem win_leaves_older_timer_running :
  let e := Samples.click_at 400 300 9000 in
  let w := Samples.timed_restarted in
  let won := Timed.on_click e w in
  Timed.reachable w /\
  (Timed.gameActive Samples.timed_ready_again = true /\
   Timed.readyStep_active Samples.timed_ready_again = true) /\
  (Timed.gameActive w = true /\
   Timed.timerInterval w = Some 2%positive /\
   Timed.intervals w = [1; 2]%positive /\
   Timed.cleared w = []) /\
  (click_distance Timed.batmanLocation e <= radius Timed.batmanLocation)%R /\
  Timed.gameActive won = false /\
  Timed.cleared won = [Some 2%positive] /\
  Timed.intervals won = [1%positive] /\
  Timed.live 1 won = true /\
  Timed.timerDisplay won = "0:00" /\
  Timed.timerDisplay (Timed.on_tick 1 70000 won) = "1:05" /\
  ~ Timed.round_over e w won.
Proof.
  intros e w won.
  assert (Hhit : (click_distance Timed.batmanLocation e <=
                  radius Timed.batmanLocation)%R)
    by apply timed_centre_click_hits.
  assert (E : won = Timed.found e (Timed.count_click w)).
  { subst won. now apply timed_on_click_hit_eq. }
  split.
  { subst w. unfold Samples.timed_restarted, Samples.timed_ready_again.
    do 2 apply timed_run_reachable. apply Timed.reach_loaded. repeat split. }
  split; [split; reflexivity|].
  split; [repeat split|].
  split; [exact Hhit|].
  rewrite E.
  split; [reflexivity|]. split; [reflexivity|]. split; [reflexivity|].
  split; [reflexivity|]. split; [reflexivity|]. split; [reflexivity|].
  intros (_ & Hnone & _). discriminate Hnone.
Qed.

(** ** Play again *)

Section PlayAgain.

Lemma assisted_giveUp_location width height w :
  Assisted.batmanLocation (Assisted.giveUp width height w) =
  Assisted.batmanLocation w.
Proof. unfold Assisted.giveUp. now destruct (Assisted.gameActive w). Qed.

End PlayAgain.

(** C6. playAgain removes every marker, sets the attempts back to 0,
    makes the game active again and leaves the target as it is: in the
    assisted script no field of batmanLocation changes (also when
    playAgain follows giveUp), in the first script the target is a
    constant; in both the next click is tested against the same target
    and radius as before.  This holds from every state, the terminal
    ones included. *)
Theorem play_again_keeps_placement
    (wb : Basic.world) (wa : Assisted.world) (width height : R)
    (e : click_event) :
  (Basic.markers (Basic.playAgain wb) = [] /\
   Basic.attempts (Basic.playAgain wb) = 0 /\
   Basic.gameActive (Basic.playAgain wb) = true /\
   decided_by_distance
     (Basic.hit_outcome (Basic.playAgain wb)
        (Basic.on_click e (Basic.playAgain wb)))
     (Basic.miss_outcome (Basic.playAgain wb)
        (Basic.on_click e (Basic.playAgain wb)))
     (click_distance Basic.batmanLocation e) (radius Basic.batmanLocation)) /\
  (Assisted.markers (Assisted.playAgain wa) = [] /\
   Assisted.attempts (Assisted.playAgain wa) = 0 /\
   Assisted.gameActive (Assisted.playAgain wa) = true /\
   Assisted.batmanLocation (Assisted.playAgain wa) = Assisted.batmanLocation wa /\
   decided_by_distance
     (Assisted.hit_outcome (Assisted.playAgain wa)
        (Assisted.on_click e (Assisted.playAgain wa)))
     (Assisted.miss_outcome (Assisted.playAgain wa)
        (Assisted.on_click e (Assisted.playAgain wa)))
     (click_distance (Assisted.batmanLocation wa) e)
     (radius (Assisted.batmanLocation wa))) /\
  (let again := Assisted.playAgain (Assisted.giveUp width height wa) in
   Assisted.markers again = [] /\
   Assisted.attempts again = 0 /\
   Assisted.gameActive again = true /\
   Assisted.batmanLocation again = Assisted.batmanLocation wa).
Proof.
  split; [|split].
  - split; [reflexivity|]. split; [reflexivity|]. split; [reflexivity|].
    now apply (basic_click_decided e (Basic.playAgain wb)).
  - split; [reflexivity|]. split; [reflexivity|]. split; [reflexivity|].
    split; [reflexivity|].
    now apply (assisted_click_decided e (Assisted.playAgain wa)).
  - cbv zeta. repeat split. simpl. apply assisted_giveUp_location.
Qed.

(** ** Reset *)

Section Reset.

Lemma timed_cleared_not_live h hs :
  existsb (Pos.eqb h) (Timed.without (Some h) hs) = false.
Proof.
  unfold Timed.without. induction hs as [|k hs IH]; [reflexivity|].
  simpl. destruct (Pos.eqb k h) eqn:E; simpl; [exact IH|].
  rewrite IH, Pos.eqb_sym, E. reflexivity.
Qed.

Lemma timed_resetGame_idempotent w :
  Timed.resetGame (Timed.resetGame w) = Timed.resetGame w.
Proof. reflexivity. Qed.

Lemma assisted_resetGame_idempotent w :
  Assisted.resetGame (Assisted.resetGame w) = Assisted.resetGame w.
Proof. reflexivity. Qed.

Lemma basic_resetGame_idempotent w :
  Basic.resetGame (Basic.resetGame w) = Basic.resetGame w.
Proof. reflexivity. Qed.

(** The target of the sample game, as the response delivered it. *)
Lemma assisted_playing_location r :
  Assisted.batmanLocation (Samples.assisted_playing r) =
  {| x := 0.25; y := 0.75; radius := Assisted.radius_or_42 r |}%R.
Proof. reflexivity. Qed.

Lemma assisted_playing_src r :
  Assisted.gameImage_src (Samples.assisted_playing r) = "/outputs/result.png?t=5".
Proof. reflexivity. Qed.

End Reset.



(** ** Files that are not images *)

Section FileGuard.

Lemma is_image_false (f : file) :
  String.prefix "image/" (file_type f) = false -> is_image (Some f) = false.
Proof. intros H. exact H. Qed.

(** The campaign front end tells the user. *)
Lemma campaign_alerts_on_wrong_type (f : file) (w : Campaign.world) :
  String.prefix "image/" (file_type f) = false ->
  Campaign.alerts (Campaign.handleFileSelect (Some f) w) =
    Campaign.alerts w ++ ["Please select an image file"] /\
  Campaign.selectedFile (Campaign.handleFileSelect (Some f) w) =
    Campaign.selectedFile w.
Proof. intros H. unfold Campaign.handleFileSelect. rewrite H. now split. Qed.

End FileGuard.

(** C8, as the code has it. A file whose MIME type does not start with
    [image/] is ignored by the change and drop handlers of the three
    game scripts: nothing of the state changes (the drop handler only
    clears the drag highlight of the upload area), no upload or
    processing starts, and no text for the user changes. *)
Theorem non_image_file_is_ignored
    (f : file) (wb : Basic.world) (wt : Timed.world) (wa : Assisted.world)
    (Hmime : String.prefix "image/" (file_type f) = false) :
  (Basic.on_change (Some f) wb = wb /\
   Basic.on_drop (Some f) wb = Basic.set_background "" wb /\
   ~ Basic.notified wb (Basic.on_change (Some f) wb) /\
   ~ Basic.notified wb (Basic.on_drop (Some f) wb)) /\
  (Timed.on_change (Some f) wt = wt /\
   Timed.on_drop (Some f) wt = Timed.set_background "" wt /\
   ~ Timed.notified wt (Timed.on_change (Some f) wt) /\
   ~ Timed.notified wt (Timed.on_drop (Some f) wt)) /\
  (Assisted.on_change (Some f) wa = wa /\
   Assisted.on_drop (Some f) wa = Assisted.set_background "" wa /\
   ~ Assisted.notified wa (Assisted.on_change (Some f) wa) /\
   ~ Assisted.notified wa (Assisted.on_drop (Some f) wa)).
Proof.
  apply is_image_false in Hmime.
  unfold Basic.on_change, Basic.on_drop, Timed.on_change, Timed.on_drop,
    Assisted.on_change, Assisted.on_drop.
  rewrite Hmime. cbv zeta.
  unfold Basic.notified, Timed.notified, Assisted.notified. simpl.
  repeat split; tauto.
Qed.

Lemma non_image_file_is_ignored_witness :
  Basic.on_change (Some Samples.pdf) Samples.basic_page = Samples.basic_page /\
  Assisted.on_change (Some Samples.pdf) Samples.assisted_page =
    Samples.assisted_page.
Proof.
  destruct (non_image_file_is_ignored Samples.pdf Samples.basic_page
              Samples.timed_page Samples.assisted_page eq_refl)
    as ((H1 & _) & _ & (H2 & _)).
  now split.
Defined.

(** C8, as the specification words it, fails: a PDF selected on the
    loaded page leaves the page as it is, the message empty. *)
Lemma non_image_no_message_counterexample :
  Basic.message_text (Basic.on_change (Some Samples.pdf) Samples.basic_page) =
    Basic.Msg_empty /\
  Assisted.message_text
    (Assisted.on_change (Some Samples.pdf) Samples.assisted_page) =
    Assisted.Msg_empty /\
  ~ Basic.notified Samples.basic_page
      (Basic.on_change (Some Samples.pdf) Samples.basic_page) /\
  ~ Assisted.notified Samples.assisted_page
      (Assisted.on_drop (Some Samples.pdf) Samples.assisted_page).
Proof.
  split; [reflexivity|]. split; [reflexivity|].
  split; intros H; now apply H.
Qed.

(** ** The delivered target *)

Section Delivery.

Import Assisted.

Lemma assisted_radius_or_42_nonzero r :
  r <> 0%R -> radius_or_42 (Some r) = r.
Proof. intros H. unfold radius_or_42. now destruct (Req_dec_T r 0). Qed.

Lemma assisted_radius_or_42_zero : radius_or_42 (Some 0%R) = 42%R.
Proof. unfold radius_or_42. now destruct (Req_dec_T 0 0). Qed.

Lemma assisted_showLoading_round b text w :
  batmanLocation (showLoading b text w) = batmanLocation w /\
  gameActive (showLoading b text w) = gameActive w /\
  attempts (showLoading b text w) = attempts w.
Proof. unfold showLoading. now destruct (loadingOverlay w). Qed.

Lemma assisted_finally_round w :
  batmanLocation (finally w) = batmanLocation w /\
  gameActive (finally w) = gameActive w /\
  attempts (finally w) = attempts w.
Proof. unfold finally. simpl. apply assisted_showLoading_round. Qed.

Lemma assisted_process_round w :
  batmanLocation (processUploadedImage w) = batmanLocation w /\
  gameActive (processUploadedImage w) = gameActive w /\
  attempts (processUploadedImage w) = attempts w.
Proof.
  unfold processUploadedImage. destruct (processing w); [now repeat split|].
  cbv zeta.
  destruct (assisted_showLoading_round true "Processing image with YOLO + depth…"
              (set_message Msg_processing "message" (set_processing true w)))
    as (A & B & C).
  now rewrite A, B, C.
Qed.

(** A response that carries a target. *)
Lemma assisted_resume_delivers data b now w :
  processing w = true -> data_batman data = Some b ->
  let w' := processUploadedImage_resume (Process_result true data) now w in
  batmanLocation w' = delivered_location b /\
  gameActive w' = true /\
  attempts w' = 0.
Proof.
  intros Hp Hb. unfold processUploadedImage_resume. rewrite Hp, Hb.
  simpl negb. cbv iota zeta.
  match goal with
  | |- context [finally ?w1] =>
      destruct (assisted_finally_round w1) as (A & B & C)
  end.
  now rewrite A, B, C.
Qed.

(** Any other end of the request leaves the round as it is. *)
Lemma assisted_resume_fails out now w :
  delivers (Ev_processed out now) = false ->
  let w' := processUploadedImage_resume out now w in
  batmanLocation w' = batmanLocation w /\
  gameActive w' = gameActive w /\
  attempts w' = attempts w.
Proof.
  intros Hd. unfold processUploadedImage_resume.
  destruct (processing w); simpl negb; cbv iota zeta; [|now repeat split].
  destruct out as [text | [|] data].
  - apply (assisted_finally_round (catch (Msg_error text) w)).
  - simpl in Hd. destruct (data_batman data); [discriminate|].
    apply (assisted_finally_round (catch Msg_error_thrown_by_engine w)).
  - apply (assisted_finally_round
             (catch (Msg_error (or_string (data_error data)
                                  "Failed to process image")) w)).
Qed.

Lemma assisted_location_handle w ev :
  delivers ev = false ->
  batmanLocation (handle w ev) = batmanLocation w.
Proof.
  intros Hd.
  destruct ev as [f| | |f|out now|e|width height| | |now]; simpl.
  - unfold on_change. destruct (is_image f); [|reflexivity].
    apply assisted_process_round.
  - reflexivity.
  - reflexivity.
  - unfold on_drop. destruct (is_image f); [|reflexivity].
    apply (assisted_process_round (set_background "" w)).
  - now apply assisted_resume_fails.
  - now destruct (assisted_on_click_cases e w) as [-> | [-> | ->]].
  - apply assisted_giveUp_location.
  - reflexivity.
  - reflexivity.
  - apply assisted_fire_location.
Qed.

Lemma assisted_location_run evs :
  forall w, no_delivery evs = true ->
            batmanLocation (run w evs) = batmanLocation w.
Proof.
  induction evs as [|ev evs IH]; intros w Hn; [reflexivity|].
  simpl in Hn. apply andb_true_iff in Hn. destruct Hn as [Hev Hn].
  simpl. rewrite IH by exact Hn.
  apply assisted_location_handle. now apply negb_true_iff.
Qed.

End Delivery.

(** C9, as the code has it. When a successful response arrives for the
    request under way, the target of the session is the delivered
    position with the radius [data.batman.radius || 42]: exactly the
    delivered radius when it is present and not 0, and 42 when it is
    absent or 0.  Nothing but a later response that delivers a target
    changes it afterwards, and every click is tested against it. *)
Theorem radius_from_response
    (w : Assisted.world) (data : Assisted.response) (b : Assisted.batman)
    (now : Z)
    (Hprocessing : Assisted.processing w = true)
    (Hbatman : Assisted.data_batman data = Some b) :
  let w' := Assisted.processUploadedImage_resume
              (Assisted.Process_result true data) now w in
  x (Assisted.batmanLocation w') = Assisted.x_norm b /\
  y (Assisted.batmanLocation w') = Assisted.y_norm b /\
  (forall r, Assisted.batman_radius b = Some r -> r <> 0%R ->
             radius (Assisted.batmanLocation w') = r) /\
  (Assisted.batman_radius b = None \/ Assisted.batman_radius b = Some 0%R ->
   radius (Assisted.batmanLocation w') = 42%R) /\
  (forall evs, Assisted.no_delivery evs = true ->
     Assisted.batmanLocation (Assisted.run w' evs) = Assisted.batmanLocation w') /\
  (forall e,
     decided_by_distance
       (Assisted.hit_outcome w' (Assisted.on_click e w'))
       (Assisted.miss_outcome w' (Assisted.on_click e w'))
       (click_distance (Assisted.delivered_location b) e)
       (Assisted.radius_or_42 (Assisted.batman_radius b))).
Proof.
  intros w'.
  destruct (assisted_resume_delivers data b now w Hprocessing Hbatman)
    as (Hloc & Hact & _).
  fold w' in Hloc, Hact. rewrite Hloc. simpl.
  split; [reflexivity|]. split; [reflexivity|]. split; [|split; [|split]].
  - intros r -> Hr. now apply assisted_radius_or_42_nonzero.
  - intros [-> | ->]; [reflexivity | apply assisted_radius_or_42_zero].
  - intros evs Hn. rewrite (assisted_location_run evs w' Hn). exact Hloc.
  - intros e. pose proof (assisted_click_decided e w' Hact) as H.
    rewrite Hloc in H. exact H.
Qed.

Lemma radius_from_response_witness :
  radius (Assisted.batmanLocation (Samples.assisted_playing (Some 30%R))) = 30%R.
Proof.
  destruct (radius_from_response
              (Assisted.on_change (Some Samples.png) Samples.assisted_page)
              (Samples.placed (Some 30%R))
              {| Assisted.x_norm := 0.25; Assisted.y_norm := 0.75;
                 Assisted.batman_radius := Some 30 |}%R
              5 eq_refl eq_refl) as (_ & _ & H & _).
  apply (H 30%R eq_refl). lra.
Defined.

(** C9, as the specification words it, fails: a response that delivers
    the radius 0 gives the session the radius 42. *)
Lemma radius_fallback_counterexample :
  let b := {| Assisted.x_norm := 0.25; Assisted.y_norm := 0.75;
              Assisted.batman_radius := Some 0 |}%R in
  let w' := Samples.assisted_playing (Some 0%R) in
  radius (Assisted.batmanLocation w') = 42%R /\
  ~ Assisted.radius_is_delivered b w'.
Proof.
  cbv zeta. unfold Assisted.radius_is_delivered.
  rewrite assisted_playing_location. cbn [radius Assisted.batman_radius].
  rewrite assisted_radius_or_42_zero. split; [reflexivity|].
  intros H. injection H as H. lra.
Qed.

(** ** The counter *)

Section Counter.

Lemma assisted_fire_attempts now w :
  Assisted.attempts (Assisted.fire_timeouts now w) = Assisted.attempts w.
Proof.
  unfold Assisted.fire_timeouts.
  match goal with
  | |- Assisted.attempts (fold_left _ ?ts ?w1) = _ =>
      destruct (assisted_fold_run_timeout ts w1) as (_ & _ & _ & _ & H & _)
  end.
  exact H.
Qed.

Lemma assisted_giveUp_attempts width height w :
  Assisted.attempts (Assisted.giveUp width height w) = Assisted.attempts w.
Proof. unfold Assisted.giveUp. now destruct (Assisted.gameActive w). Qed.

Lemma assisted_resume_attempts out now w :
  Assisted.attempts (Assisted.processUploadedImage_resume out now w) =
    Assisted.attempts w \/
  Assisted.attempts (Assisted.processUploadedImage_resume out now w) = 0.
Proof.
  destruct (Assisted.delivers (Assisted.Ev_processed out now)) eqn:Hd.
  - destruct out as [text | [|] data]; try discriminate Hd.
    simpl in Hd. destruct (Assisted.data_batman data) as [b|] eqn:Hb;
      [|discriminate].
    destruct (Assisted.processing w) eqn:Hp.
    + right. now apply (assisted_resume_delivers data b now w Hp Hb).
    + left. unfold Assisted.processUploadedImage_resume. now rewrite Hp.
  - left. now apply assisted_resume_fails.
Qed.

Lemma assisted_attempts_nonneg_handle w ev :
  0 <= Assisted.attempts w -> 0 <= Assisted.attempts (Assisted.handle w ev).
Proof.
  intros H.
  destruct ev as [f| | |f|out now|e|width height| | |now]; simpl.
  - unfold Assisted.on_change. destruct (is_image f); [|exact H].
    now rewrite (proj2 (proj2 (assisted_process_round w))).
  - exact H.
  - exact H.
  - unfold Assisted.on_drop. destruct (is_image f); [|exact H].
    now rewrite (proj2 (proj2 (assisted_process_round
                                 (Assisted.set_background "" w)))).
  - destruct (assisted_resume_attempts out now w) as [-> | ->]; lia.
  - destruct (assisted_on_click_cases e w) as [-> | [-> | ->]]; simpl; lia.
  - now rewrite assisted_giveUp_attempts.
  - lia.
  - lia.
  - now rewrite assisted_fire_attempts.
Qed.

Lemma assisted_reachable_attempts w :
  Assisted.reachable w -> 0 <= Assisted.attempts w.
Proof.
  induction 1 as [w (_ & Hc & _) | w ev _ IH].
  - lia.
  - now apply assisted_attempts_nonneg_handle.
Qed.

Lemma calculateScore_at_most_950 (c s : Z) :
  1 <= c -> 0 <= s -> Timed.calculateScore c s <= 950.
Proof. intros Hc Hs. unfold Timed.calculateScore. cbv zeta. lia. Qed.

(** The count the results show.  [showResults] is the only writer of
    [finalClicks], and it writes the counter as it is when the callback
    runs. *)
Lemma timed_run_timeout_finalClicks (w : Timed.world) (t : Timed.timeout) :
  Timed.finalClicks (Timed.run_timeout w t) = Timed.finalClicks w \/
  Timed.finalClicks (Timed.run_timeout w t) = Timed.clicks w.
Proof. destruct t as [d [id|s sc|]]; simpl; auto. Qed.

Lemma timed_fold_finalClicks (ts : list Timed.timeout) (w : Timed.world) :
  Timed.finalClicks (fold_left Timed.run_timeout ts w) = Timed.finalClicks w \/
  Timed.finalClicks (fold_left Timed.run_timeout ts w) = Timed.clicks w.
Proof.
  revert w. induction ts as [|t ts IH]; intros w; simpl; [now left|].
  destruct (IH (Timed.run_timeout w t)) as [E | E]; rewrite E.
  - apply timed_run_timeout_finalClicks.
  - right. apply timed_run_timeout_clicks.
Qed.

Lemma timed_fold_shows_count (ts : list Timed.timeout) (w : Timed.world)
    (at_ s sc : Z) :
  In (Timed.Pending at_ (Timed.Show_results s sc)) ts ->
  Timed.finalClicks (fold_left Timed.run_timeout ts w) = Timed.clicks w.
Proof.
  revert w. induction ts as [|t ts IH]; intros w Hin; [contradiction|].
  simpl. destruct Hin as [-> | Hin].
  - destruct (timed_fold_finalClicks ts
                (Timed.run_timeout w (Timed.Pending at_ (Timed.Show_results s sc))))
      as [E | E]; rewrite E; reflexivity.
  - rewrite (IH _ Hin). apply timed_run_timeout_clicks.
Qed.

Lemma timed_fire_shows_count (now : Z) (w : Timed.world) (at_ s sc : Z) :
  In (Timed.Pending at_ (Timed.Show_results s sc)) (Timed.timeouts w) ->
  at_ <= now ->
  Timed.finalClicks (Timed.fire_timeouts now w) = Timed.clicks w.
Proof.
  intros Hin Hdue. unfold Timed.fire_timeouts.
  rewrite (timed_fold_shows_count _ _ at_ s sc); [reflexivity|].
  apply filter_In. split; [exact Hin|].
  unfold Timed.is_due. simpl. now apply Z.leb_le.
Qed.

Lemma timed_fire_count_kept (now : Z) (w : Timed.world) :
  Timed.finalClicks w = Timed.clicks w ->
  Timed.finalClicks (Timed.fire_timeouts now w) = Timed.clicks w.
Proof.
  intros H. unfold Timed.fire_timeouts.
  match goal with
  | |- Timed.finalClicks (fold_left _ ?ts ?w1) = _ =>
      destruct (timed_fold_finalClicks ts w1) as [E | E]; rewrite E
  end.
  - exact H.
  - reflexivity.
Qed.

(** After a round is over and until a game is started or reset, the
    counter keeps its value, and the results of the round are either
    still pending or already on the page with that count. *)
Lemma timed_count_pending_handle (t : Timed.timeout) (w : Timed.world)
    (ev : Timed.event) (at_ s sc : Z) :
  t = Timed.Pending at_ (Timed.Show_results s sc) ->
  Timed.same_game ev = true ->
  Timed.gameActive w = false ->
  In t (Timed.timeouts w) \/ Timed.finalClicks w = Timed.clicks w ->
  Timed.gameActive (Timed.handle w ev) = false /\
  Timed.clicks (Timed.handle w ev) = Timed.clicks w /\
  (In t (Timed.timeouts (Timed.handle w ev)) \/
   Timed.finalClicks (Timed.handle w ev) = Timed.clicks (Timed.handle w ev)).
Proof.
  intros Ht Hev Ha H.
  destruct ev as [f| | |f|out now|now|h now|e| |now];
    try discriminate Hev; simpl.
  - unfold Timed.on_change. destruct (is_image f); now repeat split.
  - now repeat split.
  - now repeat split.
  - unfold Timed.on_drop. destruct (is_image f); now repeat split.
  - unfold Timed.uploadAndProcess_resume.
    destruct (Timed.in_flight w); [now repeat split|].
    destruct out as [|[|] path]; simpl; repeat split; trivial.
    destruct H as [H | H]; [left | now right].
    apply in_or_app. now left.
  - unfold Timed.on_tick. destruct (Timed.live h w); [|now repeat split].
    unfold Timed.updateTimer. destruct (Timed.startTime_truthy w);
      now repeat split.
  - rewrite (timed_on_click_inactive e w Ha). now repeat split.
  - destruct (timed_fire_fields now w) as (A1 & A2 & _ & _ & _ & _ & _ & _ & A9 & _).
    rewrite A1, A2, A9. split; [exact Ha|]. split; [reflexivity|].
    destruct H as [H | H].
    + destruct (Timed.is_due now t) eqn:E.
      * right. subst t. apply (timed_fire_shows_count now w at_ s sc H).
        unfold Timed.is_due in E. simpl in E. now apply Z.leb_le.
      * left. apply filter_In. split; [exact H|]. now rewrite E.
    + right. now apply timed_fire_count_kept.
Qed.

Lemma timed_count_pending_run (t : Timed.timeout) (at_ s sc : Z)
    (evs : list Timed.event) :
  t = Timed.Pending at_ (Timed.Show_results s sc) ->
  forallb Timed.same_game evs = true ->
  forall w,
    Timed.gameActive w = false ->
    In t (Timed.timeouts w) \/ Timed.finalClicks w = Timed.clicks w ->
    Timed.clicks (Timed.run w evs) = Timed.clicks w /\
    (In t (Timed.timeouts (Timed.run w evs)) \/
     Timed.finalClicks (Timed.run w evs) = Timed.clicks (Timed.run w evs)).
Proof.
  intros Ht. induction evs as [|ev evs IH]; intros Hevs w Ha H.
  - now split.
  - simpl in Hevs. apply andb_true_iff in Hevs. destruct Hevs as [Hev Hevs].
    destruct (timed_count_pending_handle t w ev at_ s sc Ht Hev Ha H)
      as (Ha' & Hc' & H').
    simpl. destruct (IH Hevs (Timed.handle w ev) Ha' H') as [Hc'' H''].
    split; [now rewrite Hc'', Hc' | exact H''].
Qed.

End Counter.

(** C10, as the code has it. Every click handled while the game is
    active adds one to the counter, the winning click included: the
    counter is incremented before the distance is tested.  So a round
    that is won has at least one attempt.  The message of the assisted
    script reports that count.  The results of the timed script show the
    counter as it is when their callback runs, one second later: the
    count with the winning click, whatever happens in between short of
    startGame or resetGame.  The score is at most 950 when the clock
    reading at the winning click is not earlier than the one at the
    start; 950 is the score of a first click that hits within the first
    second. *)
Theorem winning_click_is_counted
    (e : click_event) (wt : Timed.world) (wa : Assisted.world)
    (Rt : Timed.reachable wt) (Ra : Assisted.reachable wa)
    (Ht : Timed.gameActive wt = true)
    (Ha : Assisted.gameActive wa = true) :
  let elapsed := Timed.elapsed_seconds (click_time e) (Timed.startTime wt) in
  let score := Z.max 0 (1000 - (Timed.clicks wt + 1) * 50 - elapsed * 10) in
  let won := Timed.on_click e wt in
  (Timed.clicks won = Timed.clicks wt + 1 /\ 1 <= Timed.clicks won) /\
  (Assisted.attempts (Assisted.on_click e wa) = Assisted.attempts wa + 1 /\
   1 <= Assisted.attempts (Assisted.on_click e wa)) /\
  ((click_distance Timed.batmanLocation e <= radius Timed.batmanLocation)%R ->
   Timed.timeouts won =
     Timed.timeouts wt ++
       [Timed.Pending (click_time e + 1000) (Timed.Show_results elapsed score)] /\
   (forall evs now,
      forallb Timed.same_game evs = true ->
      click_time e + 1000 <= now ->
      Timed.finalClicks (Timed.fire_timeouts now (Timed.run won evs)) =
        Timed.clicks wt + 1) /\
   (0 <= elapsed -> score <= 950)) /\
  ((click_distance (Assisted.batmanLocation wa) e <=
    radius (Assisted.batmanLocation wa))%R ->
   Assisted.message_text (Assisted.on_click e wa) =
     Assisted.Msg_found (Assisted.attempts wa + 1)
       (negb (Z.eqb (Assisted.attempts wa + 1) 1))) /\
  Timed.calculateScore 1 0 = 950.
Proof.
  intros elapsed score won.
  apply timed_reachable_inv in Rt. destruct Rt as (_ & _ & Hc).
  apply assisted_reachable_attempts in Ra.
  split; [|split; [|split; [|split]]].
  - subst won. rewrite (timed_click_counts e wt Ht). split; [reflexivity | lia].
  - rewrite (assisted_click_counts e wa Ha). split; [reflexivity | lia].
  - intros Hhit.
    assert (Hts : Timed.timeouts won =
              Timed.timeouts wt ++
                [Timed.Pending (click_time e + 1000)
                   (Timed.Show_results elapsed score)]).
    { subst won. rewrite (timed_on_click_hit_eq e wt Ht Hhit). reflexivity. }
    assert (Hcount : Timed.clicks won = Timed.clicks wt + 1).
    { subst won. apply (timed_click_counts e wt Ht). }
    assert (Hover : Timed.gameActive won = false).
    { subst won. rewrite (timed_on_click_hit_eq e wt Ht Hhit). reflexivity. }
    split; [exact Hts|]. split.
    + intros evs now Hevs Hnow.
      destruct (timed_count_pending_run
                  (Timed.Pending (click_time e + 1000)
                     (Timed.Show_results elapsed score))
                  (click_time e + 1000) elapsed score evs eq_refl Hevs won Hover)
        as [Hsame Hshown].
      { left. rewrite Hts. apply in_or_app. right. now left. }
      rewrite <- Hcount, <- Hsame.
      destruct Hshown as [Hin | Hdone].
      * now apply (timed_fire_shows_count now _ (click_time e + 1000) elapsed score).
      * now apply timed_fire_count_kept.
    + intros Hclock. subst score.
      rewrite <- calculateScore_formula.
      apply calculateScore_at_most_950; [lia | exact Hclock].
  - intros Hhit. now rewrite (assisted_on_click_hit_eq e wa Ha Hhit).
  - reflexivity.
Qed.

Lemma winning_click_is_counted_witness :
  let first := Samples.click_at 400 300 2400 in
  let won := Timed.on_click first Samples.timed_playing in
  Timed.clicks won = 1 /\
  Timed.timeouts won =
    Timed.timeouts Samples.timed_playing ++
      [Timed.Pending 3400 (Timed.Show_results 0 950)] /\
  Timed.finalClicks
    (Timed.fire_timeouts 3400
       (Timed.run won [Timed.Ev_click first; Timed.Ev_tick 1 3000])) = 1 /\
  Z.max 0 (1000 - (0 + 1) * 50 - 0 * 10) <= 950.
Proof.
  intros first won.
  destruct (winning_click_is_counted first Samples.timed_playing
              (Samples.assisted_playing (Some 50%R))
              timed_playing_reachable (assisted_playing_reachable _)
              eq_refl eq_refl)
    as ((H1 & _) & _ & H3 & _).
  destruct (H3 (timed_centre_click_hits 2400)) as (Hts & Hshown & Hmax).
  split; [exact H1|]. split; [exact Hts|]. split.
  - apply (Hshown [Timed.Ev_click first; Timed.Ev_tick 1 3000] 3400 eq_refl).
    simpl. lia.
  - apply Hmax. vm_compute. discriminate.
Defined.

(** C10, as the specification words it, fails: the score is computed
    from two readings of the clock, and the clock can be set back.  The
    timed game was started at clock reading 2000; a first click that
    hits when the clock reads 1500 has floor(-500 / 1000) = -1 elapsed
    seconds and scores 1000 - 50 + 10 = 960, which the results show. *)
Lemma score_above_950_counterexample :
  let first := Samples.click_at 400 300 1500 in
  let won := Timed.on_click first Samples.timed_playing in
  Timed.reachable Samples.timed_playing /\
  Timed.gameActive Samples.timed_playing = true /\
  Timed.startTime Samples.timed_playing = Some 2000 /\
  Timed.gameActive won = false /\
  Timed.clicks won = 1 /\
  Timed.timeouts won = [Timed.Pending 2500 (Timed.Show_results (-1) 960)] /\
  Timed.finalScore (Timed.fire_timeouts 2500 won) = 960 /\
  ~ Timed.finalScore (Timed.fire_timeouts 2500 won) <= 950.
Proof.
  intros first won.
  assert (E : won = Timed.found first (Timed.count_click Samples.timed_playing)).
  { subst won. apply timed_on_click_hit_eq; [reflexivity|].
    apply timed_centre_click_hits. }
  assert (Hts : Timed.timeouts won =
            [] ++ [Timed.Pending 2500 (Timed.Show_results (-1) 960)]).
  { rewrite E. reflexivity. }
  destruct (timed_results_shown 2500 won [] 2500 (-1) 960 Hts (Z.le_refl _))
    as (Hscore & _).
  split; [exact timed_playing_reachable|].
  split; [reflexivity|]. split; [reflexivity|].
  split; [rewrite E; reflexivity|]. split; [rewrite E; reflexivity|].
  split; [exact Hts|]. split; [exact Hscore|].
  rewrite Hscore. lia.
Qed.

(** * Further properties of the scripts *)

(** ** Sequences of clicks *)

Section Counting.

Lemma basic_clicks_inactive es :
  forall w, Basic.gameActive w = false ->
            Basic.run w (map Basic.Ev_click es) = w.
Proof.
  induction es as [|e es IH]; intros w Hw; [reflexivity|].
  simpl. rewrite (basic_on_click_inactive e w Hw). now apply IH.
Qed.

Lemma assisted_clicks_inactive es :
  forall w, Assisted.gameActive w = false ->
            Assisted.run w (map Assisted.Ev_click es) = w.
Proof.
  induction es as [|e es IH]; intros w Hw; [reflexivity|].
  simpl. rewrite (assisted_on_click_inactive e w Hw). now apply IH.
Qed.

Lemma wins_cons_miss loc e es :
  (radius loc < click_distance loc e)%R ->
  (Runs.wins loc (e :: es) <-> Runs.wins loc es).
Proof.
  intros Hm. split.
  - intros (e' & [<- | Hin] & Hh); [lra|]. now exists e'.
  - intros (e' & Hin & Hh). exists e'. split; [now right | exact Hh].
Qed.

Lemma basic_clicks_counted es :
  forall w, Basic.gameActive w = true ->
    Basic.attempts (Basic.run w (map Basic.Ev_click es)) =
      Basic.attempts w + Z.of_nat (Runs.handled Basic.batmanLocation es) /\
    List.length (Basic.markers (Basic.run w (map Basic.Ev_click es))) =
      (List.length (Basic.markers w) + Runs.handled Basic.batmanLocation es)%nat /\
    (Basic.gameActive (Basic.run w (map Basic.Ev_click es)) = false <->
     Runs.wins Basic.batmanLocation es).
Proof.
  induction es as [|e es IH]; intros w Hw.
  - simpl. split; [lia|]. split; [lia|]. split.
    + intros H. congruence.
    + intros (e & [] & _).
  - simpl map. simpl Basic.run. simpl Runs.handled.
    destruct (Rle_dec _ _) as [Hh | Hm].
    + rewrite (basic_on_click_hit_eq e w Hw Hh).
      rewrite basic_clicks_inactive by reflexivity.
      split; [simpl; lia|]. split; [simpl; rewrite length_app; simpl; lia|].
      split; [|reflexivity].
      intros _. exists e. split; [now left | exact Hh].
    + apply Rnot_le_lt in Hm.
      rewrite (basic_on_click_miss_eq e w Hw Hm).
      destruct (IH (Basic.missed e (Basic.count_attempt w)) Hw) as (A & B & C).
      fold (Basic.run (Basic.missed e (Basic.count_attempt w))
              (map Basic.Ev_click es)).
      rewrite A, B, (wins_cons_miss Basic.batmanLocation e es Hm).
      split; [simpl; lia|]. split; [simpl; rewrite length_app; simpl; lia|].
      exact C.
Qed.

Lemma assisted_clicks_counted es :
  forall w, Assisted.gameActive w = true ->
    Assisted.attempts (Assisted.run w (map Assisted.Ev_click es)) =
      Assisted.attempts w +
      Z.of_nat (Runs.handled (Assisted.batmanLocation w) es) /\
    List.length (Assisted.markers (Assisted.run w (map Assisted.Ev_click es))) =
      (List.length (Assisted.markers w) +
       Runs.handled (Assisted.batmanLocation w) es)%nat /\
    (Assisted.gameActive (Assisted.run w (map Assisted.Ev_click es)) = false <->
     Runs.wins (Assisted.batmanLocation w) es).
Proof.
  induction es as [|e es IH]; intros w Hw.
  - simpl. split; [lia|]. split; [lia|]. split.
    + intros H. congruence.
    + intros (e & [] & _).
  - simpl map. simpl Assisted.run. simpl Runs.handled.
    destruct (Rle_dec _ _) as [Hh | Hm].
    + rewrite (assisted_on_click_hit_eq e w Hw Hh).
      rewrite assisted_clicks_inactive by reflexivity.
      split; [simpl; lia|]. split; [simpl; rewrite length_app; simpl; lia|].
      split; [|reflexivity].
      intros _. exists e. split; [now left | exact Hh].
    + apply Rnot_le_lt in Hm.
      rewrite (assisted_on_click_miss_eq e w Hw Hm).
      destruct (IH (Assisted.missed e (Assisted.count_attempt w)) Hw)
        as (A & B & C).
      fold (Assisted.run (Assisted.missed e (Assisted.count_attempt w))
              (map Assisted.Ev_click es)).
      change (Assisted.batmanLocation
                (Assisted.missed e (Assisted.count_attempt w)))
        with (Assisted.batmanLocation w) in A, B, C.
      rewrite A, B, (wins_cons_miss (Assisted.batmanLocation w) e es Hm).
      split; [simpl; lia|]. split; [simpl; rewrite length_app; simpl; lia|].
      exact C.
Qed.

End Counting.

(** X1. After any sequence of clicks on an active game, the attempts
    counter has grown by the number of clicks up to and including the
    first hit (all of them when none hits), one marker was appended for
    each of those clicks, and the game is over exactly when one of the
    clicks hit: clicks after the winning one are not counted and leave
    no marker. *)
Theorem clicks_counted_until_first_hit
    (wb : Basic.world) (wa : Assisted.world) (es : list click_event)
    (Hb : Basic.gameActive wb = true)
    (Ha : Assisted.gameActive wa = true) :
  (Basic.attempts (Basic.run wb (map Basic.Ev_click es)) =
     Basic.attempts wb + Z.of_nat (Runs.handled Basic.batmanLocation es) /\
   List.length (Basic.markers (Basic.run wb (map Basic.Ev_click es))) =
     (List.length (Basic.markers wb) + Runs.handled Basic.batmanLocation es)%nat /\
   (Basic.gameActive (Basic.run wb (map Basic.Ev_click es)) = false <->
    Runs.wins Basic.batmanLocation es)) /\
  (Assisted.attempts (Assisted.run wa (map Assisted.Ev_click es)) =
     Assisted.attempts wa +
     Z.of_nat (Runs.handled (Assisted.batmanLocation wa) es) /\
   List.length (Assisted.markers (Assisted.run wa (map Assisted.Ev_click es))) =
     (List.length (Assisted.markers wa) +
      Runs.handled (Assisted.batmanLocation wa) es)%nat /\
   (Assisted.gameActive (Assisted.run wa (map Assisted.Ev_click es)) = false <->
    Runs.wins (Assisted.batmanLocation wa) es)) /\
  (Runs.handled Basic.batmanLocation es <= List.length es)%nat.
Proof.
  split; [now apply basic_clicks_counted|].
  split; [now apply assisted_clicks_counted|].
  induction es as [|e es IH]; simpl; [lia|].
  destruct (Rle_dec _ _); lia.
Qed.

Lemma clicks_counted_until_first_hit_witness :
  let es := [Samples.click_at 300 300 1000; Samples.click_at 400 300 2000;
             Samples.click_at 300 300 3000] in
  Basic.attempts (Basic.run Samples.basic_playing (map Basic.Ev_click es)) = 2.
Proof.
  intros es.
  destruct (clicks_counted_until_first_hit Samples.basic_playing
              (Samples.assisted_playing (Some 50%R)) es eq_refl eq_refl)
    as ((H & _) & _).
  rewrite H. subst es. simpl Runs.handled.
  destruct (Rle_dec _ _) as [Hh | _].
  - rewrite far_click_distance in Hh. simpl in Hh. lra.
  - destruct (Rle_dec _ _) as [_ | Hm]; [reflexivity|].
    exfalso. apply Hm. rewrite centre_click_distance. simpl. lra.
Defined.

(** ** The request of the assisted script *)

Section AssistedRequest.

Import Assisted.

Lemma assisted_fold_page ts w :
  processing (fold_left run_timeout ts w) = processing w /\
  loadingOverlay (fold_left run_timeout ts w) = loadingOverlay w /\
  buttons_disabled (fold_left run_timeout ts w) = buttons_disabled w.
Proof.
  revert w. induction ts as [|t ts IH]; intros w; simpl.
  - repeat split.
  - destruct (IH (run_timeout w t)) as (H1 & H2 & H3).
    rewrite H1, H2, H3. repeat split.
Qed.

Lemma ui_lock_same w w' :
  loadingOverlay w' = loadingOverlay w ->
  buttons_disabled w' = buttons_disabled w ->
  processing w' = processing w ->
  Runs.ui_lock w -> Runs.ui_lock w'.
Proof. unfold Runs.ui_lock. now intros -> -> ->. Qed.

Lemma ui_lock_process w : Runs.ui_lock w -> Runs.ui_lock (processUploadedImage w).
Proof.
  intros H. unfold processUploadedImage.
  destruct (processing w) eqn:Hp; [exact H|].
  unfold Runs.ui_lock in *. cbv zeta. unfold showLoading. simpl.
  destruct (loadingOverlay w) as [ov|]; [|contradiction].
  simpl. now split.
Qed.

Lemma ui_lock_finally w :
  loadingOverlay w <> None ->
  Runs.ui_lock (finally w) /\ processing (finally w) = false /\
  buttons_disabled (finally w) = false.
Proof.
  intros H. unfold finally, Runs.ui_lock, showLoading.
  destruct (loadingOverlay w) as [ov|]; [|congruence].
  simpl. repeat split. discriminate.
Qed.

Lemma assisted_resume_unlocks out now w :
  Runs.ui_lock w ->
  Runs.ui_lock (processUploadedImage_resume out now w) /\
  processing (processUploadedImage_resume out now w) = false /\
  buttons_disabled (processUploadedImage_resume out now w) = false.
Proof.
  intros H.
  assert (Hov : loadingOverlay w <> None).
  { unfold Runs.ui_lock in H. destruct (loadingOverlay w); [discriminate | contradiction]. }
  unfold processUploadedImage_resume.
  destruct (processing w) eqn:Hp; simpl negb; cbv iota.
  - destruct out as [text | [|] data];
      [| destruct (data_batman data) |]; apply ui_lock_finally; exact Hov.
  - split; [exact H|]. split; [exact Hp|].
    unfold Runs.ui_lock in H. destruct (loadingOverlay w); [|contradiction].
    destruct H as [H _]. congruence.
Qed.

Lemma ui_lock_handle w ev : Runs.ui_lock w -> Runs.ui_lock (handle w ev).
Proof.
  intros H.
  destruct ev as [f| | |f|out now|e|width height| | |now]; simpl.
  - unfold on_change. destruct (is_image f); [now apply ui_lock_process | exact H].
  - exact H.
  - exact H.
  - unfold on_drop. destruct (is_image f); [|exact H].
    now apply (ui_lock_process (set_background "" w)).
  - now apply assisted_resume_unlocks.
  - destruct (assisted_on_click_cases e w) as [-> | [-> | ->]]; exact H.
  - unfold giveUp. destruct (gameActive w); exact H.
  - exact H.
  - exact H.
  - unfold fire_timeouts.
    match goal with
    | |- Runs.ui_lock (fold_left run_timeout ?ts ?w1) =>
        destruct (assisted_fold_page ts w1) as (A & B & C)
    end.
    eapply ui_lock_same; [exact B | exact C | exact A | exact H].
Qed.

Lemma ui_lock_run evs : forall w, Runs.ui_lock w -> Runs.ui_lock (run w evs).
Proof.
  induction evs as [|ev evs IH]; intros w H; [exact H|].
  simpl. apply IH. now apply ui_lock_handle.
Qed.

End AssistedRequest.

(** X2. On a page that has the loading overlay, the buttons of the
    assisted script are disabled exactly while a request is under way
    (and the overlay is shown then), whatever the user and the server do;
    while it is under way, selecting or dropping another file starts
    nothing; and however the request ends, [processing] is false and the
    buttons are enabled again. *)
Theorem processing_locks_and_unlocks
    (w : Assisted.world) (evs : list Assisted.event)
    (Hlock : Runs.ui_lock w) :
  let w' := Assisted.run w evs in
  Runs.ui_lock w' /\
  Assisted.buttons_disabled w' = Assisted.processing w' /\
  (Assisted.processing w' = true ->
   forall f, Assisted.on_change f w' = w' /\
             Assisted.on_drop f w' = Assisted.set_background "" w') /\
  (forall out now,
     Assisted.processing (Assisted.processUploadedImage_resume out now w') = false /\
     Assisted.buttons_disabled
       (Assisted.processUploadedImage_resume out now w') = false).
Proof.
  intros w'. pose proof (ui_lock_run evs w Hlock) as H. fold w' in H.
  split; [exact H|]. split; [|split].
  - unfold Runs.ui_lock in H. destruct (Assisted.loadingOverlay w');
      [tauto | contradiction].
  - intros Hp f. unfold Assisted.on_change, Assisted.on_drop,
      Assisted.processUploadedImage. cbv zeta.
    change (Assisted.processing (Assisted.set_background "" w'))
      with (Assisted.processing w').
    rewrite Hp. now destruct (is_image f).
  - intros out now.
    now destruct (assisted_resume_unlocks out now w' H) as (_ & A & B).
Qed.

Lemma processing_locks_and_unlocks_witness :
  Assisted.buttons_disabled
    (Assisted.run Samples.assisted_page [Assisted.Ev_change (Some Samples.png)]) =
  Assisted.processing
    (Assisted.run Samples.assisted_page [Assisted.Ev_change (Some Samples.png)]).
Proof.
  apply (processing_locks_and_unlocks Samples.assisted_page
           [Assisted.Ev_change (Some Samples.png)]).
  simpl. split; [reflexivity | discriminate].
Defined.

(** X3. When the request of the assisted script fails (the fetch or
    the JSON decoding throws, the response is not ok, or it carries no
    target), the session is left as it was: game flag, attempts, target,
    image, markers, steps and buttons are unchanged; the message shows
    the error (the thrown text, or the [error] of the body, or
    'Failed to process image' when the body has none or an empty one)
    with the class [message try-again], and [processing] is false
    again. *)
Theorem failed_request_leaves_session
    (w : Assisted.world) (out : Assisted.process_outcome) (now : Z)
    (Hprocessing : Assisted.processing w = true)
    (Hfail : Assisted.delivers (Assisted.Ev_processed out now) = false) :
  let w' := Assisted.processUploadedImage_resume out now w in
  (Assisted.gameActive w' = Assisted.gameActive w /\
   Assisted.attempts w' = Assisted.attempts w /\
   Assisted.attemptsDisplay w' = Assisted.attemptsDisplay w /\
   Assisted.batmanLocation w' = Assisted.batmanLocation w /\
   Assisted.gameImage_src w' = Assisted.gameImage_src w /\
   Assisted.markers w' = Assisted.markers w /\
   Assisted.timeouts w' = Assisted.timeouts w /\
   Assisted.uploadStep_active w' = Assisted.uploadStep_active w /\
   Assisted.gameStep_active w' = Assisted.gameStep_active w /\
   Assisted.playAgainBtn_display w' = Assisted.playAgainBtn_display w /\
   Assisted.giveUpBtn_display w' = Assisted.giveUpBtn_display w) /\
  Assisted.processing w' = false /\
  Assisted.message_class w' = "message try-again" /\
  Assisted.message_text w' =
    match out with
    | Assisted.Process_threw text => Assisted.Msg_error text
    | Assisted.Process_result false data =>
        match Assisted.data_error data with
        | Some text =>
            if String.eqb text ""
            then Assisted.Msg_error "Failed to process image"
            else Assisted.Msg_error text
        | None => Assisted.Msg_error "Failed to process image"
        end
    | Assisted.Process_result true _ => Assisted.Msg_error_thrown_by_engine
    end.
Proof.
  intros w'. subst w'.
  unfold Assisted.processUploadedImage_resume. rewrite Hprocessing.
  simpl negb. cbv iota.
  destruct out as [text | [|] data].
  - unfold Assisted.finally, Assisted.catch, Assisted.showLoading. simpl.
    destruct (Assisted.loadingOverlay w); simpl; repeat split.
  - simpl in Hfail. destruct (Assisted.data_batman data); [discriminate|].
    unfold Assisted.finally, Assisted.catch, Assisted.showLoading. simpl.
    destruct (Assisted.loadingOverlay w); simpl; repeat split.
  - unfold Assisted.finally, Assisted.catch, Assisted.showLoading,
      Assisted.or_string. simpl.
    destruct (Assisted.loadingOverlay w); simpl;
      (repeat split; destruct (Assisted.data_error data) as [text|];
       [destruct (String.eqb text "")|]; reflexivity).
Qed.

Lemma failed_request_leaves_session_witness :
  let w := Assisted.on_change (Some Samples.png) Samples.assisted_page in
  Assisted.message_text
    (Assisted.processUploadedImage_resume
       (Assisted.Process_threw "Failed to fetch") 9 w) =
    Assisted.Msg_error "Failed to fetch".
Proof.
  intros w.
  apply (failed_request_leaves_session w
           (Assisted.Process_threw "Failed to fetch") 9 eq_refl eq_refl).
Defined.

(** X4. A response of the assisted script that delivers a target starts
    a round: the game step is the active one, the game is active with 0
    attempts (counter and display), the give-up button is shown, the
    image is the delivered URL with [?t=] and the time appended, the
    message names the number of objects and the occluder ('none' when
    the response has none), with the two percentages only when both
    metrics are present, and [processing] is false again.  It removes no
    marker, cancels no timeout and leaves the play-again button as it
    is. *)
Theorem delivered_response_starts_round
    (w : Assisted.world) (data : Assisted.response) (b : Assisted.batman)
    (now : Z)
    (Hprocessing : Assisted.processing w = true)
    (Hbatman : Assisted.data_batman data = Some b) :
  let w' := Assisted.processUploadedImage_resume
              (Assisted.Process_result true data) now w in
  Assisted.gameActive w' = true /\
  Assisted.attempts w' = 0 /\
  Assisted.attemptsDisplay w' = 0 /\
  (Assisted.uploadStep_active w', Assisted.gameStep_active w') = (false, true) /\
  Assisted.giveUpBtn_display w' = Display_inline_block /\
  Assisted.gameImage_src w' =
    (Assisted.output_image_url data ++ "?t=" ++ string_of_Z now)%string /\
  Assisted.processing w' = false /\
  Assisted.message_class w' = "message" /\
  (exists percentages,
     Assisted.message_text w' =
       Assisted.Msg_detected (Assisted.objects_detected data)
         (Assisted.or_string (Assisted.best_object data) "none") percentages /\
     (percentages = None <->
      Assisted.visible_ratio data = None \/
      Assisted.low_saliency_score data = None)) /\
  Assisted.markers w' = Assisted.markers w /\
  Assisted.timeouts w' = Assisted.timeouts w /\
  Assisted.playAgainBtn_display w' = Assisted.playAgainBtn_display w.
Proof.
  intros w'. subst w'.
  unfold Assisted.processUploadedImage_resume. rewrite Hprocessing, Hbatman.
  simpl negb. cbv iota zeta.
  unfold Assisted.finally, Assisted.showLoading. simpl.
  assert (Hmsg : exists percentages,
     Assisted.detected_message data =
       Assisted.Msg_detected (Assisted.objects_detected data)
         (Assisted.or_string (Assisted.best_object data) "none") percentages /\
     (percentages = None <->
      Assisted.visible_ratio data = None \/
      Assisted.low_saliency_score data = None)).
  { unfold Assisted.detected_message. cbv zeta.
    destruct (Assisted.visible_ratio data) as [vis|];
      destruct (Assisted.low_saliency_score data) as [sal|];
      eexists; (split; [reflexivity|]); split; intros H;
        try reflexivity; try tauto;
        try discriminate H; destruct H; discriminate. }
  destruct (Assisted.loadingOverlay w); simpl; repeat split; exact Hmsg.
Qed.

Lemma delivered_response_starts_round_witness :
  Assisted.gameImage_src (Samples.assisted_playing (Some 30%R)) =
    "/outputs/result.png?t=5".
Proof.
  destruct (delivered_response_starts_round
              (Assisted.on_change (Some Samples.png) Samples.assisted_page)
              (Samples.placed (Some 30%R))
              {| Assisted.x_norm := 0.25; Assisted.y_norm := 0.75;
                 Assisted.batman_radius := Some 30 |}%R
              5 eq_refl eq_refl) as (_ & _ & _ & _ & _ & H & _).
  exact H.
Defined.

(** ** Giving up *)

Section GiveUp.

Lemma reveal_on_target (loc : location) (e : click_event) :
  clickX_of e = Double.mul (x loc) (image_width e) ->
  clickY_of e = Double.mul (y loc) (image_height e) ->
  click_distance loc e = 0%R.
Proof.
  intros Hx Hy. unfold click_distance, batmanX_of, batmanY_of.
  rewrite Hx, Hy. apply distance_same.
Qed.

End GiveUp.

(** X5. giveUp on an active game ends the round without counting an
    attempt: the game becomes inactive, one success marker is appended
    at the target (its normalized position scaled by the rendered size
    of the image), no timeout is scheduled for it, the play-again button
    replaces the give-up button.  Afterwards giveUp and clicks change
    nothing.  The marker is where a click hits: a click at that point of
    an image of that size is at distance 0 from the target, a hit
    whenever the radius is not negative. *)
Theorem give_up_reveals_target
    (w : Assisted.world) (width height : R)
    (Hactive : Assisted.gameActive w = true) :
  let w' := Assisted.giveUp width height w in
  let reveal := {| mk_id := Assisted.next_id w;
                   mk_left := Double.mul (x (Assisted.batmanLocation w)) width;
                   mk_top := Double.mul (y (Assisted.batmanLocation w)) height;
                   mk_success := true |} in
  Assisted.gameActive w' = false /\
  Assisted.attempts w' = Assisted.attempts w /\
  Assisted.markers w' = Assisted.markers w ++ [reveal] /\
  Assisted.timeouts w' = Assisted.timeouts w /\
  Assisted.message_text w' = Assisted.Msg_revealed /\
  Assisted.playAgainBtn_display w' = Display_inline_block /\
  Assisted.giveUpBtn_display w' = Display_none /\
  (forall width' height', Assisted.giveUp width' height' w' = w') /\
  (forall e, Assisted.on_click e w' = w') /\
  (forall e,
     image_width e = width -> image_height e = height ->
     clickX_of e = mk_left reveal -> clickY_of e = mk_top reveal ->
     click_distance (Assisted.batmanLocation w) e = 0%R /\
     ((0 <= radius (Assisted.batmanLocation w))%R ->
      Assisted.hit_outcome w (Assisted.on_click e w))).
Proof.
  intros w' reveal. subst w' reveal.
  unfold Assisted.giveUp. rewrite Hactive. simpl negb. cbv iota zeta.
  do 7 (split; [reflexivity|]). split; [|split].
  - intros width' height'. reflexivity.
  - intros e. now apply assisted_on_click_inactive.
  - intros e Hw Hh Hx Hy. simpl in Hx, Hy. subst width height.
    pose proof (reveal_on_target (Assisted.batmanLocation w) e Hx Hy) as Hd.
    split; [exact Hd|]. intros Hr.
    apply assisted_click_hit; [exact Hactive|]. rewrite Hd. exact Hr.
Qed.

Lemma give_up_reveals_target_witness :
  Assisted.gameActive
    (Assisted.giveUp 800 600 (Samples.assisted_playing (Some 30%R))) = false.
Proof.
  apply (give_up_reveals_target (Samples.assisted_playing (Some 30%R))
           800%R 600%R eq_refl).
Defined.

(** X6. The first script never looks at the uploaded image: every file
    whose type starts with [image/] starts the same game, on the fixed
    image [GAME_IMAGE_PATH], active, with 0 attempts and the game step
    shown; markers and pending timeouts of an earlier game are left as
    they are. *)
Theorem basic_game_ignores_uploaded_image
    (f f' : file) (w : Basic.world)
    (Hf : is_image (Some f) = true)
    (Hf' : is_image (Some f') = true) :
  Basic.on_change (Some f) w = Basic.on_change (Some f') w /\
  Basic.on_drop (Some f) w = Basic.on_drop (Some f') w /\
  Basic.gameImage_src (Basic.on_change (Some f) w) = Basic.GAME_IMAGE_PATH /\
  Basic.gameActive (Basic.on_change (Some f) w) = true /\
  Basic.attempts (Basic.on_change (Some f) w) = 0 /\
  (Basic.uploadStep_active (Basic.on_change (Some f) w),
   Basic.gameStep_active (Basic.on_change (Some f) w)) = (false, true) /\
  Basic.markers (Basic.on_change (Some f) w) = Basic.markers w /\
  Basic.timeouts (Basic.on_change (Some f) w) = Basic.timeouts w.
Proof.
  unfold Basic.on_change, Basic.on_drop. cbv zeta. rewrite Hf, Hf'.
  repeat split.
Qed.

Lemma basic_game_ignores_uploaded_image_witness :
  Basic.gameImage_src (Basic.on_change (Some Samples.png) Samples.basic_page) =
    Basic.GAME_IMAGE_PATH.
Proof.
  apply (basic_game_ignores_uploaded_image Samples.png
           {| file_name := "cat.gif"; file_type := "image/gif" |}
           Samples.basic_page eq_refl eq_refl).
Defined.

(** ** The interval timer of the timed script *)

Section TimedIntervals.

Import Timed.

Lemma no_leak_same w w' :
  gameActive w' = gameActive w -> timerInterval w' = timerInterval w ->
  intervals w' = intervals w -> Runs.no_leak w -> Runs.no_leak w'.
Proof. unfold Runs.no_leak. now intros -> -> ->. Qed.

Lemma without_single h : without (Some h) [h] = [].
Proof. simpl. now rewrite Pos.eqb_refl. Qed.

Lemma no_leak_cleared w :
  Runs.no_leak w -> without (timerInterval w) (intervals w) = [].
Proof.
  unfold Runs.no_leak. destruct (gameActive w).
  - intros (h & -> & ->). apply without_single.
  - intros ->. now destruct (timerInterval w).
Qed.

Lemma no_leak_handle w ev :
  match ev with
  | Ev_startGame _ => gameActive w = false
  | _ => True
  end ->
  Runs.no_leak w -> Runs.no_leak (handle w ev).
Proof.
  intros Hg H.
  destruct ev as [f| | |f|out now|now|h now|e| |now]; simpl.
  - unfold on_change. destruct (is_image f); exact H.
  - exact H.
  - exact H.
  - unfold on_drop. destruct (is_image f); exact H.
  - destruct (timed_resume_cases out now w) as (A1 & _ & A3 & A4 & _).
    now apply (no_leak_same w).
  - unfold Runs.no_leak in *. rewrite Hg in H. simpl. rewrite H.
    now exists (next_handle w).
  - destruct (timed_on_tick_same h now w) as (A1 & _ & A3 & A4 & _).
    now apply (no_leak_same w).
  - destruct (timed_on_click_cases e w) as [-> | [[Ha ->] | [Ha ->]]].
    + exact H.
    + unfold Runs.no_leak. simpl. now apply no_leak_cleared.
    + exact H.
  - unfold Runs.no_leak. simpl. now apply no_leak_cleared.
  - destruct (timed_fire_fields now w) as (A1 & _ & _ & A4 & A5 & _).
    now apply (no_leak_same w).
Qed.

Lemma no_leak_run evs :
  forall w, Runs.guarded w evs -> Runs.no_leak w -> Runs.no_leak (run w evs).
Proof.
  induction evs as [|ev evs IH]; intros w Hg H; [exact H|].
  destruct Hg as [Hev Hg]. simpl. apply IH; [exact Hg|].
  now apply no_leak_handle.
Qed.

Lemma no_leak_timer_ok w : Runs.no_leak w -> timer_ok w.
Proof.
  unfold Runs.no_leak, timer_ok. destruct (gameActive w).
  - intros (h & Hh & Hi) k Hk. rewrite Hi in Hk.
    destruct Hk as [<- | []]. exact Hh.
  - intros -> k [].
Qed.

Lemma timed_tick_shows now h t w :
  live h w = true -> startTime w = Some t -> t <> 0 ->
  timerDisplay (on_tick h now w) = timeString (elapsed_seconds now (Some t)).
Proof.
  intros Hl Hs Ht. unfold on_tick, updateTimer, startTime_truthy.
  rewrite Hl, Hs. apply Z.eqb_neq in Ht. rewrite Ht. reflexivity.
Qed.

End TimedIntervals.

(** X7. The timed script leaks no interval as long as startGame is only
    called while no game is active: after every such run from a state
    without a leak (the loaded page is one), an active game has exactly
    one live interval, the one held in timerInterval, and an inactive
    game has none; in particular every live interval is the one a hit or
    a reset will clear. *)
Theorem guarded_runs_leak_no_interval
    (w : Timed.world) (evs : list Timed.event)
    (Hclean : Runs.no_leak w)
    (Hguarded : Runs.guarded w evs) :
  Runs.no_leak (Timed.run w evs) /\
  Timed.timer_ok (Timed.run w evs) /\
  (List.length (Timed.intervals (Timed.run w evs)) <= 1)%nat /\
  Timed.intervals (Timed.resetGame (Timed.run w evs)) = [] /\
  (forall e,
     (click_distance Timed.batmanLocation e <= radius Timed.batmanLocation)%R ->
     Timed.intervals (Timed.on_click e (Timed.run w evs)) = []).
Proof.
  pose proof (no_leak_run evs w Hguarded Hclean) as H.
  split; [exact H|]. split; [now apply no_leak_timer_ok|].
  split; [|split].
  - unfold Runs.no_leak in H. destruct (Timed.gameActive (Timed.run w evs)).
    + destruct H as (h & _ & ->). simpl. lia.
    + rewrite H. simpl. lia.
  - simpl. now apply no_leak_cleared.
  - intros e Hhit.
    destruct (Timed.gameActive (Timed.run w evs)) eqn:Ha.
    + rewrite (timed_on_click_hit_eq e _ Ha Hhit). simpl.
      now apply no_leak_cleared.
    + rewrite (timed_on_click_inactive e _ Ha).
      unfold Runs.no_leak in H. now rewrite Ha in H.
Qed.

Lemma guarded_runs_leak_no_interval_witness :
  Runs.no_leak Samples.timed_playing.
Proof.
  assert (Hc : Runs.no_leak Samples.timed_page) by reflexivity.
  assert (Hg : Runs.guarded Samples.timed_page
                 [Timed.Ev_change (Some Samples.png);
                  Timed.Ev_uploaded
                    (Timed.Upload_result true "/uploaded-images/upload-1.png") 0;
                  Timed.Ev_timers 1000;
                  Timed.Ev_startGame 2000]).
  { simpl. repeat split. }
  exact (proj1 (guarded_runs_leak_no_interval _ _ Hc Hg)).
Defined.

(** X8. startGame does not clear a timer that is running: called over
    an active game, it leaves the older interval live, the hit that ends
    the new round clears only the new one, and the ticks of the older
    one go on updating the timer display after the round is won. *)
Theorem restart_over_running_timer_leaks
    (w : Timed.world) (h : positive) (now : Z) (e : click_event)
    (Hlive : Timed.live h w = true)
    (Hfresh : h <> Timed.next_handle w)
    (Hnow : now <> 0)
    (Hhit : (click_distance Timed.batmanLocation e <=
             radius Timed.batmanLocation)%R) :
  let won := Timed.on_click e (Timed.startGame now w) in
  Timed.gameActive won = false /\
  Timed.live h won = true /\
  Timed.live (Timed.next_handle w) won = false /\
  (forall now',
     Timed.timerDisplay (Timed.on_tick h now' won) =
       Timed.timeString (Timed.elapsed_seconds now' (Some now))).
Proof.
  intros won. subst won.
  rewrite (timed_on_click_hit_eq e (Timed.startGame now w) eq_refl Hhit).
  assert (Hl : Timed.live h
                 (Timed.found e (Timed.count_click (Timed.startGame now w))) = true).
  { unfold Timed.live in *. simpl.
    apply existsb_exists in Hlive. destruct Hlive as (k & Hk & E).
    apply Pos.eqb_eq in E. subst k.
    apply existsb_exists. exists h. split; [|apply Pos.eqb_refl].
    apply filter_In. split; [apply in_or_app; now left|].
    apply negb_true_iff. now apply Pos.eqb_neq. }
  split; [reflexivity|]. split; [exact Hl|]. split.
  - unfold Timed.live. simpl. apply timed_cleared_not_live.
  - intros now'. now apply timed_tick_shows.
Qed.

Lemma restart_over_running_timer_leaks_witness :
  Timed.live 1
    (Timed.on_click (Samples.click_at 400 300 9000)
       (Timed.startGame 5000 Samples.timed_playing)) = true.
Proof.
  apply (restart_over_running_timer_leaks Samples.timed_playing 1%positive
           5000 (Samples.click_at 400 300 9000) eq_refl).
  - vm_compute. discriminate.
  - discriminate.
  - apply timed_centre_click_hits.
Defined.

(** X9. The time shown in the results is the time the timer showed at
    the moment of the winning click: with the timer started at a
    non-zero clock reading, a tick at the time of the click displays the
    minutes and seconds of floor((click - start) / 1000), and that same
    string is the final time once the results are shown. *)
Theorem results_time_is_timer_reading
    (w : Timed.world) (e : click_event) (h : positive) (t : Z)
    (Hactive : Timed.gameActive w = true)
    (Hstart : Timed.startTime w = Some t)
    (Hnonzero : t <> 0)
    (Hlive : Timed.live h w = true)
    (Hhit : (click_distance Timed.batmanLocation e <=
             radius Timed.batmanLocation)%R) :
  Timed.timerDisplay (Timed.on_tick h (click_time e) w) =
    Timed.timeString ((click_time e - t) / 1000) /\
  (forall now, click_time e + 1000 <= now ->
     Timed.finalTime (Timed.fire_timeouts now (Timed.on_click e w)) =
       Timed.timerDisplay (Timed.on_tick h (click_time e) w)).
Proof.
  rewrite (timed_tick_shows (click_time e) h t w Hlive Hstart Hnonzero).
  split; [reflexivity|]. intros now Hnow.
  assert (Hts : Timed.timeouts (Timed.on_click e w) =
            Timed.timeouts w ++
              [Timed.Pending (click_time e + 1000)
                 (Timed.Show_results
                    (Timed.elapsed_seconds (click_time e) (Some t))
                    (Timed.calculateScore (Timed.clicks w + 1)
                       (Timed.elapsed_seconds (click_time e) (Some t))))]).
  { rewrite (timed_on_click_hit_eq e w Hactive Hhit). simpl. now rewrite Hstart. }
  now destruct (timed_results_shown now _ _ _ _ _ Hts Hnow) as (_ & _ & H & _).
Qed.

Lemma results_time_is_timer_reading_witness :
  Timed.timerDisplay
    (Timed.on_tick 1 (click_time (Samples.click_at 400 300 127400))
       Samples.timed_playing) = "2:05".
Proof.
  destruct (results_time_is_timer_reading Samples.timed_playing
              (Samples.click_at 400 300 127400) 1%positive 2000
              eq_refl eq_refl ltac:(discriminate) eq_refl
              (timed_centre_click_hits _)) as (H & _).
  rewrite H. reflexivity.
Defined.

(** ** The format of the time *)

Section TimeFormat.

Import Timed.

Lemma padStart2_length s :
  String.length (padStart2 s) = Nat.max 2 (String.length s).
Proof.
  unfold padStart2. destruct s as [|a [|b s]]; simpl; try reflexivity.
Qed.

Lemma padStart2_keeps s : exists zeros, padStart2 s = (zeros ++ s)%string.
Proof.
  unfold padStart2. destruct s as [|a [|b s]]; simpl.
  - now exists "00".
  - now exists "0".
  - now exists "".
Qed.

Lemma to_uint_not_nil p : Pos.to_uint p <> Decimal.Nil.
Proof. apply DecimalPos.Unsigned.to_uint_nonnil. Qed.

(** Reading back the decimal digits of an integer. *)
Lemma decimal_value_string_of_Z z :
  Runs.decimal_value (string_of_Z z) = Some z.
Proof.
  unfold Runs.decimal_value, string_of_Z.
  rewrite NilZero.isi.
  - simpl. now rewrite DecimalZ.of_to.
  - destruct z; simpl; try discriminate.
    intros H. injection H as H. now apply to_uint_not_nil in H.
  - destruct z; simpl; try discriminate.
    intros H. injection H as H. now apply to_uint_not_nil in H.
Qed.

Lemma seconds_fields_checked : forallb Runs.seconds_field_ok (seq 0 60) = true.
Proof. vm_compute. reflexivity. Qed.

Lemma seconds_field s :
  0 <= s < 60 ->
  String.length (padStart2 (string_of_Z s)) = 2%nat /\
  Runs.decimal_value (padStart2 (string_of_Z s)) = Some s.
Proof.
  intros Hs.
  pose proof seconds_fields_checked as H. rewrite forallb_forall in H.
  specialize (H (Z.to_nat s)).
  assert (Hin : In (Z.to_nat s) (seq 0 60)) by (apply in_seq; lia).
  specialize (H Hin). unfold Runs.seconds_field_ok in H.
  rewrite Z2Nat.id in H by lia.
  apply andb_true_iff in H. destruct H as [H1 H2].
  split; [now apply Nat.eqb_eq|].
  destruct (Runs.decimal_value _) as [v|]; [|discriminate].
  apply Z.eqb_eq in H2. now subst.
Qed.

End TimeFormat.

(** X10. For a time of t >= 0 seconds the timer and the results show
    [minutes:seconds]: the decimal digits of floor(t / 60), a colon, and
    exactly two digits for the seconds, which read back as a number
    below 60; minutes and seconds add up to t. *)
Theorem time_is_minutes_and_two_digit_seconds (t : Z) (Ht : 0 <= t) :
  exists minutes seconds : string,
    Timed.timeString t = (minutes ++ ":" ++ seconds)%string /\
    String.length seconds = 2%nat /\
    exists m s : Z,
      Runs.decimal_value minutes = Some m /\
      Runs.decimal_value seconds = Some s /\
      0 <= s < 60 /\ 60 * m + s = t.
Proof.
  exists (string_of_Z (t / 60)), (Timed.padStart2 (string_of_Z (Z.rem t 60))).
  assert (Hs : 0 <= Z.rem t 60 < 60) by (apply Z.rem_bound_pos; lia).
  destruct (seconds_field (Z.rem t 60) Hs) as [Hlen Hval].
  split; [reflexivity|]. split; [exact Hlen|].
  exists (t / 60), (Z.rem t 60).
  split; [apply decimal_value_string_of_Z|]. split; [exact Hval|].
  split; [exact Hs|].
  rewrite Z.rem_mod_nonneg by lia.
  pose proof (Z.div_mod t 60). lia.
Qed.

Lemma time_is_minutes_and_two_digit_seconds_witness :
  exists minutes seconds : string,
    Timed.timeString 125 = (minutes ++ ":" ++ seconds)%string /\
    String.length seconds = 2%nat /\
    exists m s : Z,
      Runs.decimal_value minutes = Some m /\
      Runs.decimal_value seconds = Some s /\
      0 <= s < 60 /\ 60 * m + s = 125.
Proof.
  apply (time_is_minutes_and_two_digit_seconds 125). lia.
Defined.

(** ** Uploading in the timed script *)

Section TimedUpload.

Import Timed.

Lemma timed_ready_shown (now : Z) (w : world) (ts : list timeout) (at_ : Z) :
  timeouts w = ts ++ [Pending at_ Show_ready] ->
  at_ <= now ->
  (uploadStep_active (fire_timeouts now w), readyStep_active (fire_timeouts now w),
   gameStep_active (fire_timeouts now w), resultsStep_active (fire_timeouts now w)) =
    (false, true, false, false).
Proof.
  intros Hts Hdue.
  assert (Hd : is_due now (Pending at_ Show_ready) = true).
  { unfold is_due. simpl. now apply Z.leb_le. }
  unfold fire_timeouts. rewrite Hts, !filter_app. simpl filter.
  rewrite Hd. simpl negb. cbv iota.
  rewrite fold_left_app. simpl fold_left.
  match goal with
  | |- context [run_timeout ?w1 _] => generalize w1
  end.
  intros w1. reflexivity.
Qed.

Lemma one_step_run_timeout w t : Runs.one_step w -> Runs.one_step (run_timeout w t).
Proof.
  intros H. unfold run_timeout. destruct (job t); [exact H | reflexivity | reflexivity].
Qed.

Lemma one_step_fold ts : forall w, Runs.one_step w ->
  Runs.one_step (fold_left run_timeout ts w).
Proof.
  induction ts as [|t ts IH]; intros w H; [exact H|].
  simpl. apply IH. now apply one_step_run_timeout.
Qed.

Lemma one_step_handle w ev : Runs.one_step w -> Runs.one_step (handle w ev).
Proof.
  intros H.
  destruct ev as [f| | |f|out now|now|h now|e| |now]; simpl.
  - unfold on_change. destruct (is_image f); exact H.
  - exact H.
  - exact H.
  - unfold on_drop. destruct (is_image f); exact H.
  - unfold uploadAndProcess_resume. destruct (in_flight w); exact H.
  - reflexivity.
  - unfold on_tick, updateTimer.
    destruct (live h w); [|exact H].
    destruct (startTime_truthy w); exact H.
  - destruct (timed_on_click_cases e w) as [-> | [[Ha ->] | [Ha ->]]]; exact H.
  - reflexivity.
  - unfold fire_timeouts. now apply one_step_fold.
Qed.

End TimedUpload.

(** X11. How an upload of the timed script ends.  A response with
    [success] keeps its path as the composite image, says so in the
    status line and schedules the ready step one second later (it is the
    step shown once that timeout has run), and startGame then shows that
    image; a response without [success] and a failed request leave the
    composite image as it was and schedule nothing, with their own status
    line.  In every case the round (game flag, clicks, start time, timer,
    markers) is untouched.  Each response is applied to whatever the
    state is then: a later successful response overwrites the path of an
    earlier one. *)
Theorem upload_response_handling
    (w : Timed.world) (out : Timed.upload_outcome) (now : Z)
    (Hflight : Timed.in_flight w <> O) :
  let w' := Timed.uploadAndProcess_resume out now w in
  (Timed.gameActive w' = Timed.gameActive w /\
   Timed.clicks w' = Timed.clicks w /\
   Timed.startTime w' = Timed.startTime w /\
   Timed.timerInterval w' = Timed.timerInterval w /\
   Timed.intervals w' = Timed.intervals w /\
   Timed.markers w' = Timed.markers w) /\
  S (Timed.in_flight w') = Timed.in_flight w /\
  match out with
  | Timed.Upload_result true path =>
      Timed.compositeImagePath w' = Some path /\
      Timed.uploadStatus w' = Timed.Status_processed /\
      Timed.timeouts w' =
        Timed.timeouts w ++ [Timed.Pending (now + 1000) Timed.Show_ready] /\
      (forall now', now + 1000 <= now' ->
         (Timed.uploadStep_active (Timed.fire_timeouts now' w'),
          Timed.readyStep_active (Timed.fire_timeouts now' w'),
          Timed.gameStep_active (Timed.fire_timeouts now' w'),
          Timed.resultsStep_active (Timed.fire_timeouts now' w')) =
           (false, true, false, false)) /\
      (forall t, Timed.gameImage_src (Timed.startGame t w') = Some path) /\
      (forall path' now',
         Timed.compositeImagePath
           (Timed.uploadAndProcess_resume (Timed.Upload_result true path') now'
              (Timed.uploadAndProcess w')) = Some path')
  | Timed.Upload_result false _ =>
      Timed.compositeImagePath w' = Timed.compositeImagePath w /\
      Timed.uploadStatus w' = Timed.Status_failed /\
      Timed.timeouts w' = Timed.timeouts w
  | Timed.Upload_threw =>
      Timed.compositeImagePath w' = Timed.compositeImagePath w /\
      Timed.uploadStatus w' = Timed.Status_error /\
      Timed.timeouts w' = Timed.timeouts w
  end.
Proof.
  intros w'. subst w'. unfold Timed.uploadAndProcess_resume.
  destruct (Timed.in_flight w) as [|n] eqn:E; [congruence|].
  split; [repeat split|]. split; [reflexivity|].
  destruct out as [|[|] path]; simpl.
  - repeat split.
  - split; [reflexivity|]. split; [reflexivity|]. split; [reflexivity|].
    split; [|split; reflexivity].
    intros now' Hnow'.
    apply (timed_ready_shown now' _ (Timed.timeouts w) (now + 1000));
      [reflexivity | exact Hnow'].
  - repeat split.
Qed.

Lemma upload_response_handling_witness :
  Timed.compositeImagePath
    (Timed.uploadAndProcess_resume
       (Timed.Upload_result true "/uploaded-images/upload-7.png") 40
       (Timed.on_change (Some Samples.png) Samples.timed_page)) =
    Some "/uploaded-images/upload-7.png".
Proof.
  destruct (upload_response_handling
              (Timed.on_change (Some Samples.png) Samples.timed_page)
              (Timed.Upload_result true "/uploaded-images/upload-7.png") 40
              ltac:(discriminate)) as (_ & _ & H & _).
  exact H.
Defined.

(** X12. The timed script always shows exactly one of its four steps:
    if exactly one step section is active, then after every sequence of
    events (uploads, responses, startGame, ticks, clicks, reset and
    timeouts running) exactly one is; startGame makes it the game step
    and resetGame the upload step. *)
Theorem exactly_one_step_is_shown
    (w : Timed.world) (evs : list Timed.event)
    (Hone : Runs.one_step w) :
  Runs.one_step (Timed.run w evs) /\
  (forall now,
     Timed.gameStep_active (Timed.startGame now (Timed.run w evs)) = true) /\
  Timed.uploadStep_active (Timed.resetGame (Timed.run w evs)) = true.
Proof.
  split; [|split; reflexivity].
  revert w Hone. induction evs as [|ev evs IH]; intros w H; [exact H|].
  simpl. apply IH. now apply one_step_handle.
Qed.

Lemma exactly_one_step_is_shown_witness :
  Runs.one_step Samples.timed_playing.
Proof.
  exact (proj1 (exactly_one_step_is_shown Samples.timed_page
                  [Timed.Ev_change (Some Samples.png);
                   Timed.Ev_uploaded
                     (Timed.Upload_result true "/uploaded-images/upload-1.png") 0;
                   Timed.Ev_timers 1000;
                   Timed.Ev_startGame 2000] eq_refl)).
Defined.

(** X13. resetGame of the timed script cancels no pending timeout: when
    it is called within the second after a winning click, the results
    scheduled by that click still run, and the page then shows the
    results step over the reset state (game inactive, counter 0), with
    the score of the round and, as the count, the counter as the
    callback finds it: 0. *)
Theorem reset_keeps_pending_results
    (w : Timed.world) (e : click_event) (now : Z)
    (Hactive : Timed.gameActive w = true)
    (Hhit : (click_distance Timed.batmanLocation e <=
             radius Timed.batmanLocation)%R)
    (Hnow : click_time e + 1000 <= now) :
  let elapsed := Timed.elapsed_seconds (click_time e) (Timed.startTime w) in
  let w' := Timed.fire_timeouts now (Timed.resetGame (Timed.on_click e w)) in
  Timed.timeouts (Timed.resetGame (Timed.on_click e w)) =
    Timed.timeouts (Timed.on_click e w) /\
  (Timed.uploadStep_active w', Timed.resultsStep_active w') = (false, true) /\
  Timed.gameActive w' = false /\
  Timed.clicks w' = 0 /\
  Timed.finalClicks w' = 0 /\
  Timed.finalScore w' = Timed.calculateScore (Timed.clicks w + 1) elapsed.
Proof.
  intros elapsed w'.
  assert (Hts : Timed.timeouts (Timed.resetGame (Timed.on_click e w)) =
            Timed.timeouts w ++
              [Timed.Pending (click_time e + 1000)
                 (Timed.Show_results elapsed
                    (Timed.calculateScore (Timed.clicks w + 1) elapsed))]).
  { rewrite (timed_on_click_hit_eq e w Hactive Hhit). reflexivity. }
  split; [reflexivity|].
  destruct (timed_results_shown now _ _ _ _ _ Hts Hnow) as (H1 & H2 & _ & H4).
  destruct (timed_fire_fields now (Timed.resetGame (Timed.on_click e w)))
    as (A1 & A2 & _).
  fold w' in H1, H2, H4, A1, A2.
  split; [|split; [|split; [|split]]].
  - rewrite H4. f_equal.
    subst w'. unfold Timed.fire_timeouts. rewrite Hts.
    rewrite !filter_app. simpl filter.
    replace (Timed.is_due now _) with true
      by (symmetry; unfold Timed.is_due; simpl; now apply Z.leb_le).
    simpl negb. cbv iota. rewrite fold_left_app. simpl fold_left.
    match goal with
    | |- context [Timed.run_timeout ?w1 _] => generalize w1
    end.
    intros w1. reflexivity.
  - rewrite A1. reflexivity.
  - rewrite A2. reflexivity.
  - exact H2.
  - exact H1.
Qed.

Lemma reset_keeps_pending_results_witness :
  let w' :=
    Timed.fire_timeouts 9000
      (Timed.resetGame
         (Timed.on_click (Samples.click_at 400 300 7500)
            Samples.timed_playing)) in
  Timed.resultsStep_active w' = true /\
  Timed.finalClicks w' = 0 /\
  Timed.finalScore w' = 900.
Proof.
  destruct (reset_keeps_pending_results Samples.timed_playing
              (Samples.click_at 400 300 7500) 9000 eq_refl
              (timed_centre_click_hits _) ltac:(simpl; lia))
    as (_ & H & _ & _ & Hclicks & Hscore).
  split; [now injection H|]. split; [exact Hclicks | exact Hscore].
Defined.

(** ** The upload server *)

Section UploadServer.

Import Server.

Lemma has_suffix_iff (suffix l : list ascii) :
  has_suffix suffix l = true <-> exists stem, l = stem ++ suffix.
Proof.
  unfold has_suffix. split.
  - intros H. apply andb_true_iff in H. destruct H as [Hlen H].
    destruct (list_eq_dec _ _ _) as [E|]; [|discriminate].
    exists (firstn (List.length l - List.length suffix) l).
    rewrite <- E at 2. symmetry. apply firstn_skipn.
  - intros (stem & ->). apply andb_true_iff. split.
    + apply Nat.leb_le. rewrite length_app. lia.
    + rewrite length_app.
      replace (List.length stem + List.length suffix - List.length suffix)%nat
        with (List.length stem) by lia.
      rewrite skipn_app, skipn_all, Nat.sub_diag. simpl.
      now destruct (list_eq_dec _ _ _).
Qed.

Lemma list_ascii_of_string_app a b :
  list_ascii_of_string (a ++ b) = list_ascii_of_string a ++ list_ascii_of_string b.
Proof. induction a as [|c a IH]; simpl; [reflexivity | now rewrite IH]. Qed.

Lemma string_of_list_ascii_app a b :
  string_of_list_ascii (a ++ b) =
  (string_of_list_ascii a ++ string_of_list_ascii b)%string.
Proof. induction a as [|c a IH]; simpl; [reflexivity | now rewrite IH]. Qed.

Lemma lower_dot c : lower c = "."%char -> c = "."%char.
Proof.
  destruct c as [[] [] [] [] [] [] [] []]; vm_compute; intros H;
    try reflexivity; discriminate H.
Qed.

Lemma lower_idempotent c : lower (lower c) = lower c.
Proof. destruct c as [[] [] [] [] [] [] [] []]; reflexivity. Qed.

Lemma extensions_lowercase ext :
  In ext extensions ->
  map lower (list_ascii_of_string ext) = list_ascii_of_string ext.
Proof.
  intros H. simpl in H.
  destruct H as [<- | [<- | [<- | [<- | [<- | []]]]]]; reflexivity.
Qed.

Lemma is_image_name_iff file :
  is_image_name file = true <->
  exists stem ext known,
    file = (stem ++ "." ++ ext)%string /\
    In known extensions /\ same_ignoring_case ext known.
Proof.
  unfold is_image_name, same_ignoring_case. rewrite existsb_exists. split.
  - intros (known & Hin & H). apply has_suffix_iff in H.
    destruct H as (pre & H). rewrite list_ascii_of_string_app in H.
    simpl in H.
    apply map_eq_app in H. destruct H as (stem & tail & Hfile & Hstem & Htail).
    destruct tail as [|c ext]; [discriminate Htail|].
    simpl in Htail. injection Htail as Hc Hext.
    apply lower_dot in Hc. subst c.
    exists (string_of_list_ascii stem), (string_of_list_ascii ext), known.
    split; [|split; [exact Hin|]].
    + rewrite <- (string_of_list_ascii_of_string file), Hfile.
      rewrite string_of_list_ascii_app. reflexivity.
    + rewrite list_ascii_of_string_of_list_ascii, Hext.
      symmetry. now apply extensions_lowercase.
  - intros (stem & ext & known & -> & Hin & Hsame).
    exists known. split; [exact Hin|]. apply has_suffix_iff.
    exists (map lower (list_ascii_of_string stem)).
    rewrite !list_ascii_of_string_app, map_app. simpl.
    rewrite Hsame, (extensions_lowercase known Hin). reflexivity.
Qed.

End UploadServer.

(** X14. [/uploads-list] lists a stored file exactly when its name ends
    with a dot and one of jpg, jpeg, png, gif, webp, upper or lower
    case; it lists each such name with the path
    [/uploaded-images/<name>], and answers 500 with an error when the
    directory cannot be read. *)
Theorem uploads_list_lists_image_names (files : list string) (file : string) :
  (Server.is_image_name file = true <->
   exists stem ext known,
     file = (stem ++ "." ++ ext)%string /\
     In known Server.extensions /\ Server.same_ignoring_case ext known) /\
  (exists listed,
     Server.get_uploads_list (Some files) =
       {| Server.status := 200; Server.content := Server.Files_body listed |} /\
     (forall name path,
        In (name, path) listed <->
        In name files /\ Server.is_image_name name = true /\
        path = ("/uploaded-images/" ++ name)%string)) /\
  Server.status (Server.get_uploads_list None) = 500.
Proof.
  split; [apply is_image_name_iff|]. split; [|reflexivity].
  eexists. split; [reflexivity|].
  intros name path. rewrite in_map_iff. split.
  - intros (f & E & Hin). injection E as <- <-.
    apply filter_In in Hin. tauto.
  - intros (Hin & Himg & ->). exists name. split; [reflexivity|].
    apply filter_In. now split.
Qed.

(** X15. An upload from end to end.  The change handler of the timed
    script only uploads a file whose type the server's fileFilter
    accepts.  When the server stored the file, its answer makes the
    script keep [/uploaded-images/<filename>] as the composite image,
    which startGame then shows and which is the path [/uploads-list]
    gives for that file when it lists it.  When the request carried no
    file the server answers 400 with an error and the script, which reads
    no [success] in it, reports a failed upload and keeps what it had. *)
Theorem stored_upload_reaches_the_game
    (w : Timed.world) (req_file : option string) (now t : Z)
    (Hflight : Timed.in_flight w <> O) :
  let w' := Timed.uploadAndProcess_resume
              (Server.read_by_client (Server.post_upload req_file)) now w in
  (forall f : file,
     Timed.in_flight (Timed.on_change (Some f) w) <> Timed.in_flight w ->
     Server.fileFilter (file_type f) = Server.Accept) /\
  match req_file with
  | Some filename =>
      Timed.compositeImagePath w' = Some ("/uploaded-images/" ++ filename)%string /\
      Timed.uploadStatus w' = Timed.Status_processed /\
      Timed.gameImage_src (Timed.startGame t w') =
        Some ("/uploaded-images/" ++ filename)%string /\
      (forall files listed,
         Server.content (Server.get_uploads_list (Some files)) =
           Server.Files_body listed ->
         In filename files -> Server.is_image_name filename = true ->
         In (filename, ("/uploaded-images/" ++ filename)%string) listed)
  | None =>
      Server.status (Server.post_upload None) = 400 /\
      Timed.uploadStatus w' = Timed.Status_failed /\
      Timed.compositeImagePath w' = Timed.compositeImagePath w /\
      Timed.timeouts w' = Timed.timeouts w
  end.
Proof.
  intros w'. split.
  - intros f Hsent. unfold Timed.on_change, is_image in Hsent.
    unfold Server.fileFilter.
    destruct (String.prefix "image/" (file_type f)); [reflexivity|].
    now elim Hsent.
  - subst w'. unfold Timed.uploadAndProcess_resume.
    destruct (Timed.in_flight w) as [|n] eqn:E; [congruence|].
    destruct req_file as [filename|]; simpl.
    + do 3 (split; [reflexivity|]).
      intros files listed Hl Hin Himg. injection Hl as <-.
      apply in_map_iff. exists filename. split; [reflexivity|].
      apply filter_In. now split.
    + repeat split.
Qed.

Lemma stored_upload_reaches_the_game_witness :
  Timed.compositeImagePath
    (Timed.uploadAndProcess_resume
       (Server.read_by_client (Server.post_upload (Some "upload-7.png"))) 40
       (Timed.on_change (Some Samples.png) Samples.timed_page)) =
    Some "/uploaded-images/upload-7.png".
Proof.
  destruct (stored_upload_reaches_the_game
              (Timed.on_change (Some Samples.png) Samples.timed_page)
              (Some "upload-7.png") 40 0 ltac:(discriminate)) as (_ & H & _).
  exact H.
Defined.

(** ** A page without the loading overlay *)

Section NoOverlay.

Import Assisted.

Lemma no_overlay_showLoading b text w :
  loadingOverlay w = None -> showLoading b text w = w.
Proof. intros H. unfold showLoading. now rewrite H. Qed.

Lemma no_overlay_handle w ev :
  loadingOverlay w = None ->
  loadingOverlay (handle w ev) = None /\
  buttons_disabled (handle w ev) = buttons_disabled w.
Proof.
  intros H.
  destruct ev as [f| | |f|out now|e|width height| | |now]; simpl.
  - unfold on_change, processUploadedImage.
    destruct (is_image f); [|now split].
    destruct (processing w); [now split|]. cbv zeta.
    rewrite no_overlay_showLoading by exact H. now split.
  - now split.
  - now split.
  - unfold on_drop, processUploadedImage. cbv zeta.
    destruct (is_image f); [|now split]. simpl.
    destruct (processing w); [now split|].
    rewrite no_overlay_showLoading by exact H. now split.
  - unfold processUploadedImage_resume, finally.
    destruct (processing w); simpl negb; cbv iota; [|now split].
    destruct out as [text | [|] data]; [| destruct (data_batman data) |];
      cbv zeta; rewrite no_overlay_showLoading by exact H; now split.
  - destruct (assisted_on_click_cases e w) as [-> | [-> | ->]]; now split.
  - unfold giveUp. destruct (gameActive w); now split.
  - now split.
  - now split.
  - unfold fire_timeouts.
    match goal with
    | |- context [fold_left run_timeout ?ts ?w1] =>
        destruct (assisted_fold_page ts w1) as (_ & B & C)
    end.
    rewrite B, C. now split.
Qed.

End NoOverlay.

(** X16. On a page that has no loading overlay, showLoading does
    nothing at all: on every run the buttons keep the disabled state they
    had, also while a request is under way.  The [processing] flag alone
    then keeps a second request from starting. *)
Theorem no_overlay_no_button_lock
    (w : Assisted.world) (evs : list Assisted.event)
    (Hnone : Assisted.loadingOverlay w = None) :
  Assisted.loadingOverlay (Assisted.run w evs) = None /\
  Assisted.buttons_disabled (Assisted.run w evs) = Assisted.buttons_disabled w /\
  (forall f,
     Assisted.processing (Assisted.run w evs) = true ->
     Assisted.on_change f (Assisted.run w evs) = Assisted.run w evs).
Proof.
  assert (H : Assisted.loadingOverlay (Assisted.run w evs) = None /\
              Assisted.buttons_disabled (Assisted.run w evs) =
                Assisted.buttons_disabled w).
  { revert w Hnone. induction evs as [|ev evs IH]; intros w Hnone; [now split|].
    simpl. destruct (no_overlay_handle w ev Hnone) as [A B].
    destruct (IH (Assisted.handle w ev) A) as [C D].
    split; [exact C | congruence]. }
  destruct H as [A B]. split; [exact A|]. split; [exact B|].
  intros f Hp. unfold Assisted.on_change, Assisted.processUploadedImage.
  rewrite Hp. now destruct (is_image f).
Qed.

Lemma no_overlay_no_button_lock_witness :
  let page :=
    {| Assisted.gameActive := false;
       Assisted.attempts := 0;
       Assisted.processing := false;
       Assisted.batmanLocation := Assisted.initial_location;
       Assisted.gameImage_src := "";
       Assisted.uploadStep_active := true;
       Assisted.gameStep_active := false;
       Assisted.attemptsDisplay := 0;
       Assisted.message_text := Assisted.Msg_empty;
       Assisted.message_class := "message";
       Assisted.playAgainBtn_display := Display_unset;
       Assisted.giveUpBtn_display := Display_unset;
       Assisted.fileInput_value := "";
       Assisted.uploadArea_background := "";
       Assisted.loadingOverlay := None;
       Assisted.buttons_disabled := false;
       Assisted.markers := [];
       Assisted.timeouts := [];
       Assisted.next_id := O |} in
  Assisted.buttons_disabled
    (Assisted.run page [Assisted.Ev_change (Some Samples.png)]) = false.
Proof.
  intros page.
  destruct (no_overlay_no_button_lock page
              [Assisted.Ev_change (Some Samples.png)] eq_refl) as (_ & H & _).
  exact H.
Defined.
